(** * A SAST pattern scanner and its fix pipeline, verified against their source

    The development embeds the decidable core of the repository: the
    pattern catalog, the line scanner and the batch fix applier of the
    editor extension, the validation and rule-based fallback of the fix
    route, the enrichment fallback of the analysis route, and the
    confidence, context-window and severity helpers of the AI service;
    and, around these, the mock issues of the SonarQube service, the
    pattern analysis and the fix strategies of the AI service, and the
    additional analysis of the analysis route.

    JavaScript strings are sequences of code units; here they are Rocq
    strings, so every code unit is below 256.  Regular expressions are
    run by a backtracking matcher written after the continuation-passing
    matcher of the ECMAScript specification, and a RegExp object carries
    its [lastIndex], which [test] reads and writes when the [g] flag is
    set. *)

From Stdlib Require Import Ascii String ZArith Lia Bool.
From Stdlib Require Import Sorting.Permutation Sorting.Sorted.
From Stdlib Require Import DecimalString DecimalNat.
From stdpp Require Import gmap strings list.

Open Scope string_scope.
Open Scope list_scope.
Open Scope nat_scope.

(* ================================================================== *)
(** * The JavaScript run-time the sources rely on                     *)
(* ================================================================== *)

Module JS.

(** ** Characters and strings *)

Definition LF : ascii := ascii_of_nat 10.
Definition dquote : ascii := ascii_of_nat 34.
Definition nl : string := String LF EmptyString.

Definition code (c : ascii) : nat := nat_of_ascii c.

Definition between (lo hi n : nat) : bool := (lo <=? n) && (n <=? hi).

(** WhiteSpace and LineTerminator code units below 256: TAB, LF, VT, FF,
    CR, SP and NBSP.  Both [\s] and [trim] use this set. *)
Definition is_space (c : ascii) : bool :=
  between 9 13 (code c) || (code c =? 32) || (code c =? 160).

(** [\w] is [A-Za-z0-9_]. *)
Definition is_word (c : ascii) : bool :=
  between 48 57 (code c) || between 65 90 (code c)
  || (code c =? 95) || between 97 122 (code c).

(** [.] (without the [s] flag) excludes the line terminators LF and CR. *)
Definition is_line_terminator (c : ascii) : bool :=
  (code c =? 10) || (code c =? 13).

(** Canonicalize of the [i] flag (non-unicode mode): the upper-case form
    when that is a single code unit.  Within Latin-1 this folds a-z and
    the accented letters 224..254 (247, the division sign, apart).  The
    upper-case forms of 181 and 255 lie above 255, where they equal the
    canonical form of no code unit below 256, so leaving these two as
    they are changes no comparison. *)
Definition canonicalize (ignoreCase : bool) (c : ascii) : ascii :=
  if ignoreCase then
    if between 97 122 (code c)
       || (between 224 254 (code c) && negb (code c =? 247))
    then ascii_of_nat (code c - 32)
    else c
  else c.

Fixpoint string_drop (n : nat) (s : string) : string :=
  match n, s with
  | O, _ => s
  | S n', String _ s' => string_drop n' s'
  | S _, EmptyString => EmptyString
  end.

(** [s.includes(sub)] *)
Fixpoint includes (s sub : string) : bool :=
  String.prefix sub s
  || match s with
     | EmptyString => false
     | String _ s' => includes s' sub
     end.

(** [s.split('\n')]: the empty string splits into one empty line. *)
Fixpoint split_nl (s : string) : list string :=
  match s with
  | EmptyString => [EmptyString]
  | String c s' =>
      if Ascii.eqb c LF then EmptyString :: split_nl s'
      else match split_nl s' with
           | [] => [String c EmptyString]
           | l :: ls => String c l :: ls
           end
  end.

(** [a.join(sep)] on an array of strings. *)
Fixpoint join (sep : string) (l : list string) : string :=
  match l with
  | [] => EmptyString
  | [x] => x
  | x :: xs => x +:+ sep +:+ join sep xs
  end.

(** What [join] appends after the first element. *)
Definition join_tail (R : list string) : string :=
  match R with
  | [] => EmptyString
  | _ => nl +:+ join nl R
  end.

Fixpoint trim_start (s : string) : string :=
  match s with
  | EmptyString => EmptyString
  | String c s' => if is_space c then trim_start s' else s
  end.

Fixpoint trim_end (s : string) : string :=
  match s with
  | EmptyString => EmptyString
  | String c s' =>
      match trim_end s' with
      | EmptyString => if is_space c then EmptyString else String c EmptyString
      | t => String c t
      end
  end.

(** [s.trim()] *)
Definition trim (s : string) : string := trim_end (trim_start s).

(** ** Regular expressions *)

Inductive atom : Type :=
| AChar (c : ascii)                      (* a literal character *)
| ASpace                                 (* \s *)
| AWord                                  (* \w *)
| ADot                                   (* . *)
| ASet (negated : bool) (cs : list ascii). (* [...] and [^...] *)

Inductive regex : Type :=
| REmpty
| RAtom (a : atom)
| RSeq (r1 r2 : regex)
| RAlt (r1 r2 : regex)
| RStar (greedy : bool) (r : regex)      (* r* and r*? *)
| RGroup (i : nat) (r : regex)           (* the i-th capturing group *)
| RBackref (i : nat).                    (* \i *)

(** [r+] is [rr*], [r?] is [r|] (greedy). *)
Definition RPlus (greedy : bool) (r : regex) : regex := RSeq r (RStar greedy r).
Definition ROpt (r : regex) : regex := RAlt r REmpty.

Fixpoint lit (s : string) : regex :=
  match s with
  | EmptyString => REmpty
  | String c EmptyString => RAtom (AChar c)
  | String c s' => RSeq (RAtom (AChar c)) (lit s')
  end.

Fixpoint seq (rs : list regex) : regex :=
  match rs with
  | [] => REmpty
  | [r] => r
  | r :: rs' => RSeq r (seq rs')
  end.

Definition char_eqb (ignoreCase : bool) (a b : ascii) : bool :=
  Ascii.eqb (canonicalize ignoreCase a) (canonicalize ignoreCase b).

Definition atom_matches (ignoreCase : bool) (a : atom) (ch : ascii) : bool :=
  match a with
  | AChar c => char_eqb ignoreCase c ch
  | ASpace => is_space ch
  | AWord => is_word ch
  | ADot => negb (is_line_terminator ch)
  | ASet negated cs => xorb negated (existsb (fun c => char_eqb ignoreCase c ch) cs)
  end.

(** Captures: group number to captured text; an absent entry is
    [undefined]. *)
Definition captures : Type := list (nat * string).

Fixpoint get_capture (i : nat) (c : captures) : option string :=
  match c with
  | [] => None
  | (j, t) :: c' => if Nat.eqb i j then Some t else get_capture i c'
  end.

Definition set_capture (i : nat) (t : string) (c : captures) : captures :=
  (i, t) :: c.

Fixpoint groups_in (r : regex) : list nat :=
  match r with
  | REmpty | RAtom _ | RBackref _ => []
  | RSeq r1 r2 | RAlt r1 r2 => groups_in r1 ++ groups_in r2
  | RStar _ r' => groups_in r'
  | RGroup i r' => i :: groups_in r'
  end.

Definition clear_captures (gs : list nat) (c : captures) : captures :=
  List.filter (fun p => negb (existsb (Nat.eqb (fst p)) gs)) c.

Fixpoint prefix_ci (ignoreCase : bool) (t s : string) : option string :=
  match t with
  | EmptyString => Some s
  | String a t' =>
      match s with
      | EmptyString => None
      | String b s' => if char_eqb ignoreCase a b then prefix_ci ignoreCase t' s' else None
      end
  end.

(** A match state is the number of code units consumed since the start
    of the attempt, the text still ahead, and the captures. *)
Definition mresult : Type := option (nat * string * captures).
Definition continuation : Type := nat -> string -> captures -> mresult.

(** The loop of a quantifier [r*] or [r*?]: [body] runs one iteration of
    [r], [k] is what follows the quantifier.  An iteration that consumes
    nothing is rejected.  [fuel] bounds the number of iterations. *)
Fixpoint rep (body : continuation -> continuation) (greedy : bool)
    (k : continuation) (fuel n : nat) (s : string) (c : captures)
    {struct fuel} : mresult :=
  match fuel with
  | O => k n s c
  | S fuel' =>
      if greedy then
        match body (fun n' s' c' =>
                      if n <? n' then rep body greedy k fuel' n' s' c' else None)
                n s c with
        | Some x => Some x
        | None => k n s c
        end
      else
        match k n s c with
        | Some x => Some x
        | None =>
            body (fun n' s' c' =>
                    if n <? n' then rep body greedy k fuel' n' s' c' else None)
              n s c
        end
  end.

(** The matcher.  Alternatives and quantifiers are tried in the order the
    ECMAScript matcher tries them, and every iteration of a quantifier
    starts with the captures of its groups cleared.  A quantifier is
    given as many iterations as there are code units ahead, which is all
    it can use: every accepted iteration consumes at least one (see
    [rep_fuel] below). *)
Fixpoint run (r : regex) (ignoreCase : bool) (k : continuation)
    (n : nat) (s : string) (c : captures) {struct r} : mresult :=
  match r with
  | REmpty => k n s c
  | RAtom a =>
      match s with
      | EmptyString => None
      | String ch s' => if atom_matches ignoreCase a ch then k (S n) s' c else None
      end
  | RSeq r1 r2 => run r1 ignoreCase (run r2 ignoreCase k) n s c
  | RAlt r1 r2 =>
      match run r1 ignoreCase k n s c with
      | Some x => Some x
      | None => run r2 ignoreCase k n s c
      end
  | RStar greedy r' =>
      rep (fun k' n' s' c' =>
             run r' ignoreCase k' n' s' (clear_captures (groups_in r') c'))
          greedy k (String.length s) n s c
  | RGroup i r' =>
      run r' ignoreCase
        (fun n' s' c' => k n' s' (set_capture i (substring 0 (n' - n) s) c'))
        n s c
  | RBackref i =>
      match get_capture i c with
      | None => k n s c
      | Some t =>
          match prefix_ci ignoreCase t s with
          | Some s' => k (n + String.length t) s' c
          | None => None
          end
      end
  end.

(** One attempt at the start of [s]: the length of the match and the
    captures. *)
Definition match_here (r : regex) (ignoreCase : bool) (s : string)
    : option (nat * captures) :=
  match run r ignoreCase (fun n s' c => Some (n, s', c)) 0 s [] with
  | Some (n, _, c) => Some (n, c)
  | None => None
  end.

(** The leftmost match in [s]: how many code units are skipped before it,
    its length, its captures.  The position at the very end of [s] is
    tried too. *)
Fixpoint search (r : regex) (ignoreCase : bool) (s : string)
    : option (nat * nat * captures) :=
  match match_here r ignoreCase s with
  | Some (n, c) => Some (0, n, c)
  | None =>
      match s with
      | EmptyString => None
      | String _ s' =>
          match search r ignoreCase s' with
          | Some (i, n, c) => Some (S i, n, c)
          | None => None
          end
      end
  end.

(** ** Properties of continuations, for the lemmas on the matcher *)

(** Two continuations agree on the states whose consumed count and text
    ahead add up to [N]. *)
Definition agree (N : nat) (k1 k2 : continuation) : Prop :=
  forall n s c, n + String.length s = N -> k1 n s c = k2 n s c.

(** The continuation that always fails. *)
Definition fails : continuation := fun _ _ _ => None.

(** One iteration of [r] inside a quantifier. *)
Definition star_body (r : regex) (ignoreCase : bool) : continuation -> continuation :=
  fun k' n' s' c' => run r ignoreCase k' n' s' (clear_captures (groups_in r) c').

Definition extensional (body : continuation -> continuation) : Prop :=
  forall N k1 k2, agree N k1 k2 -> agree N (body k1) (body k2).

(** A continuation keeps track: what it returns still adds up to [N]. *)
Definition tracked (N : nat) (k : continuation) : Prop :=
  forall n s c n' s' c',
    n + String.length s = N -> k n s c = Some (n', s', c') ->
    n' + String.length s' = N.

Definition tracking (body : continuation -> continuation) : Prop :=
  forall N k, tracked N k -> tracked N (body k).

(** ** The language of a pattern

    The strings a pattern accepts, read off its syntax: the usual
    semantics of regular expressions, with the character comparison of
    the matcher.  A backreference accepts nothing here, what it matches
    depends on the captures. *)
Inductive accepts (i : bool) : regex -> string -> Prop :=
| acc_empty : accepts i REmpty EmptyString
| acc_atom (a : atom) (ch : ascii) :
    atom_matches i a ch = true -> accepts i (RAtom a) (String ch EmptyString)
| acc_seq (r1 r2 : regex) (w1 w2 : string) :
    accepts i r1 w1 -> accepts i r2 w2 -> accepts i (RSeq r1 r2) (w1 +:+ w2)
| acc_alt_l (r1 r2 : regex) (w : string) :
    accepts i r1 w -> accepts i (RAlt r1 r2) w
| acc_alt_r (r1 r2 : regex) (w : string) :
    accepts i r2 w -> accepts i (RAlt r1 r2) w
| acc_star_nil (g : bool) (r : regex) : accepts i (RStar g r) EmptyString
| acc_star_cons (g : bool) (r : regex) (w1 w2 : string) :
    accepts i r w1 -> accepts i (RStar g r) w2 -> accepts i (RStar g r) (w1 +:+ w2)
| acc_group (j : nat) (r : regex) (w : string) :
    accepts i r w -> accepts i (RGroup j r) w.

Fixpoint no_backref (r : regex) : bool :=
  match r with
  | REmpty | RAtom _ => true
  | RSeq r1 r2 | RAlt r1 r2 => no_backref r1 && no_backref r2
  | RStar _ r' | RGroup _ r' => no_backref r'
  | RBackref _ => false
  end.

(** A RegExp object. *)
Record RegExp : Type := mkRegExp {
  source : regex;
  global : bool;
  ignoreCase : bool;
  lastIndex : nat
}.

Definition set_lastIndex (R : RegExp) (i : nat) : RegExp :=
  {| source := source R; global := global R;
     ignoreCase := ignoreCase R; lastIndex := i |}.

(** A regular-expression literal evaluates to a new object whose
    [lastIndex] is 0. *)
Definition literal (r : regex) (g i : bool) : RegExp :=
  {| source := r; global := g; ignoreCase := i; lastIndex := 0 |}.

Record MatchResult : Type := mkMatch {
  m_index : nat;
  m_length : nat;
  m_captures : captures
}.

(** RegExpBuiltinExec: the search starts at [lastIndex] when the object
    is global and at 0 otherwise; a global object has its [lastIndex]
    set to the end of the match, or to 0 when there is none. *)
Definition RegExpBuiltinExec (R : RegExp) (S : string) : option MatchResult * RegExp :=
  let start := if global R then lastIndex R else 0 in
  if String.length S <? start then
    (None, if global R then set_lastIndex R 0 else R)
  else
    match search (source R) (ignoreCase R) (string_drop start S) with
    | None => (None, if global R then set_lastIndex R 0 else R)
    | Some (i, n, c) =>
        (Some (mkMatch (start + i) n c),
         if global R then set_lastIndex R (start + i + n) else R)
    end.

(** [R.test(S)] *)
Definition RegExp_test (R : RegExp) (S : string) : bool * RegExp :=
  match RegExpBuiltinExec R S with
  | (Some _, R') => (true, R')
  | (None, R') => (false, R')
  end.

(** [test] on an object that is not shared: a literal, whose [lastIndex]
    is 0 and which is dropped afterwards. *)
Definition test_literal (r : regex) (i : bool) (S : string) : bool :=
  match search r i S with
  | Some _ => true
  | None => false
  end.

Fixpoint count_groups (r : regex) : nat :=
  match r with
  | REmpty | RAtom _ | RBackref _ => 0
  | RSeq r1 r2 | RAlt r1 r2 => count_groups r1 + count_groups r2
  | RStar _ r' => count_groups r'
  | RGroup _ r' => S (count_groups r')
  end.

Definition digit_value (c : ascii) : option nat :=
  if between 49 57 (code c) then Some (code c - 48) else None.

(** GetSubstitution for the replacement templates: [$$], [$&] and the
    one-digit group references [$1]..[$9]; a reference to a group the
    pattern does not have is copied as it stands, and the text of a
    group that did not take part in the match is empty.  The templates
    of the sources use no other [$] form. *)
Fixpoint GetSubstitution (matched : string) (c : captures) (ngroups : nat)
    (template : string) : string :=
  match template with
  | EmptyString => EmptyString
  | String ch t =>
      if Ascii.eqb ch "$" then
        match t with
        | EmptyString => String ch EmptyString
        | String d rest =>
            if Ascii.eqb d "$" then String "$" (GetSubstitution matched c ngroups rest)
            else if Ascii.eqb d "&" then matched +:+ GetSubstitution matched c ngroups rest
            else
              match digit_value d with
              | Some i =>
                  if i <=? ngroups then
                    match get_capture i c with
                    | Some x => x
                    | None => EmptyString
                    end +:+ GetSubstitution matched c ngroups rest
                  else String ch (GetSubstitution matched c ngroups t)
              | None => String ch (GetSubstitution matched c ngroups t)
              end
        end
      else String ch (GetSubstitution matched c ngroups t)
  end.

(** The loop of RegExp.prototype[Symbol.replace] for a global pattern:
    every match found from left to right, each search resuming where the
    last match ended (one code unit further after an empty match). *)
Fixpoint replace_all (fuel : nat) (r : regex) (i : bool) (template : string)
    (s : string) : string :=
  match fuel with
  | O => s
  | S fuel' =>
      match search r i s with
      | None => s
      | Some (skip, n, c) =>
          let matched := substring skip n s in
          let after := string_drop (skip + n) s in
          substring 0 skip s
          +:+ GetSubstitution matched c (count_groups r) template
          +:+ (if n =? 0 then
                 match after with
                 | EmptyString => EmptyString
                 | String ch after' => String ch (replace_all fuel' r i template after')
                 end
               else replace_all fuel' r i template after)
      end
  end.

(** [S.replace(/r/g, template)] and [S.replace(/r/gi, template)] with a
    pattern literal. *)
Definition String_replace (r : regex) (i : bool) (template : string) (S : string) : string :=
  replace_all (Datatypes.S (String.length S)) r i template S.

(** ** Arrays *)

(** [a.sort(cmp)]: the sort is stable; an element moves in front of
    those it does not compare greater than. *)
Fixpoint sort_insert {A : Type} (cmp : A -> A -> Z) (x : A) (l : list A) : list A :=
  match l with
  | [] => [x]
  | y :: l' => if (cmp x y <=? 0)%Z then x :: l else y :: sort_insert cmp x l'
  end.

Definition Array_sort {A : Type} (cmp : A -> A -> Z) (l : list A) : list A :=
  foldr (sort_insert cmp) [] l.

(** [a[i]] for a number [i] that is an integer: [undefined] outside the
    array. *)
Definition Array_get {A : Type} (l : list A) (i : Z) : option A :=
  if (0 <=? i)%Z then l !! Z.to_nat i else None.

(** [a[i] = v] on an array of strings.  Inside the array the element is
    replaced; past its end the array grows, the elements in between
    being holes; a negative [i], or one from 2^32 - 1 on, names an
    ordinary property and leaves the elements alone.  A hole is [None]. *)
Definition Array_set (l : list (option string)) (i : Z) (v : string)
    : list (option string) :=
  if ((0 <=? i) && (i <? 4294967295))%Z then
    if (i <? Z.of_nat (length l))%Z then <[Z.to_nat i := Some v]> l
    else l ++ replicate (Z.to_nat i - length l) None ++ [Some v]
  else l.

(** [join] writes a hole as the empty string. *)
Definition join_holes (sep : string) (l : list (option string)) : string :=
  join sep (map (fun o => match o with Some x => x | None => EmptyString end) l).

(** [a.slice(start, end)]: a negative bound counts from the end. *)
Definition Array_slice {A : Type} (l : list A) (start stop : Z) : list A :=
  let len := Z.of_nat (length l) in
  let k := if (start <? 0)%Z then Z.max (len + start) 0 else Z.min start len in
  let final := if (stop <? 0)%Z then Z.max (len + stop) 0 else Z.min stop len in
  take (Z.to_nat (final - k)) (drop (Z.to_nat k) l).

(** A template literal writes [undefined] as the word. *)
Definition show_undefined (o : option string) : string :=
  match o with
  | Some x => x
  | None => "undefined"
  end.

(** ** JSON values *)

#[local] Set Warnings "-register-all".

Inductive json : Type :=
| JNull
| JBool (b : bool)
| JNum (z : Z)
| JStr (s : string)
| JArr (l : list json)
| JObj (fields : list (string * json)).

(** Truthiness of a value that may be [undefined]. *)
Definition truthy (v : option json) : bool :=
  match v with
  | None | Some JNull => false
  | Some (JBool b) => b
  | Some (JNum z) => negb (z =? 0)%Z
  | Some (JStr s) => negb (String.eqb s EmptyString)
  | Some (JArr _) | Some (JObj _) => true
  end.

(** When a key occurs twice in a JSON text the last occurrence wins. *)
Fixpoint field (name : string) (fields : list (string * json)) : option json :=
  match fields with
  | [] => None
  | (k, v) :: rest =>
      match field name rest with
      | Some w => Some w
      | None => if String.eqb k name then Some v else None
      end
  end.

(** ** Exceptions *)

Inductive error : Type :=
| TypeError          (* a property read on undefined or null *)
| SyntaxError        (* JSON.parse on text that is not JSON *)
| CallError          (* a rejected promise of an external service *)
| IllegalArgument    (* TextDocument.lineAt outside the document *)
| ReferenceError.    (* an identifier that has no binding *)

(** The outcome of code that may throw. *)
Inductive result (A : Type) : Type :=
| Ok (a : A)
| Throw (e : error).

Arguments Ok {A} a.
Arguments Throw {A} e.

Definition bind {A B : Type} (x : result A) (f : A -> result B) : result B :=
  match x with
  | Ok a => f a
  | Throw e => Throw e
  end.

(** [try { body } catch (error) { handler }] *)
Definition try_catch {A : Type} (body : result A) (handler : error -> result A) : result A :=
  match body with
  | Ok a => Ok a
  | Throw e => handler e
  end.

(** [v.name] for a parsed JSON value [v] and a name that no prototype
    defines: reading a property of [null] throws, an object gives its
    field, every other value gives [undefined]. *)
Definition get_property (v : json) (name : string) : result (option json) :=
  match v with
  | JNull => Throw TypeError
  | JObj fields => Ok (field name fields)
  | _ => Ok None
  end.

(** The properties every object literal inherits from Object.prototype. *)
Definition Object_prototype : list string :=
  [ "constructor"; "__proto__"; "hasOwnProperty"; "isPrototypeOf";
    "propertyIsEnumerable"; "toLocaleString"; "toString"; "valueOf";
    "__defineGetter__"; "__defineSetter__"; "__lookupGetter__";
    "__lookupSetter__" ].

(** The value of [o[name]] for an object literal [o] with the given own
    properties: an own property, or else what Object.prototype has
    under that name (a function or an object), or else [undefined]. *)
Inductive looked_up (A : Type) : Type :=
| Own (a : A)
| Inherited (name : string).

Arguments Own {A} a.
Arguments Inherited {A} name.

Definition literal_get {A : Type} (own : gmap string A) (name : string)
    : option (looked_up A) :=
  match own !! name with
  | Some v => Some (Own v)
  | None =>
      if bool_decide (name ∈ Object_prototype) then Some (Inherited name) else None
  end.

End JS.

Notation "x <- c1 ;; c2" := (JS.bind c1 (fun x => c2))
  (at level 100, c1 at next level, right associativity).

(** The severity levels of a finding. *)
Inductive Severity : Type := critical | high | medium | low.

(* ================================================================== *)
(** * The editor extension: catalog, scanner, batch fix applier        *)
(* ================================================================== *)

Module Extension.
Import JS.

(** ** The store of RegExp objects

    The patterns of one scan share their RegExp objects across all the
    lines of that scan, so the objects live in a store and a pattern
    holds a reference. *)

Abbreviation heap := (list RegExp).

Definition alloc (R : RegExp) (h : heap) : nat * heap := (length h, h ++ [R]).

(** [ref.test(S)] on the object behind a reference. *)
Definition heap_test (ref : nat) (S : string) (h : heap) : bool * heap :=
  match h !! ref with
  | Some R => let '(b, R') := RegExp_test R S in (b, <[ref := R']> h)
  | None => (false, h)
  end.

(** ** The pattern catalog *)

Record Pattern : Type := mkPattern {
  pat_type : string;
  pat_severity : Severity;
  pat_regex : nat;                 (* reference into the store *)
  pat_description : string;
  pat_fix : string
}.

Definition ws_star : regex := RStar true (RAtom ASpace).
Definition quotes : list ascii := ["'"%char; dquote; "`"%char].
Definition quote : regex := RAtom (ASet false quotes).
Definition not_quote : regex := RAtom (ASet true quotes).

(** [/execute\s*\(\s*Q[^Q]*Q\s*\+/gi], where [Q] stands for the class
    of the three quote characters (single, double, backtick) *)
Definition re_sql : regex :=
  seq [lit "execute"; ws_star; lit "("; ws_star; quote; RStar true not_quote;
       quote; ws_star; lit "+"].

(** [/(password|pwd|pass)\s*=\s*Q[^Q]+Q/gi] *)
Definition re_password : regex :=
  seq [RGroup 1 (RAlt (lit "password") (RAlt (lit "pwd") (lit "pass")));
       ws_star; lit "="; ws_star; quote; RPlus true not_quote; quote].

(** [/eval\s*\(/gi] *)
Definition re_eval : regex := seq [lit "eval"; ws_star; lit "("].

(** [/innerHTML\s*=|document\.write\s*\(/gi] *)
Definition re_xss : regex :=
  RAlt (seq [lit "innerHTML"; ws_star; lit "="])
       (seq [lit "document.write"; ws_star; lit "("]).

(** [/(md5|sha1)\s*\(/gi] *)
Definition re_weak_crypto : regex :=
  seq [RGroup 1 (RAlt (lit "md5") (lit "sha1")); ws_star; lit "("].

(** [/pickle\.loads?\s*\(/gi] *)
Definition re_pickle : regex :=
  seq [lit "pickle.load"; ROpt (lit "s"); ws_star; lit "("].

(** [/os\.system\s*\(|subprocess\.call\s*\(/gi] *)
Definition re_shell : regex :=
  RAlt (seq [lit "os.system"; ws_star; lit "("])
       (seq [lit "subprocess.call"; ws_star; lit "("]).

(** The patterns inside [generateFix]. *)
Definition re_innerHTML : regex := seq [lit "innerHTML"; ws_star; lit "="].
Definition re_md5 : regex := seq [lit "md5"; ws_star; lit "("].
Definition re_sha1 : regex := seq [lit "sha1"; ws_star; lit "("].

(** An entry as the array literal writes it: its regular expression is a
    literal, evaluated when the array is built. *)
Record Entry : Type := mkEntry {
  e_type : string;
  e_severity : Severity;
  e_regex : regex;
  e_description : string;
  e_fix : string
}.

Definition base_entries : list Entry :=
  [ mkEntry "SQL Injection" high re_sql
      "Potential SQL injection vulnerability"
      "Use parameterized queries or prepared statements";
    mkEntry "Hardcoded Password" high re_password
      "Hardcoded password detected"
      "Use environment variables or secure configuration";
    mkEntry "Eval Usage" high re_eval
      "Use of eval() function is dangerous"
      "Use safer alternatives like JSON.parse() or specific parsers";
    mkEntry "XSS Vulnerability" medium re_xss
      "Potential XSS vulnerability"
      "Use textContent or sanitize HTML properly";
    mkEntry "Weak Crypto" medium re_weak_crypto
      "Weak cryptographic algorithm detected"
      "Use stronger algorithms like SHA-256 or bcrypt" ].

Definition python_entries : list Entry :=
  [ mkEntry "Pickle Unsafe" high re_pickle
      "Unsafe pickle usage can lead to code execution"
      "Use safe serialization formats like JSON";
    mkEntry "Shell Command Injection" high re_shell
      "Potential shell command injection"
      "Use parameterized commands or proper escaping" ].

(** Evaluating the object literals in order: every [/.../gi] allocates a
    new RegExp object. *)
Fixpoint instantiate (es : list Entry) (h : heap) : list Pattern * heap :=
  match es with
  | [] => ([], h)
  | e :: es' =>
      let '(ref, h1) := alloc (literal (e_regex e) true true) h in
      let '(ps, h2) := instantiate es' h1 in
      (mkPattern (e_type e) (e_severity e) ref (e_description e) (e_fix e) :: ps, h2)
  end.

Definition getVulnerabilityPatterns (language : string) (h : heap) : list Pattern * heap :=
  let '(patterns, h1) := instantiate base_entries h in
  if String.eqb language "python" then
    let '(more, h2) := instantiate python_entries h1 in
    (patterns ++ more, h2)
  else (patterns, h1).

(** The catalog of a language. *)
Definition entries_for (language : string) : list Entry :=
  if String.eqb language "python" then base_entries ++ python_entries
  else base_entries.

(** The object an entry's literal evaluates to. *)
Definition new_object (e : Entry) : RegExp := literal (e_regex e) true true.

(** A pattern whose reference is moved up by [b] places. *)
Definition shift (b : nat) (p : Pattern) : Pattern :=
  mkPattern (pat_type p) (pat_severity p) (b + pat_regex p)
    (pat_description p) (pat_fix p).

(** ** Findings *)

Record Vulnerability : Type := mkVulnerability {
  v_type : string;
  v_severity : Severity;
  v_line : Z;
  v_description : string;
  fixed_code : option string
}.

(** [generateFix(line, pattern, language)].  The Weak Crypto case calls
    [test] on the pattern's own shared RegExp object.  Its two [return]
    statements are not well formed: the replacement is written as the
    string [crypto.createHash(], the identifier [sha256] and the string
    [).update(], with no separator between them.  Read as the three
    arguments the compiler recovers, the call evaluates [sha256] before
    [replace] is entered; no binding of that name is in scope, so both
    statements throw a ReferenceError. *)
Definition generateFix (line : string) (pattern : Pattern) (language : string)
    (h : heap) : result (string * heap) :=
  if String.eqb (pat_type pattern) "SQL Injection" then
    if String.eqb language "python" then
      Ok (String_replace re_sql true
            ("execute(" +:+ String dquote "SELECT * FROM table WHERE id = ?"
             +:+ String dquote ", (user_input,))") line, h)
    else
      Ok (String_replace re_sql true
            ("execute(" +:+ String dquote "SELECT * FROM table WHERE id = ?"
             +:+ String dquote ", [userInput])") line, h)
  else if String.eqb (pat_type pattern) "Hardcoded Password" then
    Ok (String_replace re_password true
          ("$1 = process.env.PASSWORD || " +:+ String dquote (String dquote EmptyString))
          line, h)
  else if String.eqb (pat_type pattern) "Eval Usage" then
    Ok (String_replace re_eval true "JSON.parse(" line, h)
  else if String.eqb (pat_type pattern) "XSS Vulnerability" then
    Ok (String_replace re_innerHTML true "textContent =" line, h)
  else if String.eqb (pat_type pattern) "Weak Crypto" then
    let '(is_md5, h1) := heap_test (pat_regex pattern) "md5" h in
    if is_md5 then Throw ReferenceError else Throw ReferenceError
  else
    Ok ("// TODO: Fix " +:+ pat_type pattern +:+ " vulnerability" +:+ nl +:+ line, h).

(** ** The scanner: the two nested [forEach] loops of [performScan]

    An exception leaves both loops: the state of a loop is the findings
    and the store so far, or the exception that was thrown. *)

Definition scan_pattern (language line : string) (index : nat)
    (st : result (list Vulnerability * heap)) (pattern : Pattern)
    : result (list Vulnerability * heap) :=
  st <- st ;;
  let '(vulnerabilities, h) := st in
  let '(found, h1) := heap_test (pat_regex pattern) line h in
  if found then
    fixed <- generateFix line pattern language h1 ;;
    Ok (vulnerabilities ++
          [mkVulnerability (pat_type pattern) (pat_severity pattern)
             (Z.of_nat index + 1) (pat_description pattern) (Some (fst fixed))],
        snd fixed)
  else Ok (vulnerabilities, h1).

Fixpoint scan_lines (language : string) (patterns : list Pattern) (index : nat)
    (lines : list string) (st : result (list Vulnerability * heap))
    : result (list Vulnerability * heap) :=
  match lines with
  | [] => st
  | line :: rest =>
      scan_lines language patterns (S index) rest
        (fold_left (scan_pattern language line index) patterns st)
  end.

(** [performScan] up to the point where the findings are complete: the
    findings, and the store it leaves behind; or the exception that
    ended it, in which case nothing is reported and nothing is fixed. *)
Definition performScan (language : string) (lines : list string) (h : heap)
    : result (list Vulnerability * heap) :=
  let '(vulnerabilityPatterns, h1) := getVulnerabilityPatterns language h in
  scan_lines language vulnerabilityPatterns 0 lines (Ok ([], h1)).

(** Where a finding comes from: a line of the text, a pattern of the
    catalog, and the fix that [generateFix] computed for them. *)
Definition produced (language : string) (ps : list Pattern) (lines : list string)
    (first : nat) (v : Vulnerability) : Prop :=
  exists (k : nat) (line : string) (p : Pattern) (h' h'' : heap) (fixed : string),
    lines !! k = Some line /\ In p ps
    /\ generateFix line p language h' = Ok (fixed, h'')
    /\ v = mkVulnerability (pat_type p) (pat_severity p)
             (Z.of_nat (first + k) + 1) (pat_description p) (Some fixed).

(** [scanAndFixVulnerabilities] splits the text of the document. *)
Definition scan (text language : string) (h : heap)
    : result (list Vulnerability * heap) :=
  performScan language (split_nl text) h.

(** What a scan leaves to the one who ran it: the findings, or the
    exception. *)
Definition outcome (r : result (list Vulnerability * heap))
    : result (list Vulnerability) :=
  st <- r ;; Ok (fst st).

(** A state of the scan whose store comes after the objects of [h]. *)
Definition behind (h : heap) (r : result (list Vulnerability * heap))
    : result (list Vulnerability * heap) :=
  st <- r ;; Ok (fst st, h ++ snd st).

(** ** The Eval Usage pattern, read off directly

    What the pattern [/eval\s*\(/gi] accepts at the start of a text,
    as plain functions on the text. *)

(** The continuation that ends a match. *)
Definition final : continuation := fun n s c => Some (n, s, c).

Definition paren : regex := RAtom (AChar "(").

(** White space up to an opening parenthesis: how many code units, and
    what follows. *)
Fixpoint ws_paren (s : string) : option (nat * string) :=
  match s with
  | EmptyString => None
  | String ch s' =>
      if is_space ch then
        match ws_paren s' with
        | Some (k, rest) => Some (S k, rest)
        | None => None
        end
      else if char_eqb true "(" ch then Some (1, s') else None
  end.

(** The length of the match of the pattern at the start of [s]. *)
Definition eval_len (s : string) : option nat :=
  match s with
  | String c1 (String c2 (String c3 (String c4 rest))) =>
      if char_eqb true "e" c1 && char_eqb true "v" c2
         && char_eqb true "a" c3 && char_eqb true "l" c4
      then match ws_paren rest with
           | Some (k, _) => Some (4 + k)
           | None => None
           end
      else None
  | _ => None
  end.

(** No suffix of [t] starts with a match. *)
Definition no_eval (t : string) : Prop := forall k, eval_len (string_drop k t) = None.

(** The replacement text of the rewriting. *)
Definition json_parse : string := "JSON.parse(".

(** ** The batch fix applier *)

(** [vuln.fixed_code && ...]: defined and not the empty string. *)
Definition truthy_string (o : option string) : bool :=
  match o with
  | Some (String _ _) => true
  | _ => false
  end.

(** [editBuilder.replace(new Range(line, 0, line, endCol), text)] on a
    buffer of lines, carried out on the buffer as it stands when the
    edit is issued: the first [endCol] code units of the line give way
    to [text], and the buffer is split into lines again.  This is the
    reading under which the order of the edits matters; for the batch of
    [applyFixes] the result is also what all the edits, applied to the
    original at once, give.  An edit on a line the buffer does not have
    leaves the buffer as it is. *)
Definition replace_range (doc : list string) (line endCol : nat) (text : string)
    : list string :=
  match doc !! line with
  | Some d =>
      take line doc ++ split_nl (text +:+ string_drop endCol d) ++ drop (S line) doc
  | None => doc
  end.

(** The body of [sortedVulns.forEach].  Reading [originalLine.length]
    throws when [lines[lineIndex]] is undefined. *)
Definition apply_fix (lines : list string) (doc : result (list string))
    (vuln : Vulnerability) : result (list string) :=
  doc <- doc ;;
  let lineIndex := (v_line vuln - 1)%Z in
  if truthy_string (fixed_code vuln) && (lineIndex <? Z.of_nat (length lines))%Z then
    match Array_get lines lineIndex, fixed_code vuln with
    | Some originalLine, Some fixedLine =>
        Ok (replace_range doc (Z.to_nat lineIndex) (String.length originalLine) fixedLine)
    | _, _ => Throw TypeError
    end
  else Ok doc.

(** The comparator of the sort: [(a, b) => b.line - a.line]. *)
Definition by_line_descending (a b : Vulnerability) : Z := (v_line b - v_line a)%Z.

(** [applyFixes]: the buffer of the editor holds, at this point, the
    lines that were scanned.  The result is the buffer after the edit
    and the findings array, which [sort] reorders in place.  [autoFix]
    is the configuration flag and [choice] the answer to the dialog. *)
Definition applyFixes (autoFix : bool) (choice : option string)
    (vulnerabilities : list Vulnerability) (lines : list string)
    : result (list string * list Vulnerability) :=
  if negb autoFix
     && negb (match choice with Some c => String.eqb c "Apply All" | None => false end)
  then Ok (lines, vulnerabilities)
  else
    let sortedVulns := Array_sort by_line_descending vulnerabilities in
    doc <- fold_left (apply_fix lines) sortedVulns (Ok lines) ;;
    Ok (doc, sortedVulns).

(** What the batch is meant to achieve, line by line: every line of the
    original keeps its place, and a line that a finding targets holds the
    text of that finding's fix. *)
Definition slot_fix (vulns : list Vulnerability) (index : nat) : option string :=
  match List.find (fun v => (v_line v =? Z.of_nat index + 1)%Z) vulns with
  | Some v => fixed_code v
  | None => None
  end.

Definition fixed_slots (vulns : list Vulnerability) (lines : list string) : list string :=
  imap (fun index original =>
          match slot_fix vulns index with
          | Some fixedLine => fixedLine
          | None => original
          end) lines.

(** One fix put into its slot, the lines taken as slots that a fix may
    fill with more than one line. *)
Definition insert_fix (slots : list string) (v : Vulnerability) : list string :=
  match fixed_code v with
  | Some fixedLine => <[Z.to_nat (v_line v - 1) := fixedLine]> slots
  | None => slots
  end.

(** The orders on findings: by line, descending, and strictly so. *)
Definition not_below (a b : Vulnerability) : Prop := (v_line b <= v_line a)%Z.
Definition above (a b : Vulnerability) : Prop := (v_line b < v_line a)%Z.

(** A finding that [applyFixes] can apply to the given lines. *)
Definition applicable (lines : list string) (v : Vulnerability) : Prop :=
  (1 <= v_line v <= Z.of_nat (length lines))%Z /\ truthy_string (fixed_code v) = true.

End Extension.

(* ================================================================== *)
(** * The completion service                                           *)
(* ================================================================== *)

Module ZAI.
Import JS.

(** What the completion service did with a request: the promise was
    rejected, or it resolved to a completion whose first choice has the
    given content (none when a link of the optional chain is missing). *)
Inductive Completion : Type :=
| Rejected
| Completed (content : option string).

(** [JSON.parse(completion.choices[0]?.message?.content || fallback)],
    for a parser [JSON_parse]; an empty content is falsy. *)
Definition parse_reply (JSON_parse : string -> result json)
    (reply : Completion) (fallback : string) : result json :=
  match reply with
  | Rejected => Throw CallError
  | Completed content =>
      JSON_parse (match content with
                  | Some (String c s) => String c s
                  | _ => fallback
                  end)
  end.

End ZAI.

(* ================================================================== *)
(** * The fix route: AI fix, validation, rule-based fallback           *)
(* ================================================================== *)

Module FixRoute.
Import JS.

(** The [vulnerability] field of a fix request. *)
Record Finding : Type := mkFinding {
  f_id : string;
  f_type : string;
  f_severity : string;
  f_line : Z;
  f_description : string;
  f_suggestedFix : option string
}.

(** The body of a request, as the interface [FixRequest] declares it. *)
Record FixRequest : Type := mkFixRequest {
  r_vulnerability : Finding;
  r_code : string;
  r_fileName : string;
  r_language : string
}.

Record Change : Type := mkChange {
  ch_line : Z;
  ch_original : option string;
  ch_fixed : string;
  ch_reason : string
}.

(** A fix response.  On the AI path the fields are copied from the
    parsed reply, whatever JSON values they are; the rule-based path
    fills them itself. *)
Inductive FixResponse : Type :=
| AIResponse (success : bool)
    (fixedCode explanation confidence changes : option json)
| RuleResponse (success : bool) (fixedCode explanation : string)
    (confidence : Z) (changes : list Change).

Definition success (r : FixResponse) : bool :=
  match r with
  | AIResponse b _ _ _ _ => b
  | RuleResponse b _ _ _ _ => b
  end.

(** The text a response proposes, when it is a string. *)
Definition proposed_code (r : FixResponse) : option string :=
  match r with
  | AIResponse _ (Some (JStr s)) _ _ _ => Some s
  | AIResponse _ _ _ _ _ => None
  | RuleResponse _ s _ _ _ => Some s
  end.

Definition ws_star : regex := RStar true (RAtom ASpace).
Definition ws_plus : regex := RPlus true (RAtom ASpace).
Definition quotes : list ascii := ["'"%char; dquote; "`"%char].
Definition quote : regex := RAtom (ASet false quotes).
Definition not_quote : regex := RAtom (ASet true quotes).
Definition any_star : regex := RStar true (RAtom ADot).

(** The table [vulnerabilityPatterns] of [validateFix]; none of its
    patterns has a flag.  With [Q] the class of the three quote
    characters they are [/eval\s*\(/], [/innerHTML\s*=/],
    [/password\s*=\s*Q[^Q]+Q/] and
    [/(SELECT|INSERT|UPDATE|DELETE).*\+.*Q/]. *)
Definition vp_eval : regex := seq [lit "eval"; ws_star; lit "("].
Definition vp_innerHTML : regex := seq [lit "innerHTML"; ws_star; lit "="].
Definition vp_password : regex :=
  seq [lit "password"; ws_star; lit "="; ws_star; quote; RPlus true not_quote; quote].
Definition vp_sqlInjection : regex :=
  seq [RGroup 1 (RAlt (lit "SELECT") (RAlt (lit "INSERT")
                   (RAlt (lit "UPDATE") (lit "DELETE"))));
       any_star; lit "+"; any_star; quote].

Definition vulnerabilityPatterns : list (string * regex) :=
  [ ("eval", vp_eval); ("innerHTML", vp_innerHTML);
    ("password", vp_password); ("sqlInjection", vp_sqlInjection) ].

Definition backticks : string := "```".

(** [validateFix(fixedCode, originalCode, vulnerability)].  The first
    test short-circuits on a falsy [fixedCode]; after it, [trim] and
    [split] are methods of strings only, so every [fixedCode] that is
    not a string makes the function throw. *)
Definition validateFix (fixedCode : option json) (originalCode : string)
    : result (bool * list string) :=
  match fixedCode with
  | Some (JStr fixed) =>
      let issues1 :=
        if String.eqb fixed EmptyString || String.eqb (trim fixed) EmptyString
        then ["No fixed code provided"] else [] in
      let originalLines := split_nl originalCode in
      let fixedLines := split_nl fixed in
      let issues2 :=
        if (Z.of_nat (length originalLines)
            <? 2 * Z.abs (Z.of_nat (length originalLines) - Z.of_nat (length fixedLines)))%Z
        then ["Fix changes code structure too dramatically"] else [] in
      let issues3 :=
        flat_map (fun '(patternName, pattern) =>
                    if test_literal pattern false fixed
                    then ["Fix still contains vulnerable pattern: " +:+ patternName]
                    else [])
                 vulnerabilityPatterns in
      let issues4 :=
        if includes fixed backticks || includes fixed backticks
        then ["Fix contains markdown formatting"] else [] in
      let issues := issues1 ++ issues2 ++ issues3 ++ issues4 in
      Ok (length issues =? 0, issues)
  | _ => Throw TypeError
  end.

(** The patterns of [generateRuleBasedFix], all global; the third is
    case-insensitive too.  [/eval\s*\(\s*([^)]+)\s*\)/g],
    [/\.innerHTML\s*=/g], [/(Q)[^Q]*password[^Q]*\1/gi],
    [/(SELECT\s+.*?\s+FROM\s+\w+\s+WHERE\s+\w+)\s*\+\s*Q([^Q]+)Q/g]. *)
Definition rb_eval : regex :=
  seq [lit "eval"; ws_star; lit "("; ws_star;
       RGroup 1 (RPlus true (RAtom (ASet true [")"%char])));
       ws_star; lit ")"].
Definition rb_innerHTML : regex := seq [lit ".innerHTML"; ws_star; lit "="].
Definition rb_password : regex :=
  seq [RGroup 1 quote; RStar true not_quote; lit "password";
       RStar true not_quote; RBackref 1].
Definition rb_sql : regex :=
  seq [RGroup 1 (seq [lit "SELECT"; ws_plus; RStar false (RAtom ADot); ws_plus;
                      lit "FROM"; ws_plus; RPlus true (RAtom AWord); ws_plus;
                      lit "WHERE"; ws_plus; RPlus true (RAtom AWord)]);
       ws_star; lit "+"; ws_star; quote; RGroup 2 (RPlus true not_quote); quote].

(** Every named case of the [switch] starts by calling
    [targetLine.includes], which throws when [targetLine] is undefined. *)
Definition receiver (targetLine : option string) : result string :=
  match targetLine with
  | Some t => Ok t
  | None => Throw TypeError
  end.

Definition type_in (t a b : string) : bool := String.eqb t a || String.eqb t b.

(** The [switch] of [generateRuleBasedFix]: the fixed line, the
    explanation and the confidence.  A case whose test fails leaves the
    three variables at their initial values. *)
Definition rule_switch (vulnerability : Finding) (targetLine : option string)
    : result (string * string * Z) :=
  let type := f_type vulnerability in
  if type_in type "Code Injection" "javascript:S4784" then
    t <- receiver targetLine ;;
    Ok (if includes t "eval(" then
          (String_replace rb_eval false "JSON.parse($1)" t,
           "Replaced eval() with JSON.parse() to prevent code injection", 85%Z)
        else (t, EmptyString, 70%Z))
  else if type_in type "Cross-Site Scripting (XSS)" "javascript:S5443" then
    t <- receiver targetLine ;;
    Ok (if includes t "innerHTML" then
          (String_replace rb_innerHTML false ".textContent =" t,
           "Replaced innerHTML with textContent to prevent XSS", 90%Z)
        else (t, EmptyString, 70%Z))
  else if type_in type "Hardcoded Credentials" "javascript:S2068" then
    t <- receiver targetLine ;;
    Ok (if includes t "password" && includes t "=" then
          (String_replace rb_password true "process.env.PASSWORD" t,
           "Replaced hardcoded password with environment variable", 80%Z)
        else (t, EmptyString, 70%Z))
  else if type_in type "SQL Injection" "javascript:S2077" then
    t <- receiver targetLine ;;
    Ok (if includes t "SELECT" && includes t "+" then
          (String_replace rb_sql false "$1 = ?" t,
           "Replaced string concatenation with parameterized query", 85%Z)
        else (t, EmptyString, 70%Z))
  else
    Ok ("// TODO: Fix security issue - " +:+ f_description vulnerability
          +:+ nl +:+ show_undefined targetLine,
        "Added security comment for manual review and fix", 50%Z).

(** [generateRuleBasedFix(vulnerability, code, language)]: no test
    stands between the switch and [success: true]. *)
Definition generateRuleBasedFix (vulnerability : Finding) (code language : string)
    : result FixResponse :=
  let lines := split_nl code in
  let targetLine := Array_get lines (f_line vulnerability - 1) in
  fixed <- rule_switch vulnerability targetLine ;;
  let '(fixedLine, explanation, confidence) := fixed in
  let lines' := Array_set (map Some lines) (f_line vulnerability - 1) fixedLine in
  let fixedCode := join_holes nl lines' in
  Ok (RuleResponse true fixedCode explanation confidence
        [mkChange (f_line vulnerability) targetLine fixedLine explanation]).

(** [getCodeContext(code, lineNumber, contextLines = 3)] *)
Definition getCodeContext (code : string) (lineNumber : Z) : string :=
  let contextLines := 3%Z in
  let lines := split_nl code in
  let start := Z.max 0 (lineNumber - contextLines - 1) in
  let stop := Z.min (Z.of_nat (length lines)) (lineNumber + contextLines) in
  join nl (Array_slice lines start stop).

Section WithParser.

(** [JSON.parse], a function of the text. *)
Variable JSON_parse : string -> result json.

(** [generateAIFix]: the reply is validated, and whatever is thrown on
    the way hands over to the rule-based fix. *)
Definition generateAIFix (reply : ZAI.Completion) (vulnerability : Finding)
    (code fileName language : string) : result FixResponse :=
  try_catch
    (aiResponse <- ZAI.parse_reply JSON_parse reply "{}" ;;
     fixedCode <- get_property aiResponse "fixedCode" ;;
     validationResult <- validateFix fixedCode code ;;
     explanation <- get_property aiResponse "explanation" ;;
     confidence <- get_property aiResponse "confidence" ;;
     changes <- get_property aiResponse "changes" ;;
     Ok (AIResponse (fst validationResult) fixedCode explanation confidence changes))
    (fun _ => generateRuleBasedFix vulnerability code language).

(** The answer of the route: the fix response, or status 500 with
    [success: false]. *)
Inductive HttpResponse : Type :=
| Json (r : FixResponse)
| Status500.

(** [POST].  [body] is what [await request.json()] gives: it throws
    when the body of the request is not JSON.  A body that is JSON is
    taken to be of the type the route declares for it, [FixRequest], or
    to be [null] (here [None]), which cannot be destructured.  [client]
    is the outcome of [await ZAI.create()].  Whatever is thrown in the
    try block is answered with status 500. *)
Definition POST (body : result (option FixRequest)) (client : result unit)
    (reply : ZAI.Completion) : HttpResponse :=
  match
    (body <- body ;;
     request <- match body with
                | Some request => Ok request
                | None => Throw TypeError
                end ;;
     zai <- client ;;
     generateAIFix reply (r_vulnerability request) (r_code request)
       (r_fileName request) (r_language request))
  with
  | Ok fixResult => Json fixResult
  | Throw _ => Status500
  end.

Definition reports_success (r : HttpResponse) : bool :=
  match r with
  | Json fixResult => success fixResult
  | Status500 => false
  end.

End WithParser.

End FixRoute.

(* ================================================================== *)
(** * The analysis route: enrichment of findings                       *)
(* ================================================================== *)

Module AnalyzeRoute.
Import JS.

(** An element of the [vulnerabilities] field of an analysis request. *)
Record Issue : Type := mkIssue {
  i_key : string;
  i_rule : string;
  i_severity : string;
  i_line : Z;
  i_message : string;
  i_type : string
}.

Record EnhancedVulnerability : Type := mkEnhanced {
  ev_id : string;
  ev_severity : looked_up Severity;
  ev_type : string;
  ev_file : string;
  ev_line : Z;
  ev_description : string;
  ev_confidence : json;
  ev_suggestedFix : option json;
  ev_aiAnalysis : option json
}.

Definition mapping : gmap string Severity :=
  {[ "BLOCKER" := critical; "CRITICAL" := critical; "MAJOR" := high;
     "MINOR" := medium; "INFO" := low ]}.

(** [mapSeverity]: [mapping[sonarSeverity] || 'medium'].  The own
    values are non-empty strings and an inherited one is a function or
    an object, all truthy. *)
Definition mapSeverity (sonarSeverity : string) : looked_up Severity :=
  match literal_get mapping sonarSeverity with
  | Some v => v
  | None => Own medium
  end.

(** [getCodeContext(code, lineNumber, contextLines = 3)] *)
Definition getCodeContext (code : string) (lineNumber : Z) : string :=
  let contextLines := 3%Z in
  let lines := split_nl code in
  let start := Z.max 0 (lineNumber - contextLines - 1) in
  let stop := Z.min (Z.of_nat (length lines)) (lineNumber + contextLines) in
  join nl (Array_slice lines start stop).

(** The finding returned from the [catch] block. *)
Definition fallback (vulnerability : Issue) (fileName : string) : EnhancedVulnerability :=
  mkEnhanced (i_key vulnerability) (mapSeverity (i_severity vulnerability))
    (i_type vulnerability) fileName (i_line vulnerability) (i_message vulnerability)
    (JNum 70) None None.

Section WithParser.

Variable JSON_parse : string -> result json.

(** [enhanceVulnerabilityWithAI]: the reply of the completion service is
    an input.  The object literal of the [try] block reads
    [aiResponse.confidence] first, which throws on [null]. *)
Definition enhanceVulnerabilityWithAI (reply : ZAI.Completion)
    (vulnerability : Issue) (code fileName language : string)
    : result EnhancedVulnerability :=
  try_catch
    (aiResponse <- ZAI.parse_reply JSON_parse reply "{}" ;;
     confidence <- get_property aiResponse "confidence" ;;
     suggestedFix <- get_property aiResponse "suggestedFix" ;;
     explanation <- get_property aiResponse "explanation" ;;
     Ok (mkEnhanced (i_key vulnerability) (mapSeverity (i_severity vulnerability))
           (i_type vulnerability) fileName (i_line vulnerability)
           (i_message vulnerability)
           (match confidence with
            | Some v => if truthy confidence then v else JNum 75
            | None => JNum 75
            end)
           suggestedFix explanation))
    (fun _ => Ok (fallback vulnerability fileName)).

(** The loop of [POST]: every finding is enhanced in turn, each with the
    reply to its own request; a rejection would leave the loop. *)
Fixpoint enhance_all (batch : list (Issue * ZAI.Completion))
    (code fileName language : string) : result (list EnhancedVulnerability) :=
  match batch with
  | [] => Ok []
  | (vuln, reply) :: rest =>
      enhanced <- enhanceVulnerabilityWithAI reply vuln code fileName language ;;
      others <- enhance_all rest code fileName language ;;
      Ok (enhanced :: others)
  end.

(** The answer of the route, from its loop on: the body of the request
    has been read and destructured and the client created (a failure of
    one of these is answered with status 500 by the same [catch]).
    [performAISecurityAnalysis] wraps its whole body in a [try] whose
    [catch] returns the empty array, so it always resolves; the list it
    resolves to is [aiDetected]. *)
Inductive HttpResponse : Type :=
| Success (vulnerabilities : list EnhancedVulnerability)
| Status500.

Definition POST (batch : list (Issue * ZAI.Completion))
    (aiDetected : list EnhancedVulnerability) (code fileName language : string)
    : HttpResponse :=
  match enhance_all batch code fileName language with
  | Ok enhancedVulnerabilities => Success (enhancedVulnerabilities ++ aiDetected)
  | Throw _ => Status500
  end.

End WithParser.

End AnalyzeRoute.

(* ================================================================== *)
(** * The AI service of the IDE integration                            *)
(* ================================================================== *)

Module AIService.
Import JS.

Record SonarIssue : Type := mkSonarIssue {
  key : string;
  rule : string;
  severity : string;
  component : string;
  line : Z;
  message : string;
  issue_type : string;
  debt : string;
  status : string
}.

(** A text document: its lines, its file name, its language. *)
Record TextDocument : Type := mkDocument {
  doc_lines : list string;
  fileName : string;
  languageId : string
}.

Definition lineCount (document : TextDocument) : Z :=
  Z.of_nat (length (doc_lines document)).

(** [document.lineAt(i).text] throws outside the document. *)
Definition lineAt (document : TextDocument) (i : Z) : result string :=
  match Array_get (doc_lines document) i with
  | Some l => Ok l
  | None => Throw IllegalArgument
  end.

Record Vulnerability : Type := mkVulnerability {
  v_id : string;
  v_severity : looked_up Severity;
  v_type : string;
  v_file : string;
  v_line : Z;
  v_description : string;
  v_confidence : Z;
  v_suggestedFix : option (looked_up string);
  v_aiFix : option (looked_up string)
}.

(** [calculateConfidence(code, issue)] *)
Definition calculateConfidence (code : string) (issue : SonarIssue) : Z :=
  let confidence := 70%Z in
  let confidence :=
    if String.eqb (severity issue) "BLOCKER" || String.eqb (severity issue) "CRITICAL"
    then (confidence + 15)%Z
    else if String.eqb (severity issue) "MAJOR" then (confidence + 10)%Z
    else confidence in
  let confidence :=
    if includes (rule issue) "S4784" || includes (rule issue) "S5443"
    then (confidence + 10)%Z else confidence in
  let confidence :=
    if 100 <? String.length code then (confidence - 5)%Z else confidence in
  Z.min confidence 95.

Definition fixes : gmap string string :=
  {[ "javascript:S4784" :=
       "Replace eval() with safer alternatives like JSON.parse() or specific function calls";
     "javascript:S5443" :=
       "Use textContent instead of innerHTML, or sanitize the content before insertion";
     "javascript:S2068" :=
       "Move credentials to environment variables or secure configuration files";
     "javascript:S2077" :=
       "Use parameterized queries or prepared statements instead of string concatenation" ]}.

Definition generateSuggestedFix (issue : SonarIssue) : looked_up string :=
  match literal_get fixes (rule issue) with
  | Some v => v
  | None => Own "Review and implement security best practices for this issue"
  end.

Definition explanations : gmap string string :=
  {[ "javascript:S4784" :=
       "Code injection vulnerabilities allow attackers to execute arbitrary code";
     "javascript:S5443" :=
       "XSS attacks can steal user data and session information";
     "javascript:S2068" :=
       "Hardcoded credentials can be easily extracted from source code";
     "javascript:S2077" :=
       "SQL injection can lead to data breaches and database compromise" ]}.

Definition generateExplanation (issue : SonarIssue) : looked_up string :=
  match literal_get explanations (rule issue) with
  | Some v => v
  | None => Own "This security issue should be addressed to protect your application"
  end.

(** [analyzeWithAI]: the analysis is computed locally; nothing in its
    [try] block throws for an issue whose fields are strings. *)
Definition analyzeWithAI (code context : string) (issue : SonarIssue) (language : string)
    : result (Z * looked_up string * looked_up string) :=
  try_catch
    (Ok (calculateConfidence code issue, generateSuggestedFix issue,
         generateExplanation issue))
    (fun _ => Ok (50%Z, Own "Review and fix the identified security issue",
                  Own "AI analysis failed. Manual review required.")).

Definition mapping : gmap string Severity :=
  {[ "BLOCKER" := critical; "CRITICAL" := critical; "MAJOR" := high;
     "MINOR" := medium; "INFO" := low ]}.

(** [mapSeverity]: [mapping[sonarSeverity] || 'medium'] *)
Definition mapSeverity (sonarSeverity : string) : looked_up Severity :=
  match literal_get mapping sonarSeverity with
  | Some v => v
  | None => Own medium
  end.

(** The loop of [getCodeContext]: [for (i = start; i < end; i++)]. *)
Fixpoint collect_lines (document : TextDocument) (i : Z) (count : nat)
    : result (list string) :=
  match count with
  | O => Ok []
  | S count' =>
      l <- lineAt document i ;;
      ls <- collect_lines document (i + 1) count' ;;
      Ok (l :: ls)
  end.

(** [getCodeContext(document, lineNumber)] *)
Definition getCodeContext (document : TextDocument) (lineNumber : Z) : result string :=
  let start := Z.max 0 (lineNumber - 3) in
  let stop := Z.min (lineCount document) (lineNumber + 3) in
  lines <- collect_lines document start (Z.to_nat (stop - start)) ;;
  Ok (join nl lines).

(** [enhanceWithAI]: the two reads of the document come before the
    [try]. *)
Definition enhanceWithAI (document : TextDocument) (sonarIssue : SonarIssue)
    : result Vulnerability :=
  lineContent <- lineAt document (line sonarIssue - 1) ;;
  context <- getCodeContext document (line sonarIssue) ;;
  try_catch
    (aiAnalysis <- analyzeWithAI lineContent context sonarIssue (languageId document) ;;
     let '(confidence, suggestedFix, explanation) := aiAnalysis in
     Ok (mkVulnerability (key sonarIssue) (mapSeverity (severity sonarIssue))
           (issue_type sonarIssue) (fileName document) (line sonarIssue)
           (message sonarIssue) confidence (Some suggestedFix) (Some explanation)))
    (fun _ =>
       Ok (mkVulnerability (key sonarIssue) (mapSeverity (severity sonarIssue))
             (issue_type sonarIssue) (fileName document) (line sonarIssue)
             (message sonarIssue) 70 None None)).

End AIService.

(* ================================================================== *)
(** * The statements of the specification, in its own words           *)
(* ================================================================== *)

Module Claims.
Import JS.

(** The confidence formula as the specification words it: baseline 70,
    plus 15 for a well-known entry, minus 5 for a line longer than 100,
    capped at 95. *)
Definition claimed_confidence (wellKnown : bool) (lineLength : nat) : Z :=
  Z.min 95 (70 + (if wellKnown then 15 else 0)
               - (if 100 <? lineLength then 5 else 0)).

(** An entry is well known when its rule is one of the two the code
    singles out. *)
Definition well_known (issue : AIService.SonarIssue) : bool :=
  includes (AIService.rule issue) "S4784" || includes (AIService.rule issue) "S5443".

(** The bonus the code gives for the severity of the issue. *)
Definition severity_bonus (sonarSeverity : string) : Z :=
  if String.eqb sonarSeverity "BLOCKER" || String.eqb sonarSeverity "CRITICAL" then 15
  else if String.eqb sonarSeverity "MAJOR" then 10
  else 0.

(** Lines with their 1-based numbers, counting from [k]. *)
Fixpoint number_from (k : Z) (lines : list string) : list (Z * string) :=
  match lines with
  | [] => []
  | l :: rest => (k, l) :: number_from (k + 1) rest
  end.

(** The window of the specification: the lines numbered L-3 to L+3. *)
Definition context_window (lines : list string) (L : Z) : list string :=
  map snd (List.filter (fun p => (L - 3 <=? fst p)%Z && (fst p <=? L + 3)%Z)
             (number_from 1 lines)).

(** What the AI service passes instead: the lines numbered L-2 to L+3. *)
Definition late_window (lines : list string) (L : Z) : list string :=
  map snd (List.filter (fun p => (L - 2 <=? fst p)%Z && (fst p <=? L + 3)%Z)
             (number_from 1 lines)).

(** The severity table of the specification, with medium for every
    string it does not list. *)
Definition claimed_severity (sonarSeverity : string) : Severity :=
  if String.eqb sonarSeverity "BLOCKER" then critical
  else if String.eqb sonarSeverity "CRITICAL" then critical
  else if String.eqb sonarSeverity "MAJOR" then high
  else if String.eqb sonarSeverity "MINOR" then medium
  else if String.eqb sonarSeverity "INFO" then low
  else medium.

(** The structured record the enrichment expects: an object with a
    numeric confidence. *)
Definition expected_record (v : json) : bool :=
  match v with
  | JObj fields =>
      match field "confidence" fields with
      | Some (JNum _) => true
      | _ => false
      end
  | _ => false
  end.

(** A parser for the examples: it knows the texts of an empty object and
    of the number 42, and rejects every other text. *)
Definition sample_parse (text : string) : result json :=
  if String.eqb text "{}" then Ok (JObj [])
  else if String.eqb text "42" then Ok (JNum 42)
  else Throw SyntaxError.

(** The enrichment reply is unusable in the sense of the specification:
    the call is rejected, or the text is not JSON, or what it parses to
    is not the expected record. *)
Definition unusable_reply (JSON_parse : string -> result json)
    (reply : ZAI.Completion) : Prop :=
  match ZAI.parse_reply JSON_parse reply "{}" with
  | Ok v => expected_record v = false
  | Throw _ => True
  end.

(** The enrichment claim of the specification, word for word. *)
Definition enrichment_claim : Prop :=
  forall (JSON_parse : string -> result json) (reply : ZAI.Completion)
         (vuln : AnalyzeRoute.Issue) (code fileName language : string),
    unusable_reply JSON_parse reply ->
    exists ev,
      AnalyzeRoute.enhanceVulnerabilityWithAI JSON_parse reply vuln code fileName language
      = Ok ev
      /\ AnalyzeRoute.ev_confidence ev = JNum 70
      /\ AnalyzeRoute.ev_suggestedFix ev = None.

(** The [try] block of the enrichment throws: the call is rejected, or
    the text is not JSON, or it is the JSON [null]. *)
Definition reply_throws (JSON_parse : string -> result json)
    (reply : ZAI.Completion) : Prop :=
  match ZAI.parse_reply JSON_parse reply "{}" with
  | Ok JNull => True
  | Ok _ => False
  | Throw _ => True
  end.

(** A trigger substring of an entry of the catalog: a string that the
    pattern of the entry accepts. *)
Definition trigger (entry : Extension.Entry) (t : string) : Prop :=
  accepts true (Extension.e_regex entry) t.

(** Some trigger substrings of the entries of the catalog, by type. *)
Definition triggers (type : string) : list string :=
  if String.eqb type "SQL Injection" then
    ["execute('' +"; "execute(" +:+ String dquote (String dquote "+")]
  else if String.eqb type "Hardcoded Password" then
    ["password = 'x'"; "pwd='x'"; "pass = `x`"]
  else if String.eqb type "Eval Usage" then ["eval("; "eval ("]
  else if String.eqb type "XSS Vulnerability" then
    ["innerHTML ="; "innerHTML="; "document.write("]
  else if String.eqb type "Weak Crypto" then ["md5("; "sha1("]
  else if String.eqb type "Pickle Unsafe" then ["pickle.load("; "pickle.loads("]
  else if String.eqb type "Shell Command Injection" then
    ["os.system("; "subprocess.call("]
  else [].

(** Sample inputs. *)
Definition minor_eval_issue : AIService.SonarIssue :=
  AIService.mkSonarIssue "k1" "javascript:S4784" "MINOR" "app.js" 1
    "Using eval can lead to code injection" "VULNERABILITY" "5min" "OPEN".

Definition seven_lines : AIService.TextDocument :=
  AIService.mkDocument ["l1"; "l2"; "l3"; "l4"; "l5"; "l6"; "l7"] "app.js" "javascript".

Definition sample_issue : AnalyzeRoute.Issue :=
  AnalyzeRoute.mkIssue "k1" "javascript:S4784" "CRITICAL" 1
    "Using eval can lead to code injection" "VULNERABILITY".

Definition empty_eval_finding : FixRoute.Finding :=
  FixRoute.mkFinding "f1" "Code Injection" "critical" 1
    "Use of eval" None.

Definition stale_finding : FixRoute.Finding :=
  FixRoute.mkFinding "f2" "Weak Random Number Generation" "low" 5
    "Math.random is not cryptographically secure" None.

Definition two_line_code : string := "a" +:+ nl +:+ "b".

Definition python_text : string :=
  "pickle.loads(x)" +:+ nl +:+ "ok" +:+ nl +:+ "os.system(y)".

Definition pickle_fix : string :=
  "// TODO: Fix Pickle Unsafe vulnerability" +:+ nl +:+ "pickle.loads(x)".

Definition shell_fix : string :=
  "// TODO: Fix Shell Command Injection vulnerability" +:+ nl +:+ "os.system(y)".

Definition pickle_finding : Extension.Vulnerability :=
  Extension.mkVulnerability "Pickle Unsafe" high 1
    "Unsafe pickle usage can lead to code execution" (Some pickle_fix).

Definition shell_finding : Extension.Vulnerability :=
  Extension.mkVulnerability "Shell Command Injection" high 3
    "Potential shell command injection" (Some shell_fix).

Definition other_issue : AnalyzeRoute.Issue :=
  AnalyzeRoute.mkIssue "k2" "javascript:S5443" "BLOCKER" 2
    "Using innerHTML can expose the application to XSS" "VULNERABILITY".

End Claims.

(* ================================================================== *)
(** * Values written into template literals                            *)
(* ================================================================== *)

Module Text.
Import JS.

(** [String(n)] for a natural number: its decimal digits. *)
Definition Number_toString (n : nat) : string :=
  NilEmpty.string_of_uint (Nat.to_uint n).

(** [String(z)] for an integer. *)
Definition Integer_toString (z : Z) : string :=
  if (z <? 0)%Z then "-" +:+ Number_toString (Z.to_nat (- z))
  else Number_toString (Z.to_nat z).

(** ToString of a parsed JSON value, as a template literal applies it.
    An array is its elements joined by commas, [null] among them
    written as nothing.  An object is asked for its [toString]: the one
    it inherits answers [[object Object]]; a field of that name hides
    it, and since no value of a parsed text can be called, and neither
    such a field [valueOf] nor the inherited one gives a primitive, the
    conversion throws a TypeError.  A number is an integer here and is
    written with all its digits, as JavaScript writes those below
    10^21. *)
Fixpoint ToString (v : json) : result string :=
  match v with
  | JNull => Ok "null"
  | JBool true => Ok "true"
  | JBool false => Ok "false"
  | JNum z => Ok (Integer_toString z)
  | JStr s => Ok s
  | JArr l =>
      elements <- (fix each (l : list json) : result (list string) :=
                     match l with
                     | [] => Ok []
                     | x :: rest =>
                         written <- match x with
                                    | JNull => Ok EmptyString
                                    | _ => ToString x
                                    end ;;
                         others <- each rest ;;
                         Ok (written :: others)
                     end) l ;;
      Ok (join "," elements)
  | JObj fields =>
      match field "toString" fields with
      | Some _ => Throw TypeError
      | None => Ok "[object Object]"
      end
  end.

(** The same for a value that may be [undefined]. *)
Definition show (v : option json) : result string :=
  match v with
  | Some x => ToString x
  | None => Ok "undefined"
  end.

End Text.

(* ================================================================== *)
(** * The SonarQube service: the mock issues                           *)
(* ================================================================== *)

Module SonarQubeService.
Import JS AIService Text.

(** [document.getText()] of a document whose end-of-line sequence is
    LF. *)
Definition getText (document : TextDocument) : string :=
  join nl (doc_lines document).

(** A document as the editor holds it: it has at least one line, and no
    line has a line break inside. *)
Definition well_formed (document : TextDocument) : Prop :=
  doc_lines document <> [] /\ Forall (fun l => split_nl l = [l]) (doc_lines document).

(** The body of [lines.forEach] in [getMockIssues]: the issues raised
    for one line, in the order of the four tests. *)
Definition mock_issues (component line : string) (lineNumber : nat) : list SonarIssue :=
  (if includes line "eval(" || includes line "Function(" then
     [mkSonarIssue ("mock-" +:+ Number_toString lineNumber +:+ "-1")
        "javascript:S4784" "CRITICAL" component (Z.of_nat lineNumber)
        "Using eval or Function constructor can lead to code injection vulnerabilities"
        "VULNERABILITY" "5min" "OPEN"]
   else [])
  ++ (if includes line "innerHTML" || includes line "outerHTML" then
        [mkSonarIssue ("mock-" +:+ Number_toString lineNumber +:+ "-2")
           "javascript:S5443" "BLOCKER" component (Z.of_nat lineNumber)
           "Using innerHTML can expose the application to Cross-Site Scripting (XSS) attacks"
           "VULNERABILITY" "10min" "OPEN"]
      else [])
  ++ (if includes line "password" && includes line "=" then
        [mkSonarIssue ("mock-" +:+ Number_toString lineNumber +:+ "-3")
           "javascript:S2068" "CRITICAL" component (Z.of_nat lineNumber)
           "Hardcoded credentials detected"
           "VULNERABILITY" "5min" "OPEN"]
      else [])
  ++ (if includes line "SELECT" && includes line "FROM" && includes line "+" then
        [mkSonarIssue ("mock-" +:+ Number_toString lineNumber +:+ "-4")
           "javascript:S2077" "CRITICAL" component (Z.of_nat lineNumber)
           "SQL query built from user input can lead to SQL injection"
           "VULNERABILITY" "15min" "OPEN"]
      else []).

(** The loop over the lines, [index] counting from [first]. *)
Fixpoint mock_lines (component : string) (first : nat) (lines : list string)
    : list SonarIssue :=
  match lines with
  | [] => []
  | line :: rest =>
      mock_issues component line (first + 1) ++ mock_lines component (S first) rest
  end.

(** [getMockIssues(document)] *)
Definition getMockIssues (document : TextDocument) : list SonarIssue :=
  mock_lines (fileName document) 0 (split_nl (getText document)).

End SonarQubeService.

(* ================================================================== *)
(** * The AI service: pattern analysis and fix strategies              *)
(* ================================================================== *)

Module AIAnalysis.
Import JS AIService Text.

Definition ws_star : regex := RStar true (RAtom ASpace).
Definition quotes : list ascii := ["'"%char; dquote; "`"%char].
Definition quote : regex := RAtom (ASet false quotes).
Definition not_quote : regex := RAtom (ASet true quotes).
Definition ws_plus : regex := RPlus true (RAtom ASpace).

(** The patterns of [analyzeLineWithAI]; none has a flag.  With [Q] the
    class of the three quote characters: [/fetch\s*\(\s*Q([^Q]+)Q/],
    [/document\.write\s*\(/], [/crypto\.createHash\s*\(\s*Qmd5Q/] and
    [/Math\.random\s*\(\s*\)/]. *)
Definition re_fetch : regex :=
  seq [lit "fetch"; ws_star; lit "("; ws_star; quote;
       RGroup 1 (RPlus true not_quote); quote].
Definition re_document_write : regex := seq [lit "document.write"; ws_star; lit "("].
Definition re_createHash_md5 : regex :=
  seq [lit "crypto.createHash"; ws_star; lit "("; ws_star; quote; lit "md5"; quote].
Definition re_Math_random : regex :=
  seq [lit "Math.random"; ws_star; lit "("; ws_star; lit ")"].

Record LinePattern : Type := mkLinePattern {
  lp_pattern : regex;
  lp_type : string;
  lp_severity : Severity;
  lp_description : string
}.

Definition patterns : list LinePattern :=
  [ mkLinePattern re_fetch "Insecure HTTP Request" medium
      "Potentially insecure HTTP request detected";
    mkLinePattern re_document_write "DOM-based XSS" high
      "document.write can lead to DOM-based XSS vulnerabilities";
    mkLinePattern re_createHash_md5 "Weak Cryptographic Hash" medium
      "MD5 is a weak cryptographic hash function";
    mkLinePattern re_Math_random "Weak Random Number Generation" low
      "Math.random is not cryptographically secure" ].

Record Suggestion : Type := mkSuggestion {
  s_confidence : Z;
  s_suggestedFix : string;
  s_explanation : string
}.

Definition suggestions : gmap string Suggestion :=
  {[ "Insecure HTTP Request" :=
       mkSuggestion 80 "Use HTTPS instead of HTTP for secure communication"
         "HTTPS encrypts data in transit, preventing man-in-the-middle attacks";
     "DOM-based XSS" :=
       mkSuggestion 90
         "Use safe DOM manipulation methods like textContent or createElement"
         "Safe DOM methods prevent script injection through HTML content";
     "Weak Cryptographic Hash" :=
       mkSuggestion 85 "Use strong hash functions like SHA-256 or bcrypt"
         "Modern hash functions provide better security against collision attacks";
     "Weak Random Number Generation" :=
       mkSuggestion 75
         "Use crypto.randomBytes() for cryptographically secure random numbers"
         "Cryptographically secure random numbers are essential for security-sensitive operations" ]}.

(** [generateFixSuggestion(code, issueType, language)]:
    [suggestions[issueType] || {...}] *)
Definition generateFixSuggestion (code issueType language : string)
    : looked_up Suggestion :=
  match literal_get suggestions issueType with
  | Some v => v
  | None =>
      Own (mkSuggestion 60 "Review and implement appropriate security measures"
             "This issue requires security review and appropriate mitigation")
  end.

(** A finding of the pattern analysis.  Its last three fields are read
    off the suggestion; on a value inherited from Object.prototype they
    are [undefined]. *)
Record Detected : Type := mkDetected {
  d_id : string;
  d_severity : Severity;
  d_type : string;
  d_file : string;
  d_line : Z;
  d_description : string;
  d_confidence : option Z;
  d_suggestedFix : option string;
  d_aiFix : option string
}.

(** The body of the loop of [analyzeLineWithAI] for one pattern.
    [random k] is the text [Math.random().toString(36).substr(2, 9)] of
    the [k]-th call of [Math.random]; [calls] counts the calls made so
    far. *)
Definition analyze_pattern (random : nat -> string) (line : string) (lineNumber : nat)
    (document : TextDocument) (st : list Detected * nat) (pattern : LinePattern)
    : list Detected * nat :=
  let '(vulnerabilities, calls) := st in
  if test_literal (lp_pattern pattern) false line then
    let aiAnalysis := generateFixSuggestion line (lp_type pattern) (languageId document) in
    let id := "ai-" +:+ Number_toString lineNumber +:+ "-" +:+ random calls in
    (vulnerabilities ++
       [match aiAnalysis with
        | Own s =>
            mkDetected id (lp_severity pattern) (lp_type pattern) (fileName document)
              (Z.of_nat lineNumber) (lp_description pattern)
              (Some (s_confidence s)) (Some (s_suggestedFix s)) (Some (s_explanation s))
        | Inherited _ =>
            mkDetected id (lp_severity pattern) (lp_type pattern) (fileName document)
              (Z.of_nat lineNumber) (lp_description pattern) None None None
        end], S calls)
  else (vulnerabilities, calls).

(** [analyzeLineWithAI(line, lineNumber, document)] *)
Definition analyzeLineWithAI (random : nat -> string) (line : string) (lineNumber : nat)
    (document : TextDocument) (calls : nat) : list Detected * nat :=
  fold_left (analyze_pattern random line lineNumber document) patterns ([], calls).

(** The loop of [performAIAnalysis]: [for (let i = 0; i < lines.length; i++)]. *)
Fixpoint analyze_lines (random : nat -> string) (document : TextDocument)
    (i : nat) (lines : list string) (st : list Detected * nat) : list Detected * nat :=
  match lines with
  | [] => st
  | line :: rest =>
      let '(vulnerabilities, calls) := st in
      let '(aiIssues, calls') := analyzeLineWithAI random line (i + 1) document calls in
      analyze_lines random document (S i) rest (vulnerabilities ++ aiIssues, calls')
  end.

(** [performAIAnalysis(document)] *)
Definition performAIAnalysis (random : nat -> string) (document : TextDocument)
    : list Detected :=
  fst (analyze_lines random document 0 (split_nl (SonarQubeService.getText document))
         ([], 0)).

(** The loop of [analyzeVulnerabilities]. *)
Fixpoint enhance_each (document : TextDocument) (sonarIssues : list SonarIssue)
    : result (list Vulnerability) :=
  match sonarIssues with
  | [] => Ok []
  | issue :: rest =>
      vulnerability <- enhanceWithAI document issue ;;
      others <- enhance_each document rest ;;
      Ok (vulnerability :: others)
  end.

(** [analyzeVulnerabilities(document, sonarIssues)]: the array it
    returns holds the enhanced issues, then the findings of the pattern
    analysis. *)
Definition analyzeVulnerabilities (random : nat -> string) (document : TextDocument)
    (sonarIssues : list SonarIssue) : result (list (Vulnerability + Detected)) :=
  vulnerabilities <- enhance_each document sonarIssues ;;
  let aiDetectedIssues := performAIAnalysis random document in
  Ok (map inl vulnerabilities ++ map inr aiDetectedIssues).

(** ** Fix strategies *)

Record Strategy : Type := mkStrategy {
  st_description : string;
  st_confidence : Z;
  st_explanation : string;
  st_apply : string -> string
}.

(** The patterns of the strategies.  [/eval\s*\(\s*([^)]+)\s*\)/g],
    [/\.innerHTML\s*=/g], [/(Q)[^Q]*password[^Q]*\1/gi] and
    [/SELECT\s+\*\s+FROM\s+(\w+)\s+WHERE\s+(\w+)\s*=\s*Q([^Q]+)Q/gi]. *)
Definition st_eval : regex :=
  seq [lit "eval"; ws_star; lit "("; ws_star;
       RGroup 1 (RPlus true (RAtom (ASet true [")"%char])));
       ws_star; lit ")"].
Definition st_innerHTML : regex := seq [lit ".innerHTML"; ws_star; lit "="].
Definition st_password : regex :=
  seq [RGroup 1 quote; RStar true not_quote; lit "password";
       RStar true not_quote; RBackref 1].
Definition st_select : regex :=
  seq [lit "SELECT"; ws_plus; lit "*"; ws_plus; lit "FROM"; ws_plus;
       RGroup 1 (RPlus true (RAtom AWord)); ws_plus; lit "WHERE"; ws_plus;
       RGroup 2 (RPlus true (RAtom AWord)); ws_star; lit "="; ws_star; quote;
       RGroup 3 (RPlus true not_quote); quote].

Definition strategies : gmap string (list Strategy) :=
  {[ "Code Injection" :=
       [mkStrategy "Replace eval with JSON.parse" 90
          "Using JSON.parse is safer than eval for parsing JSON data"
          (String_replace st_eval false "JSON.parse($1)")];
     "Cross-Site Scripting (XSS)" :=
       [mkStrategy "Replace innerHTML with textContent" 95
          "textContent prevents HTML injection by treating content as plain text"
          (String_replace st_innerHTML false ".textContent =")];
     "Hardcoded Credentials" :=
       [mkStrategy "Replace with environment variable" 85
          "Environment variables keep credentials out of source code"
          (String_replace st_password true "process.env.PASSWORD")];
     "SQL Injection" :=
       [mkStrategy "Use parameterized query" 88
          "Parameterized queries prevent SQL injection by separating code from data"
          (String_replace st_select true "SELECT * FROM $1 WHERE $2 = ?")] ]}.

Definition default_strategy : Strategy :=
  mkStrategy "Apply security best practices" 70
    "Review and implement appropriate security measures"
    (fun code => "// TODO: Apply security fix for: " +:+ code).

(** [getFixStrategies(vulnerabilityType, language)]:
    [strategies[vulnerabilityType] || [default]] *)
Definition getFixStrategies (vulnerabilityType language : string)
    : looked_up (list Strategy) :=
  match literal_get strategies vulnerabilityType with
  | Some v => v
  | None => Own [default_strategy]
  end.

Record AIFix : Type := mkAIFix {
  fix_code : string;
  fix_description : string;
  fix_confidence : Z;
  fix_explanation : string
}.

(** [generateAIFix(params)]: the first strategy is applied.  What
    Object.prototype hands down has no element 0, and calling [apply] on
    [undefined] throws. *)
Definition generateAIFix (vulnerabilityType code context language : string)
    : result AIFix :=
  match getFixStrategies vulnerabilityType language with
  | Own fixStrategies =>
      match fixStrategies !! 0 with
      | Some strategy =>
          Ok (mkAIFix (st_apply strategy code) (st_description strategy)
                (st_confidence strategy) (st_explanation strategy))
      | None => Throw TypeError
      end
  | Inherited _ => Throw TypeError
  end.

(** [generateFix(vulnerability, document)], which reads the line and the
    type of the finding; [null] is [None]. *)
Definition generateFix (vulnerabilityType : string) (vulnerabilityLine : Z)
    (document : TextDocument) : result (option AIFix) :=
  try_catch
    (lineContent <- lineAt document (vulnerabilityLine - 1) ;;
     context <- getCodeContext document vulnerabilityLine ;;
     fix' <- generateAIFix vulnerabilityType lineContent context (languageId document) ;;
     Ok (Some fix'))
    (fun _ => Ok None).

End AIAnalysis.

(* ================================================================== *)
(** * The analysis route: the additional analysis                      *)
(* ================================================================== *)

Module SecurityAnalysis.
Import JS Text.

(** A finding of [performAISecurityAnalysis]: but for the identifier,
    the file, the status and the analysis text, its fields are whatever
    the element of the reply holds under their names. *)
Record AIDetected : Type := mkAIDetected {
  a_id : string;
  a_severity : option json;
  a_type : option json;
  a_file : string;
  a_line : option json;
  a_description : option json;
  a_confidence : option json;
  a_suggestedFix : option json;
  a_aiAnalysis : string
}.

(** The callback of [aiVulnerabilities.map]; [now] is what [Date.now()]
    returns when the element is mapped.  The fields of the object
    literal are evaluated in the order they are written; the last one
    writes the type of the element into a template literal, which
    throws when the type cannot be converted to a string. *)
Definition detected (now : nat) (fileName : string) (vuln : json) (index : nat)
    : result AIDetected :=
  severity <- get_property vuln "severity" ;;
  type <- get_property vuln "type" ;;
  line <- get_property vuln "line" ;;
  description <- get_property vuln "description" ;;
  confidence <- get_property vuln "confidence" ;;
  suggestedFix <- get_property vuln "suggestedFix" ;;
  written <- show type ;;
  Ok (mkAIDetected
        ("ai-detected-" +:+ Number_toString now +:+ "-" +:+ Number_toString index)
        severity type fileName line description confidence suggestedFix
        ("AI-detected " +:+ written +:+ " vulnerability")).

(** An element of the reply that the callback can map: it is not
    [null], and its type can be written into the template literal. *)
Definition mappable (vuln : json) : Prop :=
  exists type written, get_property vuln "type" = Ok type /\ show type = Ok written.

Fixpoint map_detected (clock : nat -> nat) (fileName : string) (index : nat)
    (l : list json) : result (list AIDetected) :=
  match l with
  | [] => Ok []
  | vuln :: rest =>
      d <- detected (clock index) fileName vuln index ;;
      ds <- map_detected clock fileName (S index) rest ;;
      Ok (d :: ds)
  end.

(** [performAISecurityAnalysis]: the reply of the completion service is
    an input, and [clock index] is the time at which the element
    [index] is mapped.  [map] is a method of arrays only; whatever is
    thrown ends in the empty array. *)
Definition performAISecurityAnalysis (JSON_parse : string -> result json)
    (clock : nat -> nat) (reply : ZAI.Completion) (code fileName language : string)
    : list AIDetected :=
  match
    (aiVulnerabilities <- ZAI.parse_reply JSON_parse reply "[]" ;;
     match aiVulnerabilities with
     | JArr l => map_detected clock fileName 0 l
     | _ => Throw TypeError
     end)
  with
  | Ok found => found
  | Throw _ => []
  end.

End SecurityAnalysis.

(* ================================================================== *)
(** * What the scanner finds: the vocabulary of the theorems         *)
(* ================================================================== *)

Module ExtensionFacts.
Import JS Extension.

(** The store holds, behind [ref], the object of the literal [/r/gi],
    whatever its [lastIndex] has become. *)
Definition holds (h : heap) (ref : nat) (r : regex) : Prop :=
  exists i, h !! ref = Some (set_lastIndex (literal r true true) i).

(** A pattern of the scan stands for an entry of the catalog. *)
Definition stands_for (h : heap) (p : Pattern) (e : Entry) : Prop :=
  pat_type p = e_type e /\ pat_severity p = e_severity e
  /\ pat_description p = e_description e /\ holds h (pat_regex p) (e_regex e).

(** What a finding of the scan is: a line, an entry whose pattern
    accepts a part of the line, and the fix computed for them. *)
Definition grounded (es : list Entry) (lines : list string)
    (first : nat) (v : Vulnerability) : Prop :=
  exists (k : nat) (line : string) (e : Entry) (pre t post fixed : string),
    lines !! k = Some line /\ In e es
    /\ v = mkVulnerability (e_type e) (e_severity e) (Z.of_nat (first + k) + 1)
             (e_description e) (Some fixed)
    /\ line = pre +:+ t +:+ post /\ accepts true (e_regex e) t
    /\ fixed <> EmptyString.

End ExtensionFacts.

Module ExtensionTrace.
Import JS Extension.

(** One [test] of the object of [/r/gi] whose [lastIndex] is [i]: the
    answer and the [lastIndex] it leaves. *)
Definition step (r : regex) (i : nat) (S : string) : bool * nat :=
  if String.length S <? i then (false, 0)
  else match search r true (string_drop i S) with
       | Some (k, n, _) => (true, i + k + n)
       | None => (false, 0)
       end.

(** The answers of the tests of one pattern along the lines. *)
Fixpoint trace (r : regex) (i : nat) (lines : list string) : list bool :=
  match lines with
  | [] => []
  | l :: ls => fst (step r i l) :: trace r (snd (step r i l)) ls
  end.

(** The object of [/r/gi] with its [lastIndex] at [i]. *)
Definition object (r : regex) (i : nat) : RegExp := set_lastIndex (literal r true true) i.

End ExtensionTrace.

(* ================================================================== *)
(** * The fix route: the vocabulary of the theorems                  *)
(* ================================================================== *)

Module FixRouteFacts.
Import JS FixRoute.

(** The types that have a case of their own in the [switch]. *)
Definition named (type : string) : bool :=
  type_in type "Code Injection" "javascript:S4784"
  || type_in type "Cross-Site Scripting (XSS)" "javascript:S5443"
  || type_in type "Hardcoded Credentials" "javascript:S2068"
  || type_in type "SQL Injection" "javascript:S2077".

(** The test that guards the rewriting in the case of a type; the
    default case has none. *)
Definition guard (type targetLine : string) : bool :=
  if type_in type "Code Injection" "javascript:S4784" then includes targetLine "eval("
  else if type_in type "Cross-Site Scripting (XSS)" "javascript:S5443"
  then includes targetLine "innerHTML"
  else if type_in type "Hardcoded Credentials" "javascript:S2068"
  then includes targetLine "password" && includes targetLine "="
  else if type_in type "SQL Injection" "javascript:S2077"
  then includes targetLine "SELECT" && includes targetLine "+"
  else true.

(** The reply carries a proposal: it parses to an object whose
    [fixedCode] is a string. *)
Definition proposal (JSON_parse : string -> result json) (reply : ZAI.Completion)
    : option (json * string) :=
  match ZAI.parse_reply JSON_parse reply "{}" with
  | Ok aiResponse =>
      match get_property aiResponse "fixedCode" with
      | Ok (Some (JStr fixed)) => Some (aiResponse, fixed)
      | _ => None
      end
  | Throw _ => None
  end.

(** A line number inside the text.  An array has at most 2^32 - 1
    elements, so the second bound holds of every text that [split]
    returns. *)
Definition inside (lines : list string) (L : Z) : Prop :=
  (1 <= L <= Z.of_nat (length lines))%Z /\ (L <= 4294967295)%Z.

End FixRouteFacts.

(** No code unit of the text is the hyphen. *)
Fixpoint no_hyphen (s : string) : Prop :=
  match s with
  | EmptyString => True
  | String c s' => c <> "-"%char /\ no_hyphen s'
  end.

Module AIAnalysisFacts.
Import JS AIService AIAnalysis.

(** What a finding of the pattern analysis carries, for the line and
    the pattern it comes from. *)
Definition carries (document : TextDocument) (lineNumber : nat) (p : LinePattern)
    (d : Detected) : Prop :=
  d_line d = Z.of_nat lineNumber
  /\ d_type d = lp_type p /\ d_severity d = lp_severity p
  /\ d_description d = lp_description p /\ d_file d = fileName document
  /\ exists s, suggestions !! lp_type p = Some s
               /\ d_confidence d = Some (s_confidence s)
               /\ d_suggestedFix d = Some (s_suggestedFix s)
               /\ d_aiFix d = Some (s_explanation s)
               /\ (75 <= s_confidence s <= 90)%Z.

End AIAnalysisFacts.

Module AnalyzeRouteFacts.
Import JS AnalyzeRoute.

(** The finding keeps what the issue says: the reply of the completion
    service has no part in these fields. *)
Definition keeps (fileName : string) (vulnerability : Issue)
    (ev : EnhancedVulnerability) : Prop :=
  ev_id ev = i_key vulnerability
  /\ ev_severity ev = mapSeverity (i_severity vulnerability)
  /\ ev_type ev = i_type vulnerability
  /\ ev_file ev = fileName
  /\ ev_line ev = i_line vulnerability
  /\ ev_description ev = i_message vulnerability.

End AnalyzeRouteFacts.

(* ================================================================== *)
(** * The command of the extension: scan, then fix                   *)
(* ================================================================== *)

Module Pipeline.
Import JS Extension.

(** [scanAndFixVulnerabilities] with the [performScan] it calls, from
    the text of the editor to the buffer that is left.  With no finding
    there is a message and nothing else.  Otherwise [performScan] calls
    [applyFixes] when the setting [autoFix] is on or the user answers
    Fix All, and [applyFixes], which reads the setting again, puts its
    own question when it is off; [choice] and [confirm] are the answers
    to the two dialogs.  A scan that throws ends the command before any
    of this. *)
Definition scanAndFixVulnerabilities (autoFix : bool) (choice confirm : option string)
    (text language : string) (h : heap) : result (list string) :=
  let lines := split_nl text in
  scanned <- performScan language lines h ;;
  let vulnerabilities := fst scanned in
  if length vulnerabilities =? 0 then Ok lines
  else if autoFix
          || match choice with Some c => String.eqb c "Fix All" | None => false end
  then
    fixed <- applyFixes autoFix confirm vulnerabilities lines ;;
    Ok (fst fixed)
  else Ok lines.

End Pipeline.

(* ================================================================== *)
(** * Sample replies for the examples                                *)
(* ================================================================== *)

Module Samples.
Import JS.

(** The text of a reply of the fix route: an object with the fields
    fixedCode and confidence. *)
Definition fix_reply : string :=
  "{" +:+ String dquote "fixedCode" +:+ String dquote ":"
  +:+ String dquote "x = JSON.parse(y)" +:+ String dquote ","
  +:+ String dquote "confidence" +:+ String dquote ":90}".

(** The text of a reply of the additional analysis: an array of one
    finding, whose type is an object with a field toString. *)
Definition odd_reply : string :=
  "[{" +:+ String dquote "type" +:+ String dquote ":{"
  +:+ String dquote "toString" +:+ String dquote ":0}}]".

(** A parser for the examples of the routes: it knows the texts
    [fix_reply] and [odd_reply] and rejects every other text. *)
Definition parse (text : string) : result json :=
  if String.eqb text fix_reply
  then Ok (JObj [("fixedCode", JStr "x = JSON.parse(y)"); ("confidence", JNum 90)])
  else if String.eqb text odd_reply
  then Ok (JArr [JObj [("type", JObj [("toString", JNum 0)])]])
  else Throw SyntaxError.

End Samples.

(* ================================================================== *)
(** * Severity mapping                                                 *)
(* ================================================================== *)

Section SeverityMapping.
Import JS.

Lemma literal_get_outside {A : Type} (own : gmap string A) (name : string) :
  name ∉ Object_prototype ->
  literal_get own name = Own <$> (own !! name).
Proof.
  intros Hout. unfold literal_get.
  destruct (own !! name); [reflexivity|].
  rewrite bool_decide_eq_false_2; auto.
Qed.

Lemma mapping_lookup (s : string) :
  AnalyzeRoute.mapping !! s =
    if String.eqb s "BLOCKER" then Some critical
    else if String.eqb s "CRITICAL" then Some critical
    else if String.eqb s "MAJOR" then Some high
    else if String.eqb s "MINOR" then Some medium
    else if String.eqb s "INFO" then Some low
    else None.
Proof.
  unfold AnalyzeRoute.mapping.
  destruct (String.eqb_spec s "BLOCKER") as [->|?]; [vm_compute; reflexivity|].
  destruct (String.eqb_spec s "CRITICAL") as [->|?]; [vm_compute; reflexivity|].
  destruct (String.eqb_spec s "MAJOR") as [->|?]; [vm_compute; reflexivity|].
  destruct (String.eqb_spec s "MINOR") as [->|?]; [vm_compute; reflexivity|].
  destruct (String.eqb_spec s "INFO") as [->|?]; [vm_compute; reflexivity|].
  repeat (rewrite lookup_insert_ne by congruence).
  apply lookup_singleton_ne. congruence.
Qed.

(** X27.  Away from the names of Object.prototype, the severity mapping
    of the analysis route and that of the AI service are one table:
    BLOCKER and CRITICAL give critical, MAJOR high, MINOR medium, INFO
    low, and every other string medium. *)
Lemma mapSeverity_table (s : string) :
  s ∉ Object_prototype ->
  AnalyzeRoute.mapSeverity s = Own (Claims.claimed_severity s)
  /\ AIService.mapSeverity s = Own (Claims.claimed_severity s).
Proof.
  intros Hout.
  assert (H : AnalyzeRoute.mapSeverity s = Own (Claims.claimed_severity s)).
  { unfold AnalyzeRoute.mapSeverity. rewrite literal_get_outside by assumption.
    rewrite mapping_lookup. unfold Claims.claimed_severity.
    repeat (destruct (String.eqb _ _); [reflexivity|]). reflexivity. }
  split; [exact H | exact H].
Qed.

Lemma mapSeverity_table_witness :
  AnalyzeRoute.mapSeverity "unknown" = Own medium.
Proof.
  destruct (mapSeverity_table "unknown") as [H _].
  - unfold Object_prototype. intros Hin.
    repeat (apply elem_of_cons in Hin as [Hin|Hin]; [discriminate|]).
    inversion Hin.
  - exact H.
Defined.

(** C10 (the code departs from the claim).  The claim: the severity
    mapping returns one of the four levels on every string, and medium
    on every string outside its table.  The lookup goes through the
    prototype of the object literal: on the string constructor both
    copies of the function return the inherited property, which is none
    of the four levels, although the specification's table gives medium
    there. *)
Theorem mapSeverity_inherited_property :
  AnalyzeRoute.mapSeverity "constructor" = Inherited "constructor"
  /\ AIService.mapSeverity "constructor" = Inherited "constructor"
  /\ Claims.claimed_severity "constructor" = medium
  /\ forall level : Severity, AnalyzeRoute.mapSeverity "constructor" <> Own level.
Proof.
  repeat split; try (vm_compute; reflexivity).
  intros level H. vm_compute in H. discriminate H.
Qed.

End SeverityMapping.

(* ================================================================== *)
(** * Default confidence                                               *)
(* ================================================================== *)

Section Confidence.
Import JS.

(** C5 (as stated, false).  For a well-known rule of severity MINOR on a
    short line the claimed formula gives 85 and the code 80: the bonus
    for a well-known rule is 10, not 15. *)
Lemma calculateConfidence_not_as_claimed :
  AIService.calculateConfidence "eval(x)" Claims.minor_eval_issue
  <> Claims.claimed_confidence (Claims.well_known Claims.minor_eval_issue)
       (String.length "eval(x)").
Proof. vm_compute. discriminate. Qed.

(** C5 (amended).  The confidence is 70, plus 15 for severity BLOCKER or
    CRITICAL or 10 for MAJOR, plus 10 when the rule identifier contains
    S4784 or S5443, minus 5 when the line is longer than 100 code units,
    and the sum is capped at 95; it therefore lies between 65 and 95. *)
Theorem calculateConfidence_formula (code : string) (issue : AIService.SonarIssue) :
  AIService.calculateConfidence code issue
  = Z.min 95 (70 + Claims.severity_bonus (AIService.severity issue)
                + (if Claims.well_known issue then 10 else 0)
                - (if 100 <? String.length code then 5 else 0))
  /\ (65 <= AIService.calculateConfidence code issue <= 95)%Z.
Proof.
  unfold AIService.calculateConfidence, Claims.severity_bonus, Claims.well_known.
  destruct (String.eqb (AIService.severity issue) "BLOCKER"
            || String.eqb (AIService.severity issue) "CRITICAL");
    destruct (String.eqb (AIService.severity issue) "MAJOR");
    destruct (includes (AIService.rule issue) "S4784"
              || includes (AIService.rule issue) "S5443");
    destruct (100 <? String.length code); lia.
Qed.

End Confidence.

(* ================================================================== *)
(** * The context window                                               *)
(* ================================================================== *)

Section ContextWindow.
Import JS.

Lemma window_take_drop (lines : list string) (k lo hi : Z) :
  map snd (List.filter (fun p => (lo <=? fst p)%Z && (fst p <=? hi)%Z)
             (Claims.number_from k lines))
  = take (Z.to_nat (hi + 1 - Z.max lo k)) (drop (Z.to_nat (lo - k)) lines).
Proof.
  revert k. induction lines as [|l rest IH]; intros k.
  - simpl. rewrite drop_nil, take_nil. reflexivity.
  - cbn [Claims.number_from List.filter fst].
    destruct (Z.leb_spec lo k) as [Hlo|Hlo]; cbn [andb].
    + replace (Z.to_nat (lo - k)) with 0 by lia. cbn [drop].
      destruct (Z.leb_spec k hi) as [Hhi|Hhi].
      * cbn [map snd]. rewrite IH.
        replace (Z.to_nat (lo - (k + 1))) with 0 by lia. cbn [drop].
        replace (Z.to_nat (hi + 1 - Z.max lo k)) with (S (Z.to_nat (hi - k))) by lia.
        replace (Z.to_nat (hi + 1 - Z.max lo (k + 1))) with (Z.to_nat (hi - k)) by lia.
        reflexivity.
      * rewrite IH.
        replace (Z.to_nat (hi + 1 - Z.max lo k)) with 0 by lia.
        replace (Z.to_nat (hi + 1 - Z.max lo (k + 1))) with 0 by lia.
        reflexivity.
    + rewrite IH.
      replace (Z.to_nat (lo - k)) with (S (Z.to_nat (lo - (k + 1)))) by lia.
      cbn [drop].
      replace (Z.max lo (k + 1)) with (Z.max lo k) by lia. reflexivity.
Qed.

(** The slice that the two routes take is the window of the
    specification, for a line inside the text. *)
Lemma slice_is_window (lines : list string) (L : Z) :
  (1 <= L <= Z.of_nat (length lines))%Z ->
  Array_slice lines (Z.max 0 (L - 3 - 1)) (Z.min (Z.of_nat (length lines)) (L + 3))
  = Claims.context_window lines L.
Proof.
  intros HL. unfold Claims.context_window, Array_slice.
  rewrite window_take_drop.
  destruct (Z.ltb_spec (Z.max 0 (L - 3 - 1)) 0) as [H0|H0]; [lia|].
  destruct (Z.ltb_spec (Z.min (Z.of_nat (length lines)) (L + 3)) 0) as [H1|H1]; [lia|].
  replace (Z.to_nat (Z.min (Z.max 0 (L - 3 - 1)) (Z.of_nat (length lines))))
    with (Z.to_nat (L - 3 - 1)) by lia.
  destruct (Z.le_gt_cases (L + 3) (Z.of_nat (length lines))) as [Hle|Hgt].
  - f_equal. lia.
  - rewrite !take_ge; [reflexivity | rewrite length_drop; lia ..].
Qed.

(** X25.  For a line inside the text, the context that the two routes
    pass is the lines L-3 to L+3, clipped to the text and joined by line
    breaks. *)
Lemma routes_getCodeContext_window (code : string) (L : Z) :
  (1 <= L <= Z.of_nat (length (split_nl code)))%Z ->
  FixRoute.getCodeContext code L = join nl (Claims.context_window (split_nl code) L)
  /\ AnalyzeRoute.getCodeContext code L
     = join nl (Claims.context_window (split_nl code) L).
Proof.
  intros HL. unfold FixRoute.getCodeContext, AnalyzeRoute.getCodeContext.
  rewrite slice_is_window by exact HL. split; reflexivity.
Qed.

Lemma routes_getCodeContext_window_witness :
  FixRoute.getCodeContext ("a" +:+ nl +:+ "b") 1 = "a" +:+ nl +:+ "b".
Proof.
  destruct (routes_getCodeContext_window ("a" +:+ nl +:+ "b") 1) as [H _].
  - vm_compute. split; discriminate.
  - rewrite H. vm_compute. reflexivity.
Defined.

Lemma collect_lines_take_drop (document : AIService.TextDocument) (count i : nat) :
  i + count <= length (AIService.doc_lines document) ->
  AIService.collect_lines document (Z.of_nat i) count
  = Ok (take count (drop i (AIService.doc_lines document))).
Proof.
  revert i. induction count as [|count IH]; intros i Hi.
  - cbn [AIService.collect_lines]. rewrite take_0. reflexivity.
  - cbn [AIService.collect_lines]. unfold AIService.lineAt, Array_get.
    destruct (Z.leb_spec 0 (Z.of_nat i)) as [_|Hneg]; [|lia].
    rewrite Nat2Z.id.
    destruct (lookup_lt_is_Some_2 (AIService.doc_lines document) i ltac:(lia))
      as [l Hl].
    rewrite Hl. cbn [bind].
    replace (Z.of_nat i + 1)%Z with (Z.of_nat (S i)) by lia.
    rewrite IH by lia. cbn [bind].
    rewrite (drop_S _ _ _ Hl). reflexivity.
Qed.

(** X26.  For a line inside the document, the context of the AI service
    is the lines L-2 to L+3, clipped to the document and joined by line
    breaks. *)
Lemma AIService_getCodeContext_late_window (document : AIService.TextDocument) (L : Z) :
  (1 <= L <= AIService.lineCount document)%Z ->
  AIService.getCodeContext document L
  = Ok (join nl (Claims.late_window (AIService.doc_lines document) L)).
Proof.
  unfold AIService.lineCount. intros HL.
  unfold AIService.getCodeContext, AIService.lineCount, Claims.late_window.
  rewrite window_take_drop.
  set (n := Z.of_nat (length (AIService.doc_lines document))) in *.
  replace (Z.max 0 (L - 3)) with (Z.of_nat (Z.to_nat (L - 3))) by lia.
  rewrite collect_lines_take_drop by lia. cbn [bind].
  replace (Z.to_nat (L - 2 - 1)) with (Z.to_nat (L - 3)) by lia.
  destruct (Z.le_gt_cases (L + 3) n) as [Hle|Hgt].
  - do 3 f_equal. lia.
  - rewrite !take_ge; [reflexivity | rewrite length_drop; lia ..].
Qed.

Lemma AIService_getCodeContext_late_window_witness :
  AIService.getCodeContext Claims.seven_lines 4
  = Ok (join nl ["l2"; "l3"; "l4"; "l5"; "l6"; "l7"]).
Proof.
  rewrite (AIService_getCodeContext_late_window Claims.seven_lines 4).
  - vm_compute. reflexivity.
  - vm_compute. split; discriminate.
Defined.

(** C9 (the code departs from the claim).  The claim: the context is the
    lines L-3 to L+3, clipped to the text.  The two routes do pass that
    window; the AI service starts its loop at index L-3, one line late,
    so for L = 4 in a text of seven lines it passes lines 2 to 7 where
    the window is lines 1 to 7. *)
Theorem AIService_getCodeContext_starts_late :
  AIService.getCodeContext Claims.seven_lines 4
  = Ok (join nl ["l2"; "l3"; "l4"; "l5"; "l6"; "l7"])
  /\ Claims.context_window (AIService.doc_lines Claims.seven_lines) 4
     = ["l1"; "l2"; "l3"; "l4"; "l5"; "l6"; "l7"]
  /\ AIService.getCodeContext Claims.seven_lines 4
     <> Ok (join nl (Claims.context_window (AIService.doc_lines Claims.seven_lines) 4)).
Proof.
  repeat split; try (vm_compute; reflexivity).
  vm_compute. discriminate.
Qed.

End ContextWindow.

(* ================================================================== *)
(** * Enrichment failures                                              *)
(* ================================================================== *)

Section Enrichment.
Import JS.

Variable JSON_parse : string -> result json.

(** The [catch] block of the enrichment returns; nothing is rethrown. *)
Lemma enhance_returns (reply : ZAI.Completion) (vuln : AnalyzeRoute.Issue)
    (code fileName language : string) :
  exists ev,
    AnalyzeRoute.enhanceVulnerabilityWithAI JSON_parse reply vuln code fileName language
    = Ok ev.
Proof.
  unfold AnalyzeRoute.enhanceVulnerabilityWithAI.
  destruct (ZAI.parse_reply JSON_parse reply "{}") as [v|e]; simpl.
  - destruct v; simpl; eexists; reflexivity.
  - eexists; reflexivity.
Qed.

Lemma enhance_when_throws (reply : ZAI.Completion) (vuln : AnalyzeRoute.Issue)
    (code fileName language : string) :
  Claims.reply_throws JSON_parse reply ->
  AnalyzeRoute.enhanceVulnerabilityWithAI JSON_parse reply vuln code fileName language
  = Ok (AnalyzeRoute.fallback vuln fileName).
Proof.
  unfold Claims.reply_throws, AnalyzeRoute.enhanceVulnerabilityWithAI.
  destruct (ZAI.parse_reply JSON_parse reply "{}") as [v|e]; simpl.
  - destruct v; simpl; intros H; try contradiction. reflexivity.
  - reflexivity.
Qed.

(** X28.  A reply that parses to anything but [null] and carries no
    truthy confidence gets 75, and the suggested fix of the reply, if
    any. *)
Lemma enhance_without_confidence (reply : ZAI.Completion)
    (vuln : AnalyzeRoute.Issue) (code fileName language : string) (v : json) :
  ZAI.parse_reply JSON_parse reply "{}" = Ok v ->
  v <> JNull ->
  (forall c, get_property v "confidence" = Ok c -> truthy c = false) ->
  exists ev,
    AnalyzeRoute.enhanceVulnerabilityWithAI JSON_parse reply vuln code fileName language
    = Ok ev
    /\ AnalyzeRoute.ev_confidence ev = JNum 75
    /\ Ok (AnalyzeRoute.ev_suggestedFix ev) = get_property v "suggestedFix".
Proof.
  intros Hparse Hnull Hconf. unfold AnalyzeRoute.enhanceVulnerabilityWithAI.
  rewrite Hparse. simpl.
  destruct v; try contradiction;
    try (simpl; eexists; split; [reflexivity | split; reflexivity]).
  cbn [get_property bind try_catch] in *.
  specialize (Hconf _ eq_refl).
  destruct (field "confidence" fields) as [c|] eqn:Hc.
  - cbn [bind try_catch]. rewrite Hconf.
    eexists; split; [reflexivity | split; reflexivity].
  - cbn [bind try_catch]. eexists; split; [reflexivity | split; reflexivity].
Qed.

(** The loop enhances every finding of the batch, in order. *)
Lemma enhance_all_app (pre post : list (AnalyzeRoute.Issue * ZAI.Completion))
    (code fileName language : string) :
  exists before after,
    AnalyzeRoute.enhance_all JSON_parse pre code fileName language = Ok before
    /\ AnalyzeRoute.enhance_all JSON_parse post code fileName language = Ok after
    /\ AnalyzeRoute.enhance_all JSON_parse (pre ++ post) code fileName language
       = Ok (before ++ after)
    /\ length before = length pre /\ length after = length post.
Proof.
  induction pre as [|[vuln reply] pre IH].
  - assert (Hpost : exists after,
               AnalyzeRoute.enhance_all JSON_parse post code fileName language = Ok after
               /\ length after = length post).
    { induction post as [|[vuln reply] post IHp].
      - exists []. split; reflexivity.
      - destruct IHp as (after & Ha & Hl).
        destruct (enhance_returns reply vuln code fileName language) as [ev Hev].
        exists (ev :: after). simpl. rewrite Hev. simpl. rewrite Ha. simpl.
        split; [reflexivity | congruence]. }
    destruct Hpost as (after & Ha & Hl).
    exists [], after. simpl. auto.
  - destruct IH as (before & after & Hb & Ha & Hall & Hlb & Hla).
    destruct (enhance_returns reply vuln code fileName language) as [ev Hev].
    exists (ev :: before), after. simpl. rewrite Hev. simpl.
    rewrite Hb, Hall. simpl. repeat split; auto.
Qed.

End Enrichment.

(** The route never answers with status 500 because of an enrichment:
    it returns one finding for each one it was given. *)
Lemma analysis_route_always_answers (JSON_parse : string -> JS.result JS.json)
    (batch : list (AnalyzeRoute.Issue * ZAI.Completion))
    (aiDetected : list AnalyzeRoute.EnhancedVulnerability)
    (code fileName language : string) :
  exists enhanced,
    AnalyzeRoute.POST JSON_parse batch aiDetected code fileName language
    = AnalyzeRoute.Success (enhanced ++ aiDetected)
    /\ length enhanced = length batch.
Proof.
  destruct (enhance_all_app JSON_parse batch [] code fileName language)
    as (before & after & Hb & _ & _ & Hlen & _).
  exists before. unfold AnalyzeRoute.POST. rewrite Hb. auto.
Qed.

(** C4 (as stated, false).  A reply whose text is the number 42 parses,
    is not the expected record, and the finding comes back with
    confidence 75, not 70. *)
Lemma enrichment_default_is_not_always_70 : ~ Claims.enrichment_claim.
Proof.
  intros Hclaim.
  destruct (Hclaim Claims.sample_parse (ZAI.Completed (Some "42"))
              Claims.sample_issue "eval(x)" "app.js" "javascript")
    as (ev & Hev & Hconf & _).
  - vm_compute. reflexivity.
  - vm_compute in Hev. injection Hev as <-. vm_compute in Hconf. discriminate Hconf.
Qed.

(** C4 (amended).  When the enrichment call is rejected, or its reply is
    not JSON, or is the JSON null, the finding is returned with
    confidence 70 and no suggested fix, and the route answers with every
    finding of the batch: those before and after the failed one are what
    they are without it. *)
Theorem enrichment_failure_is_local
    (JSON_parse : string -> JS.result JS.json)
    (pre post : list (AnalyzeRoute.Issue * ZAI.Completion))
    (vuln : AnalyzeRoute.Issue) (reply : ZAI.Completion)
    (aiDetected : list AnalyzeRoute.EnhancedVulnerability)
    (code fileName language : string) :
  Claims.reply_throws JSON_parse reply ->
  exists before after,
    AnalyzeRoute.enhance_all JSON_parse pre code fileName language = JS.Ok before
    /\ AnalyzeRoute.enhance_all JSON_parse post code fileName language = JS.Ok after
    /\ AnalyzeRoute.POST JSON_parse (pre ++ (vuln, reply) :: post) aiDetected
         code fileName language
       = AnalyzeRoute.Success
           (before ++ AnalyzeRoute.fallback vuln fileName :: after ++ aiDetected)
    /\ AnalyzeRoute.ev_confidence (AnalyzeRoute.fallback vuln fileName) = JS.JNum 70
    /\ AnalyzeRoute.ev_suggestedFix (AnalyzeRoute.fallback vuln fileName) = None.
Proof.
  intros Hthrows.
  destruct (enhance_all_app JSON_parse pre ((vuln, reply) :: post)
              code fileName language)
    as (before & rest & Hb & Hrest & Hall & _ & _).
  destruct (enhance_all_app JSON_parse [] post code fileName language)
    as (nothing & after & _ & Ha & _ & _ & _).
  exists before, after. repeat split; auto.
  unfold AnalyzeRoute.POST. rewrite Hall.
  simpl in Hrest. rewrite (enhance_when_throws JSON_parse) in Hrest by exact Hthrows.
  simpl in Hrest. rewrite Ha in Hrest. simpl in Hrest. injection Hrest as <-.
  rewrite <- app_assoc. reflexivity.
Qed.

Lemma enrichment_failure_is_local_witness :
  AnalyzeRoute.POST Claims.sample_parse
    ([(Claims.other_issue, ZAI.Completed None)]
       ++ (Claims.sample_issue, ZAI.Rejected)
       :: [(Claims.other_issue, ZAI.Completed (Some "not json"))])
    [] "eval(x)" "app.js" "javascript"
  = AnalyzeRoute.Success
      [ AnalyzeRoute.mkEnhanced "k2" (JS.Own critical) "VULNERABILITY" "app.js" 2
          "Using innerHTML can expose the application to XSS" (JS.JNum 75) None None;
        AnalyzeRoute.fallback Claims.sample_issue "app.js";
        AnalyzeRoute.fallback Claims.other_issue "app.js" ].
Proof.
  destruct (enrichment_failure_is_local Claims.sample_parse
              [(Claims.other_issue, ZAI.Completed None)]
              [(Claims.other_issue, ZAI.Completed (Some "not json"))]
              Claims.sample_issue ZAI.Rejected [] "eval(x)" "app.js" "javascript")
    as (before & after & Hb & Ha & Hpost & _ & _).
  - vm_compute. exact I.
  - rewrite Hpost. vm_compute in Hb. vm_compute in Ha.
    injection Hb as <-. injection Ha as <-. vm_compute. reflexivity.
Defined.

(** A reply with an empty content is parsed as an empty object, and the
    finding comes back with confidence 75. *)
Lemma enhance_without_confidence_witness :
  exists ev,
    AnalyzeRoute.enhanceVulnerabilityWithAI Claims.sample_parse
      (ZAI.Completed None) Claims.sample_issue "eval(x)" "app.js" "javascript"
    = JS.Ok ev
    /\ AnalyzeRoute.ev_confidence ev = JS.JNum 75
    /\ JS.Ok (AnalyzeRoute.ev_suggestedFix ev) = JS.Ok None.
Proof.
  apply (enhance_without_confidence Claims.sample_parse (ZAI.Completed None)
           Claims.sample_issue "eval(x)" "app.js" "javascript" (JS.JObj [])).
  - reflexivity.
  - discriminate.
  - intros c Hc. vm_compute in Hc. injection Hc as <-. reflexivity.
Defined.

(* ================================================================== *)
(** * The validation gate of the fix route                             *)
(* ================================================================== *)

Section ValidationGate.
Import JS.

Variable JSON_parse : string -> result json.

(** On the AI path success is reported only for a proposal that is a
    string on which none of the four patterns of [validateFix] matches. *)
Lemma ai_success_is_validated (reply : ZAI.Completion)
    (vulnerability : FixRoute.Finding) (code fileName language : string)
    (fixedCode explanation confidence changes : option json) :
  FixRoute.generateAIFix JSON_parse reply vulnerability code fileName language
  = Ok (FixRoute.AIResponse true fixedCode explanation confidence changes) ->
  exists fixed,
    fixedCode = Some (JStr fixed)
    /\ Forall (fun entry => test_literal (snd entry) false fixed = false)
         FixRoute.vulnerabilityPatterns.
Proof.
  unfold FixRoute.generateAIFix.
  destruct (ZAI.parse_reply JSON_parse reply "{}") as [aiResponse|e];
    cbn [bind try_catch].
  2:{ unfold FixRoute.generateRuleBasedFix.
      destruct (FixRoute.rule_switch _ _) as [[[? ?] ?]|?]; cbn [bind];
        intros Habs; discriminate Habs. }
  destruct (get_property aiResponse "fixedCode") as [fc|e] eqn:Hfc; cbn [bind try_catch].
  2:{ unfold FixRoute.generateRuleBasedFix.
      destruct (FixRoute.rule_switch _ _) as [[[? ?] ?]|?]; cbn [bind];
        intros Habs; discriminate Habs. }
  destruct (FixRoute.validateFix fc code) as [[valid issues]|e] eqn:Hv; cbn [bind try_catch].
  2:{ unfold FixRoute.generateRuleBasedFix.
      destruct (FixRoute.rule_switch _ _) as [[[? ?] ?]|?]; cbn [bind];
        intros Habs; discriminate Habs. }
  assert (Hprops : exists a b c,
             get_property aiResponse "explanation" = Ok a
             /\ get_property aiResponse "confidence" = Ok b
             /\ get_property aiResponse "changes" = Ok c).
  { destruct aiResponse; try discriminate Hfc; cbn [get_property];
      do 3 eexists; repeat split; reflexivity. }
  destruct Hprops as (a & b & c & -> & -> & ->). cbn [bind try_catch fst].
  intros Heq. injection Heq as -> -> _ _ _.
  unfold FixRoute.validateFix in Hv.
  destruct fixedCode as [[| | |fixed| |]|]; try discriminate Hv.
  exists fixed. split; [reflexivity|].
  injection Hv as Hlen _.
  apply Nat.eqb_eq in Hlen. apply length_zero_iff_nil in Hlen.
  apply app_eq_nil in Hlen as [_ Hlen].
  apply app_eq_nil in Hlen as [_ Hlen].
  apply app_eq_nil in Hlen as [Hlen _].
  unfold FixRoute.vulnerabilityPatterns in *. cbn [flat_map] in Hlen.
  repeat constructor; cbn [snd].
  all: repeat match type of Hlen with
         | context [test_literal ?r false ?t] =>
             destruct (test_literal r false t) eqn:?;
               [cbn [app] in Hlen; discriminate Hlen | cbn [app] in Hlen]
         end; reflexivity.
Qed.

End ValidationGate.

(** On the rule-based path every response reports success. *)
Lemma rule_based_always_success (vulnerability : FixRoute.Finding)
    (code language : string) (r : FixRoute.FixResponse) :
  FixRoute.generateRuleBasedFix vulnerability code language = JS.Ok r ->
  FixRoute.success r = true.
Proof.
  unfold FixRoute.generateRuleBasedFix.
  destruct (FixRoute.rule_switch _ _) as [[[fixedLine explanation] confidence]|e];
    cbn [JS.bind]; [|discriminate].
  intros H. injection H as <-. reflexivity.
Qed.

Lemma rule_based_always_success_witness :
  FixRoute.success
    (FixRoute.RuleResponse true "eval()"
       "Replaced eval() with JSON.parse() to prevent code injection" 85
       [FixRoute.mkChange 1 (Some "eval()") "eval()"
          "Replaced eval() with JSON.parse() to prevent code injection"])
  = true.
Proof.
  apply (rule_based_always_success Claims.empty_eval_finding "eval()" "javascript").
  vm_compute. reflexivity.
Defined.

(** C1 (the code departs from the claim).  The claim: a fix is reported
    as successful only if the detect predicate no longer matches the
    proposal.  The AI path is gated that way; the rule-based path, taken
    when the AI path throws, answers [success: true] with no check.  For
    an eval finding on the line [eval()] the rewriting rule changes
    nothing, the eval pattern still matches the proposal, the gate of
    the AI path would have refused it, and the route reports success. *)
Theorem rule_based_fix_skips_validation (JSON_parse : string -> JS.result JS.json) :
  FixRoute.POST JSON_parse
    (JS.Ok (Some (FixRoute.mkFixRequest Claims.empty_eval_finding
                    "eval()" "app.js" "javascript")))
    (JS.Ok tt) ZAI.Rejected
  = FixRoute.Json
      (FixRoute.RuleResponse true "eval()"
         "Replaced eval() with JSON.parse() to prevent code injection" 85
         [FixRoute.mkChange 1 (Some "eval()") "eval()"
            "Replaced eval() with JSON.parse() to prevent code injection"])
  /\ JS.test_literal FixRoute.vp_eval false "eval()" = true
  /\ FixRoute.validateFix (Some (JS.JStr "eval()")) "eval()"
     = JS.Ok (false, ["Fix still contains vulnerable pattern: eval"]).
Proof. repeat split; vm_compute; reflexivity. Qed.

(* ================================================================== *)
(** * Findings on lines outside the text                               *)
(* ================================================================== *)

(** C8 (the code departs from the claim).  The claim: a fix for a line
    outside the text is detected before any edit and reported as failed.
    The rule-based fix has no bounds check: for line 5 of a text of two
    lines, in the default case of its switch, it writes past the end of
    the array, so the text grows by two empty lines, the comment and the
    word undefined, and the route reports success. *)
Theorem rule_based_fix_ignores_bounds (JSON_parse : string -> JS.result JS.json) :
  length (JS.split_nl Claims.two_line_code) = 2
  /\ FixRoute.f_line Claims.stale_finding = 5%Z
  /\ FixRoute.POST JSON_parse
       (JS.Ok (Some (FixRoute.mkFixRequest Claims.stale_finding
                       Claims.two_line_code "app.js" "javascript")))
       (JS.Ok tt) ZAI.Rejected
     = FixRoute.Json
         (FixRoute.RuleResponse true
            (JS.join JS.nl
               ["a"; "b"; EmptyString; EmptyString;
                "// TODO: Fix security issue - Math.random is not cryptographically secure";
                "undefined"])
            "Added security comment for manual review and fix" 50
            [FixRoute.mkChange 5 None
               ("// TODO: Fix security issue - Math.random is not cryptographically secure"
                +:+ JS.nl +:+ "undefined")
               "Added security comment for manual review and fix"]).
Proof. repeat split; vm_compute; reflexivity. Qed.

(** In a named case of the switch a line outside the text makes the
    rule-based fix throw, and the route answers with status 500. *)
Lemma rule_based_fix_named_case_throws (JSON_parse : string -> JS.result JS.json) :
  FixRoute.POST JSON_parse
    (JS.Ok (Some (FixRoute.mkFixRequest
                    (FixRoute.mkFinding "f3" "Code Injection" "critical" 5 "Use of eval" None)
                    Claims.two_line_code "app.js" "javascript")))
    (JS.Ok tt) ZAI.Rejected
  = FixRoute.Status500.
Proof. reflexivity. Qed.

(** The batch applier of the extension does test the upper bound: a
    finding past the last line leaves the buffer as it is; one before
    the first line makes the edit throw. *)
Lemma apply_fix_past_end (lines doc : list string) (vuln : Extension.Vulnerability) :
  (Z.of_nat (length lines) < Extension.v_line vuln)%Z ->
  Extension.apply_fix lines (JS.Ok doc) vuln = JS.Ok doc.
Proof.
  intros H. unfold Extension.apply_fix. cbn [JS.bind].
  destruct (Z.ltb_spec (Extension.v_line vuln - 1) (Z.of_nat (length lines)));
    [lia|]. rewrite andb_false_r. reflexivity.
Qed.

Lemma apply_fix_past_end_witness :
  Extension.apply_fix ["a"] (JS.Ok ["a"])
    (Extension.mkVulnerability "Eval Usage" high 3 "d" (Some "x"))
  = JS.Ok ["a"].
Proof. apply apply_fix_past_end. simpl. lia. Defined.

Lemma apply_fix_before_start :
  Extension.apply_fix ["a"] (JS.Ok ["a"])
    (Extension.mkVulnerability "Eval Usage" high 0 "d" (Some "x"))
  = JS.Throw JS.TypeError.
Proof. reflexivity. Qed.

(* ================================================================== *)
(** * The rule-based fixes of the extension                            *)
(* ================================================================== *)

(** Whatever the [lastIndex] of the Weak Crypto pattern, its test on
    the text md5 fails: the pattern asks for an opening parenthesis. *)
Lemma weak_crypto_test_md5 (i : nat) :
  JS.RegExp_test (JS.set_lastIndex (JS.literal Extension.re_weak_crypto true true) i)
    "md5"
  = (false, JS.literal Extension.re_weak_crypto true true).
Proof.
  do 4 (destruct i as [|i]; [vm_compute; reflexivity|]).
  reflexivity.
Qed.

(** The Weak Crypto case of [generateFix] throws, whatever the line and
    whatever the store. *)
Lemma weak_crypto_fix_throws (line language : string) (p : Extension.Pattern)
    (h : list JS.RegExp) :
  Extension.pat_type p = "Weak Crypto" ->
  Extension.generateFix line p language h = JS.Throw JS.ReferenceError.
Proof.
  intros Hty. unfold Extension.generateFix. rewrite Hty.
  cbn [String.eqb Ascii.eqb Bool.eqb].
  destruct (Extension.heap_test (Extension.pat_regex p) "md5" h) as [b h1].
  destruct b; reflexivity.
Qed.

(** C3 (the code departs from the claim).  The claim: for an entry with
    a rule-based fix, the fixed line no longer matches the entry's
    detect pattern.  The XSS entry detects two things, an assignment to
    innerHTML and a call of document.write, and its fix rewrites the
    first only: the line [document.write(s)] is found, its fix is the
    line itself, and the pattern matches the fix. *)
Theorem xss_document_write_fix_is_ineffective :
  Extension.outcome (Extension.performScan "javascript" ["document.write(s)"] [])
  = JS.Ok [Extension.mkVulnerability "XSS Vulnerability" medium 1
             "Potential XSS vulnerability" (Some "document.write(s)")]
  /\ JS.test_literal Extension.re_xss true "document.write(s)" = true.
Proof. split; vm_compute; reflexivity. Qed.

(* ================================================================== *)
(** * The scanner and the store of RegExp objects                      *)
(* ================================================================== *)

Section ScannerStore.
Import JS Extension.

Lemma heap_test_shift (h objs : heap) (ref : nat) (S : string) :
  heap_test (length h + ref) S (h ++ objs)
  = (fst (heap_test ref S objs), h ++ snd (heap_test ref S objs)).
Proof.
  unfold heap_test.
  rewrite lookup_app_r by lia.
  replace (length h + ref - length h) with ref by lia.
  destruct (objs !! ref) as [R|]; [|reflexivity].
  destruct (RegExp_test R S) as [b R']. cbn [fst snd].
  rewrite insert_app_r. reflexivity.
Qed.

Lemma generateFix_shift (h objs : heap) (line language : string) (p : Pattern) :
  generateFix line (shift (length h) p) language (h ++ objs)
  = (fixed <- generateFix line p language objs ;; Ok (fst fixed, h ++ snd fixed)).
Proof.
  unfold generateFix. cbn [shift pat_type pat_regex].
  repeat (match goal with
          | |- context [if String.eqb ?a ?b then _ else _] => destruct (String.eqb a b)
          end; try reflexivity).
  rewrite heap_test_shift.
  destruct (heap_test (pat_regex p) "md5" objs) as [b o']; cbn [fst snd];
    destruct b; reflexivity.
Qed.

Lemma scan_pattern_shift (h : heap) (language line : string) (index : nat)
    (st : result (list Vulnerability * heap)) (p : Pattern) :
  scan_pattern language line index (behind h st) (shift (length h) p)
  = behind h (scan_pattern language line index st p).
Proof.
  destruct st as [[vs objs]|e]; [|reflexivity].
  unfold behind, scan_pattern.
  cbn [bind fst snd shift pat_type pat_regex pat_severity pat_description].
  rewrite heap_test_shift.
  destruct (heap_test (pat_regex p) line objs) as [found o1]. cbn [fst snd].
  destruct found; [|reflexivity].
  change (mkPattern (pat_type p) (pat_severity p) (length h + pat_regex p)
            (pat_description p) (pat_fix p)) with (shift (length h) p).
  rewrite generateFix_shift.
  destruct (generateFix line p language o1) as [[fixed o2]|e]; reflexivity.
Qed.

Lemma fold_patterns_shift (h : heap) (language line : string) (index : nat)
    (ps : list Pattern) (st : result (list Vulnerability * heap)) :
  fold_left (scan_pattern language line index) (map (shift (length h)) ps) (behind h st)
  = behind h (fold_left (scan_pattern language line index) ps st).
Proof.
  revert st. induction ps as [|p ps IH]; intros st; [reflexivity|].
  cbn [map fold_left]. rewrite scan_pattern_shift. apply IH.
Qed.

Lemma scan_lines_shift (h : heap) (language : string) (ps : list Pattern)
    (lines : list string) (index : nat) (st : result (list Vulnerability * heap)) :
  scan_lines language (map (shift (length h)) ps) index lines (behind h st)
  = behind h (scan_lines language ps index lines st).
Proof.
  revert index st.
  induction lines as [|line rest IH]; intros index st; [reflexivity|].
  cbn [scan_lines]. rewrite fold_patterns_shift. apply IH.
Qed.

Lemma instantiate_shift (h : heap) (es : list Entry) (objs : heap) :
  instantiate es (h ++ objs)
  = (map (shift (length h)) (fst (instantiate es objs)),
     h ++ snd (instantiate es objs)).
Proof.
  revert objs. induction es as [|e es IH]; intros objs; [reflexivity|].
  cbn [instantiate alloc].
  rewrite <- app_assoc. rewrite IH.
  destruct (instantiate es (objs ++ [literal (e_regex e) true true])) as [ps o2].
  cbn [fst snd map]. unfold shift at 1. cbn [pat_type pat_severity pat_regex
    pat_description pat_fix]. rewrite length_app. reflexivity.
Qed.

Lemma getVulnerabilityPatterns_shift (h : heap) (language : string) :
  getVulnerabilityPatterns language h
  = (map (shift (length h)) (fst (getVulnerabilityPatterns language [])),
     h ++ snd (getVulnerabilityPatterns language [])).
Proof.
  unfold getVulnerabilityPatterns.
  rewrite <- (app_nil_r h) at 1. rewrite instantiate_shift.
  destruct (instantiate base_entries []) as [ps o1]. cbn [fst snd].
  destruct (String.eqb language "python"); [|reflexivity].
  rewrite instantiate_shift.
  destruct (instantiate python_entries o1) as [qs o2]. cbn [fst snd].
  rewrite map_app. reflexivity.
Qed.

(** The outcome of a scan does not depend on the store it starts from:
    the scan works on the objects it allocates, and leaves the rest of
    the store as it was. *)
Lemma performScan_shift (h : heap) (language : string) (lines : list string) :
  performScan language lines h = behind h (performScan language lines []).
Proof.
  unfold performScan. rewrite getVulnerabilityPatterns_shift.
  destruct (getVulnerabilityPatterns language []) as [ps o1]. cbn [fst snd].
  change (Ok ([], h ++ o1)) with (behind h (Ok ([], o1))).
  apply scan_lines_shift.
Qed.

Lemma outcome_behind (h : heap) (r : result (list Vulnerability * heap)) :
  outcome (behind h r) = outcome r.
Proof. destruct r as [[vs o]|e]; reflexivity. Qed.

Lemma outcome_Ok (r : result (list Vulnerability * heap)) (vs : list Vulnerability) :
  outcome r = Ok vs <-> exists h', r = Ok (vs, h').
Proof.
  destruct r as [[vs0 h0]|e]; cbn; split.
  - intros H. injection H as <-. eauto.
  - intros [h' H]. injection H as <- _. reflexivity.
  - intros H. discriminate H.
  - intros [h' H]. discriminate H.
Qed.

End ScannerStore.

(** C7.  Two invocations of the scan on the same text and language give
    the same findings, in the same order, with the same types,
    severities, line numbers, descriptions and fixed code, or are ended
    by the same exception: whatever store of RegExp objects each
    invocation starts from, and in particular when the second starts
    from the store the first one left. *)
Theorem scan_is_deterministic (text language : string) (h1 h2 : list JS.RegExp) :
  Extension.outcome (Extension.scan text language h1)
  = Extension.outcome (Extension.scan text language h2)
  /\ (forall findings h',
        Extension.scan text language h1 = JS.Ok (findings, h') ->
        Extension.outcome (Extension.scan text language h') = JS.Ok findings).
Proof.
  unfold Extension.scan. split.
  - rewrite (performScan_shift h1), (performScan_shift h2), !outcome_behind.
    reflexivity.
  - intros findings h' Hfirst.
    rewrite (performScan_shift h'), outcome_behind.
    rewrite (performScan_shift h1) in Hfirst.
    destruct (Extension.performScan language (JS.split_nl text) []) as [[vs o]|e];
      [|discriminate Hfirst].
    injection Hfirst as <- _. reflexivity.
Qed.

(* ================================================================== *)
(** * What the scanner finds                                           *)
(* ================================================================== *)

Section ScannerFinds.
Import JS Extension.

(** A match at the start of a suffix is found by the search. *)
Lemma test_literal_skip (r : regex) (i : bool) (pre s : string) :
  match_here r i s <> None -> test_literal r i (pre +:+ s) = true.
Proof.
  intros Hm. unfold test_literal.
  induction pre as [|c pre IH].
  - change (EmptyString +:+ s) with s.
    destruct s; cbn [search]; destruct (match_here r i _) as [[n c]|];
      try reflexivity; congruence.
  - change (String c pre +:+ s) with (String c (pre +:+ s)). cbn [search].
    destruct (match_here r i (String c (pre +:+ s))) as [[n c']|]; [reflexivity|].
    destruct (search r i (pre +:+ s)) as [[[k n] c']|]; [reflexivity|discriminate IH].
Qed.

Lemma heap_test_other (ref ref' : nat) (S : string) (h : heap) :
  ref <> ref' -> snd (heap_test ref' S h) !! ref = h !! ref.
Proof.
  intros Hne. unfold heap_test. destruct (h !! ref') as [R|]; [|reflexivity].
  destruct (RegExp_test R S) as [b R']. cbn [snd].
  apply list_lookup_insert_ne. auto.
Qed.

(** An exception leaves the loops. *)
Lemma fold_patterns_Throw (language line : string) (index : nat) (ps : list Pattern)
    (e : error) :
  fold_left (scan_pattern language line index) ps (Throw e) = Throw e.
Proof. induction ps as [|p ps IH]; [reflexivity | exact IH]. Qed.

Lemma scan_lines_Throw (language : string) (ps : list Pattern) (index : nat)
    (lines : list string) (e : error) :
  scan_lines language ps index lines (Throw e) = Throw e.
Proof.
  revert index. induction lines as [|line rest IH]; intros index; [reflexivity|].
  cbn [scan_lines]. rewrite fold_patterns_Throw. apply IH.
Qed.

(** The two ways of [generateFix]: it throws in the Weak Crypto case,
    and everywhere else it returns a text that does not depend on the
    store, and leaves the store as it is. *)
Lemma generateFix_cases (line language : string) (p : Pattern) :
  (pat_type p = "Weak Crypto"
   /\ forall h, generateFix line p language h = Throw ReferenceError)
  \/ (pat_type p <> "Weak Crypto"
      /\ exists fixed, forall h, generateFix line p language h = Ok (fixed, h)).
Proof.
  unfold generateFix.
  destruct (String.eqb_spec (pat_type p) "SQL Injection") as [E1|E1].
  { right. split; [rewrite E1; discriminate|].
    destruct (String.eqb language "python"); eexists; intros h; reflexivity. }
  destruct (String.eqb_spec (pat_type p) "Hardcoded Password") as [E2|E2].
  { right. split; [rewrite E2; discriminate|]. eexists; intros h; reflexivity. }
  destruct (String.eqb_spec (pat_type p) "Eval Usage") as [E3|E3].
  { right. split; [rewrite E3; discriminate|]. eexists; intros h; reflexivity. }
  destruct (String.eqb_spec (pat_type p) "XSS Vulnerability") as [E4|E4].
  { right. split; [rewrite E4; discriminate|]. eexists; intros h; reflexivity. }
  destruct (String.eqb_spec (pat_type p) "Weak Crypto") as [E5|E5].
  { left. split; [exact E5|]. intros h.
    destruct (heap_test (pat_regex p) "md5" h) as [b h1]. destruct b; reflexivity. }
  right. split; [exact E5|]. eexists; intros h; reflexivity.
Qed.

(** The three ways of one step of the scan. *)
Lemma scan_pattern_cases (language line : string) (index : nat)
    (vs : list Vulnerability) (h : heap) (p : Pattern) :
  let found := fst (heap_test (pat_regex p) line h) in
  let h1 := snd (heap_test (pat_regex p) line h) in
  (found = false /\ scan_pattern language line index (Ok (vs, h)) p = Ok (vs, h1))
  \/ (found = true /\ pat_type p = "Weak Crypto"
      /\ scan_pattern language line index (Ok (vs, h)) p = Throw ReferenceError)
  \/ (found = true /\ pat_type p <> "Weak Crypto"
      /\ exists fixed,
           (forall h', generateFix line p language h' = Ok (fixed, h'))
           /\ scan_pattern language line index (Ok (vs, h)) p
              = Ok (vs ++ [mkVulnerability (pat_type p) (pat_severity p)
                             (Z.of_nat index + 1) (pat_description p) (Some fixed)],
                    h1)).
Proof.
  cbn zeta. unfold scan_pattern. cbn [bind].
  destruct (heap_test (pat_regex p) line h) as [found h1]. cbn [fst snd].
  destruct found; [|left; split; reflexivity].
  right. destruct (generateFix_cases line language p) as [[Hty Hfix]|[Hty [fixed Hfix]]].
  - left. rewrite Hfix. repeat split; [exact Hty].
  - right. rewrite Hfix. repeat split; [exact Hty|]. exists fixed. split; [exact Hfix|].
    reflexivity.
Qed.

(** A loop that comes to its end has come through every step. *)
Lemma fold_patterns_Ok (language line : string) (index : nat) (p : Pattern)
    (ps : list Pattern) (st st'' : list Vulnerability * heap) :
  fold_left (scan_pattern language line index) (p :: ps) (Ok st) = Ok st'' ->
  exists st',
    scan_pattern language line index (Ok st) p = Ok st'
    /\ fold_left (scan_pattern language line index) ps (Ok st') = Ok st''.
Proof.
  cbn [fold_left].
  destruct (scan_pattern language line index (Ok st) p) as [st'|e] eqn:Hstep;
    intros H; [eauto | rewrite fold_patterns_Throw in H; discriminate H].
Qed.

Lemma fold_patterns_app_Ok (language line : string) (index : nat)
    (ps qs : list Pattern) (st st'' : list Vulnerability * heap) :
  fold_left (scan_pattern language line index) (ps ++ qs) (Ok st) = Ok st'' ->
  exists st',
    fold_left (scan_pattern language line index) ps (Ok st) = Ok st'
    /\ fold_left (scan_pattern language line index) qs (Ok st') = Ok st''.
Proof.
  rewrite fold_left_app.
  destruct (fold_left (scan_pattern language line index) ps (Ok st)) as [st'|e];
    intros H; [eauto | rewrite fold_patterns_Throw in H; discriminate H].
Qed.

Lemma scan_lines_Ok (language : string) (ps : list Pattern) (index : nat)
    (line : string) (rest : list string) (st st'' : list Vulnerability * heap) :
  scan_lines language ps index (line :: rest) (Ok st) = Ok st'' ->
  exists st',
    fold_left (scan_pattern language line index) ps (Ok st) = Ok st'
    /\ scan_lines language ps (S index) rest (Ok st') = Ok st''.
Proof.
  cbn [scan_lines].
  destruct (fold_left (scan_pattern language line index) ps (Ok st)) as [st'|e];
    intros H; [eauto | rewrite scan_lines_Throw in H; discriminate H].
Qed.

(** What one step does to the state, when it returns. *)
Lemma scan_pattern_returns (language line : string) (index : nat)
    (vs vs' : list Vulnerability) (h h' : heap) (p : Pattern) :
  scan_pattern language line index (Ok (vs, h)) p = Ok (vs', h') ->
  h' = snd (heap_test (pat_regex p) line h)
  /\ ((fst (heap_test (pat_regex p) line h) = false /\ vs' = vs)
      \/ (fst (heap_test (pat_regex p) line h) = true
          /\ pat_type p <> "Weak Crypto"
          /\ exists fixed,
               (forall h1, generateFix line p language h1 = Ok (fixed, h1))
               /\ vs' = vs ++ [mkVulnerability (pat_type p) (pat_severity p)
                                 (Z.of_nat index + 1) (pat_description p)
                                 (Some fixed)])).
Proof.
  destruct (scan_pattern_cases language line index vs h p)
    as [[Hf ->]|[(Hf & Hty & ->)|(Hf & Hty & fixed & Hfix & ->)]]; intros H.
  - injection H as <- <-. split; [reflexivity | left; split; [exact Hf | reflexivity]].
  - discriminate H.
  - injection H as <- <-. split; [reflexivity|]. right. repeat split; try assumption.
    exists fixed. split; [exact Hfix | reflexivity].
Qed.

Lemma scan_pattern_other (ref : nat) (language line : string) (index : nat)
    (vs vs' : list Vulnerability) (h h' : heap) (p : Pattern) :
  scan_pattern language line index (Ok (vs, h)) p = Ok (vs', h') ->
  ref <> pat_regex p -> h' !! ref = h !! ref.
Proof.
  intros Hstep Hne. apply scan_pattern_returns in Hstep as [-> _].
  apply heap_test_other. exact Hne.
Qed.

(** Findings are only ever added. *)
Lemma scan_pattern_keeps (language line : string) (index : nat)
    (vs vs' : list Vulnerability) (h h' : heap) (p : Pattern) (v : Vulnerability) :
  scan_pattern language line index (Ok (vs, h)) p = Ok (vs', h') ->
  In v vs -> In v vs'.
Proof.
  intros Hstep Hin.
  apply scan_pattern_returns in Hstep as [_ [[_ ->]|(_ & _ & fixed & _ & ->)]];
    [exact Hin | apply in_or_app; left; exact Hin].
Qed.

Lemma fold_patterns_keeps (language line : string) (index : nat) (ps : list Pattern)
    (vs vs' : list Vulnerability) (h h' : heap) (v : Vulnerability) :
  fold_left (scan_pattern language line index) ps (Ok (vs, h)) = Ok (vs', h') ->
  In v vs -> In v vs'.
Proof.
  revert vs h. induction ps as [|p ps IH]; intros vs h Hfold Hin.
  - injection Hfold as <- _. exact Hin.
  - apply fold_patterns_Ok in Hfold as ([vs1 h1] & Hstep & Hrest).
    eapply IH; [exact Hrest|]. eapply scan_pattern_keeps; eassumption.
Qed.

Lemma scan_lines_keeps (language : string) (ps : list Pattern) (lines : list string)
    (index : nat) (vs vs' : list Vulnerability) (h h' : heap) (v : Vulnerability) :
  scan_lines language ps index lines (Ok (vs, h)) = Ok (vs', h') ->
  In v vs -> In v vs'.
Proof.
  revert index vs h. induction lines as [|line rest IH]; intros index vs h Hscan Hin.
  - injection Hscan as <- _. exact Hin.
  - apply scan_lines_Ok in Hscan as ([vs1 h1] & Hfold & Hrest).
    eapply IH; [exact Hrest|]. eapply fold_patterns_keeps; eassumption.
Qed.

Lemma fold_patterns_other (ref : nat) (language line : string) (index : nat)
    (ps : list Pattern) (vs vs' : list Vulnerability) (h h' : heap) :
  Forall (fun p => ref <> pat_regex p) ps ->
  fold_left (scan_pattern language line index) ps (Ok (vs, h)) = Ok (vs', h') ->
  h' !! ref = h !! ref.
Proof.
  revert vs h. induction ps as [|p ps IH]; intros vs h Hall Hfold.
  - injection Hfold as _ <-. reflexivity.
  - inversion Hall as [|? ? Hp Hps]; subst.
    apply fold_patterns_Ok in Hfold as ([vs1 h1] & Hstep & Hrest).
    rewrite (IH vs1 h1 Hps Hrest).
    eapply scan_pattern_other; eassumption.
Qed.

End ScannerFinds.

Section Catalog.
Import JS Extension.

Lemma instantiate_app (a b : list Entry) (h : heap) :
  instantiate (a ++ b) h
  = (fst (instantiate a h) ++ fst (instantiate b (snd (instantiate a h))),
     snd (instantiate b (snd (instantiate a h)))).
Proof.
  revert h. induction a as [|e a IH]; intros h.
  - cbn [app instantiate fst snd]. destruct (instantiate b h); reflexivity.
  - cbn [app instantiate alloc]. rewrite IH.
    destruct (instantiate a (h ++ [literal (e_regex e) true true])) as [ps h1].
    cbn [fst snd]. reflexivity.
Qed.

Lemma getVulnerabilityPatterns_instantiate (language : string) (h : heap) :
  getVulnerabilityPatterns language h = instantiate (entries_for language) h.
Proof.
  unfold getVulnerabilityPatterns, entries_for.
  destruct (String.eqb language "python").
  - rewrite instantiate_app. destruct (instantiate base_entries h) as [ps h1].
    cbn [fst snd]. destruct (instantiate python_entries h1); reflexivity.
  - destruct (instantiate base_entries h); reflexivity.
Qed.

Lemma instantiate_heap (es : list Entry) (h : heap) :
  snd (instantiate es h) = h ++ map new_object es.
Proof.
  revert h. induction es as [|e es IH]; intros h.
  - cbn. rewrite app_nil_r. reflexivity.
  - cbn [instantiate alloc map]. specialize (IH (h ++ [literal (e_regex e) true true])).
    destruct (instantiate es (h ++ [literal (e_regex e) true true])) as [ps h1].
    cbn [snd] in *. rewrite IH, <- app_assoc. reflexivity.
Qed.

Lemma instantiate_patterns (es : list Entry) (h : heap) :
  fst (instantiate es h)
  = imap (fun k e => mkPattern (e_type e) (e_severity e) (length h + k)
                       (e_description e) (e_fix e)) es.
Proof.
  revert h. induction es as [|e es IH]; intros h; [reflexivity|].
  cbn [instantiate alloc imap]. specialize (IH (h ++ [literal (e_regex e) true true])).
  destruct (instantiate es (h ++ [literal (e_regex e) true true])) as [ps h1].
  cbn [fst] in *. rewrite IH. f_equal.
  - f_equal. lia.
  - apply imap_ext. intros k e' _. cbn. rewrite length_app. cbn. f_equal. lia.
Qed.

Lemma instantiate_refs (es : list Entry) (h : heap) :
  map pat_regex (fst (instantiate es h)) = List.seq (length h) (length es).
Proof.
  rewrite instantiate_patterns. generalize (length h) as n.
  induction es as [|e es IH]; intros n; [reflexivity|].
  cbn [imap map length List.seq pat_regex]. f_equal; [lia|].
  rewrite <- (IH (S n)). f_equal.
  apply imap_ext. intros k e' _. cbn. f_equal. lia.
Qed.

Lemma catalog_refs_NoDup (language : string) :
  NoDup (map pat_regex (fst (getVulnerabilityPatterns language []))).
Proof.
  rewrite getVulnerabilityPatterns_instantiate, instantiate_refs. apply NoDup_seq.
Qed.

Lemma NoDup_map_middle {A B : Type} (f : A -> B) (pre post : list A) (p : A) :
  NoDup (map f (pre ++ p :: post)) ->
  Forall (fun q => f p <> f q) pre /\ Forall (fun q => f p <> f q) post.
Proof.
  rewrite map_app. cbn [map]. intros Hnd.
  apply NoDup_app in Hnd as (_ & Hpre & Hpost).
  apply NoDup_cons in Hpost as [Hpost _].
  split; apply Forall_forall; intros q Hq Heq.
  - apply (Hpre (f q)).
    + apply list_elem_of_fmap. exists q. auto.
    + rewrite Heq. left.
  - apply Hpost. rewrite Heq. apply list_elem_of_fmap. exists q. auto.
Qed.

End Catalog.

(* ================================================================== *)
(** * The batch fix applier                                            *)
(* ================================================================== *)

Section Lines.
Import JS.

Lemma split_nl_nonempty (s : string) : split_nl s <> [].
Proof.
  destruct s as [|c s]; cbn [split_nl]; [discriminate|].
  destruct (Ascii.eqb c LF); [discriminate|].
  destruct (split_nl s); discriminate.
Qed.

(** A line of a split text splits into itself. *)
Lemma split_nl_lines_single (text : string) :
  Forall (fun l => split_nl l = [l]) (split_nl text).
Proof.
  induction text as [|c text IH]; cbn [split_nl].
  - constructor; [reflexivity | constructor].
  - destruct (Ascii.eqb c LF) eqn:Hc.
    + constructor; [reflexivity | exact IH].
    + destruct (split_nl text) as [|l ls]; cbn [split_nl].
      * constructor; [|constructor]. cbn [split_nl]. rewrite Hc. reflexivity.
      * inversion IH as [|? ? Hl Hls]; subst. constructor; [|exact Hls].
        cbn [split_nl]. rewrite Hc, Hl. reflexivity.
Qed.

Lemma flat_map_split_single (ls : list string) :
  Forall (fun l => split_nl l = [l]) ls -> flat_map split_nl ls = ls.
Proof.
  induction 1 as [|l ls Hl _ IH]; [reflexivity|].
  cbn [flat_map]. rewrite Hl, IH. reflexivity.
Qed.

Lemma append_empty_r (s : string) : s +:+ EmptyString = s.
Proof.
  induction s as [|c s IH]; [reflexivity|].
  change (String c (s +:+ EmptyString) = String c s). f_equal. exact IH.
Qed.

Lemma append_cons (c : ascii) (s t : string) :
  String c s +:+ t = String c (s +:+ t).
Proof. reflexivity. Qed.

Lemma string_drop_all (s : string) : string_drop (String.length s) s = EmptyString.
Proof. induction s as [|c s IH]; [reflexivity | exact IH]. Qed.

Lemma join_cons (x : string) (R : list string) :
  join nl (x :: R) = x +:+ join_tail R.
Proof.
  destruct R; cbn [join join_tail]; [symmetry; apply append_empty_r | reflexivity].
Qed.

Lemma join_split_app (t : string) (R : list string) :
  join nl (split_nl t ++ R) = t +:+ join_tail R.
Proof.
  induction t as [|c t IH]; cbn [split_nl].
  - cbn [app]. rewrite join_cons. reflexivity.
  - destruct (Ascii.eqb c LF) eqn:Hc.
    + apply Ascii.eqb_eq in Hc. subst c.
      cbn [app]. rewrite join_cons.
      assert (Hne : split_nl t ++ R <> []).
      { intros H. apply app_eq_nil in H as [H _]. exact (split_nl_nonempty t H). }
      destruct (split_nl t ++ R) as [|y ys] eqn:Hy; [contradiction|].
      cbn [join_tail]. rewrite IH. reflexivity.
    + destruct (split_nl t) as [|l ls] eqn:Hs; [exfalso; exact (split_nl_nonempty t Hs)|].
      cbn [app] in *. rewrite join_cons in *. rewrite append_cons, IH.
      reflexivity.
Qed.

(** Splitting the slots and joining the lines is joining the slots. *)
Lemma join_flat_map_split (slots : list string) :
  join nl (flat_map split_nl slots) = join nl slots.
Proof.
  induction slots as [|s slots IH]; [reflexivity|].
  cbn [flat_map]. rewrite join_split_app, join_cons. f_equal.
  destruct slots as [|s' slots]; [reflexivity|].
  cbn [flat_map]. cbn [flat_map] in IH.
  destruct (split_nl s' ++ flat_map split_nl slots) eqn:Hy.
  - apply app_eq_nil in Hy as [Hy _]. exfalso. exact (split_nl_nonempty s' Hy).
  - cbn [join_tail]. rewrite IH. reflexivity.
Qed.

End Lines.

Section Sorting.
Import JS Extension.

Lemma sort_insert_perm {A : Type} (cmp : A -> A -> Z) (x : A) (l : list A) :
  sort_insert cmp x l ≡ₚ x :: l.
Proof.
  induction l as [|y l IH]; cbn [sort_insert]; [reflexivity|].
  destruct (cmp x y <=? 0)%Z; [reflexivity|].
  rewrite IH. apply Permutation_swap.
Qed.

Lemma Array_sort_perm {A : Type} (cmp : A -> A -> Z) (l : list A) :
  Array_sort cmp l ≡ₚ l.
Proof.
  unfold Array_sort. induction l as [|x l IH]; cbn [foldr]; [reflexivity|].
  rewrite sort_insert_perm, IH. reflexivity.
Qed.

Lemma sort_insert_sorted (x : Vulnerability) (l : list Vulnerability) :
  StronglySorted not_below l ->
  StronglySorted not_below (sort_insert by_line_descending x l).
Proof.
  induction 1 as [|y l Hl IH Hy]; cbn [sort_insert].
  - repeat constructor.
  - unfold by_line_descending at 1.
    destruct (Z.leb_spec (v_line y - v_line x) 0) as [Hle|Hgt].
    + constructor; [constructor; assumption|].
      constructor; [unfold not_below; lia|].
      eapply Forall_impl; [exact Hy|]. unfold not_below. intros z Hz. lia.
    + constructor; [exact IH|].
      rewrite sort_insert_perm. constructor; [unfold not_below; lia | exact Hy].
Qed.

Lemma Array_sort_sorted (l : list Vulnerability) :
  StronglySorted not_below (Array_sort by_line_descending l).
Proof.
  unfold Array_sort. induction l as [|x l IH]; cbn [foldr]; [constructor|].
  apply sort_insert_sorted. exact IH.
Qed.

(** On distinct lines the order is strictly descending. *)
Lemma sorted_distinct_strict (l : list Vulnerability) :
  StronglySorted not_below l -> NoDup (map v_line l) -> StronglySorted above l.
Proof.
  induction 1 as [|x l Hl IH Hx]; intros Hnd; [constructor|].
  cbn [map] in Hnd. apply NoDup_cons in Hnd as [Hnotin Hnd].
  constructor; [apply IH; exact Hnd|].
  apply Forall_forall. intros y Hy.
  rewrite Forall_forall in Hx. specialize (Hx y Hy). unfold not_below, above in *.
  assert (v_line y <> v_line x).
  { intros Heq. apply Hnotin. rewrite <- Heq. apply list_elem_of_fmap. exists y. auto. }
  lia.
Qed.

End Sorting.

Section Batch.
Import JS Extension.

Variable lines : list string.
Hypothesis lines_single : Forall (fun l => split_nl l = [l]) lines.

(** One fix applied to a buffer whose first [k] lines are still those
    of the original, for a finding that targets one of them. *)
Lemma apply_fix_step (k : nat) (stail : list string) (v : Vulnerability) :
  k <= length lines ->
  (1 <= v_line v <= Z.of_nat k)%Z ->
  truthy_string (fixed_code v) = true ->
  exists stail',
    apply_fix lines (Ok (take k lines ++ flat_map split_nl stail)) v
    = Ok (take (Z.to_nat (v_line v - 1)) lines ++ flat_map split_nl stail')
    /\ insert_fix (take k lines ++ stail) v
       = take (Z.to_nat (v_line v - 1)) lines ++ stail'.
Proof.
  intros Hk Hline Htruthy.
  set (i := Z.to_nat (v_line v - 1)).
  assert (Hi : i < k) by lia.
  destruct (fixed_code v) as [fixedLine|] eqn:Hfix; [|discriminate Htruthy].
  destruct (lookup_lt_is_Some_2 lines i ltac:(lia)) as [originalLine Horig].
  exists (fixedLine :: drop (S i) (take k lines) ++ stail).
  split.
  - unfold apply_fix. cbn [bind]. rewrite Hfix, Htruthy.
    destruct (Z.ltb_spec (v_line v - 1) (Z.of_nat (length lines))) as [_|Hge]; [|lia].
    cbn [andb]. unfold Array_get.
    destruct (Z.leb_spec 0 (v_line v - 1)) as [_|Hneg]; [|lia].
    fold i. rewrite Horig. unfold replace_range.
    assert (Hdoc : (take k lines ++ flat_map split_nl stail) !! i = Some originalLine).
    { rewrite lookup_app_l by (rewrite length_take; lia).
      rewrite lookup_take_lt by lia. exact Horig. }
    rewrite Hdoc. rewrite string_drop_all, append_empty_r.
    rewrite take_app_le by (rewrite length_take; lia).
    rewrite take_take. replace (i `min` k) with i by lia.
    rewrite drop_app_le by (rewrite length_take; lia).
    cbn [flat_map]. rewrite flat_map_app.
    rewrite (flat_map_split_single (drop (S i) (take k lines))).
    2:{ apply Forall_drop, Forall_take. exact lines_single. }
    reflexivity.
  - unfold insert_fix. rewrite Hfix. fold i.
    rewrite insert_app_l by (rewrite length_take; lia).
    rewrite insert_take_drop by (rewrite length_take; lia).
    rewrite take_take. replace (i `min` k) with i by lia.
    rewrite <- app_assoc. reflexivity.
Qed.

(** The fixes applied one after the other, from the bottom up, give the
    buffer that holds every fix in the slot of its line. *)
Lemma apply_fixes_descending (vs : list Vulnerability) :
  forall (k : nat) (stail : list string),
    StronglySorted above vs ->
    Forall (fun v => (1 <= v_line v <= Z.of_nat k)%Z
                     /\ truthy_string (fixed_code v) = true) vs ->
    k <= length lines ->
    fold_left (apply_fix lines) vs (Ok (take k lines ++ flat_map split_nl stail))
    = Ok (flat_map split_nl (fold_left insert_fix vs (take k lines ++ stail))).
Proof.
  induction vs as [|v vs IH]; intros k stail Hsorted Hall Hk.
  - cbn [fold_left]. rewrite flat_map_app.
    rewrite (flat_map_split_single (take k lines)); [reflexivity|].
    apply Forall_take. exact lines_single.
  - cbn [fold_left].
    inversion Hsorted as [|? ? Hsorted' Habove]; subst.
    inversion Hall as [|? ? [Hline Htruthy] Hall']; subst.
    destruct (apply_fix_step k stail v Hk Hline Htruthy) as (stail' & Hdoc & Hslots).
    rewrite Hdoc, Hslots. apply IH.
    + exact Hsorted'.
    + rewrite Forall_forall in Habove, Hall' |- *. intros w Hw.
      destruct (Hall' w Hw) as [Hwl Hwt]. specialize (Habove w Hw).
      unfold above in Habove. split; [lia | exact Hwt].
    + lia.
Qed.

End Batch.

Section Slots.
Import JS Extension.

Lemma find_line (l : list Vulnerability) (v : Vulnerability) (x : Z) :
  NoDup (map v_line l) -> In v l -> v_line v = x ->
  List.find (fun w => (v_line w =? x)%Z) l = Some v.
Proof.
  induction l as [|w l IH]; intros Hnd Hin Hx; [destruct Hin|].
  cbn [map] in Hnd. apply NoDup_cons in Hnd as [Hnotin Hnd].
  cbn [List.find]. destruct (Z.eqb_spec (v_line w) x) as [Hw|Hw].
  - destruct Hin as [->|Hin]; [reflexivity|]. exfalso. apply Hnotin.
    rewrite Hw, <- Hx. apply list_elem_of_fmap. exists v.
    split; [reflexivity | apply list_elem_of_In; exact Hin].
  - destruct Hin as [->|Hin]; [contradiction|]. apply IH; assumption.
Qed.

Lemma find_line_perm (l l' : list Vulnerability) (x : Z) :
  NoDup (map v_line l) -> l ≡ₚ l' ->
  List.find (fun w => (v_line w =? x)%Z) l
  = List.find (fun w => (v_line w =? x)%Z) l'.
Proof.
  intros Hnd Hperm.
  destruct (List.find (fun w => (v_line w =? x)%Z) l') as [v|] eqn:E.
  - apply find_some in E as [Hin Hp]. apply Z.eqb_eq in Hp.
    apply find_line; [exact Hnd | | exact Hp].
    eapply Permutation_in; [symmetry; exact Hperm | exact Hin].
  - destruct (List.find (fun w => (v_line w =? x)%Z) l) as [v|] eqn:E2; [|reflexivity].
    apply find_some in E2 as [Hin Hp].
    pose proof (find_none _ _ E v (Permutation_in _ Hperm Hin)) as Hq.
    cbn beta in Hq. congruence.
Qed.

Lemma NoDup_lines_perm (l l' : list Vulnerability) :
  l ≡ₚ l' -> NoDup (map v_line l) -> NoDup (map v_line l').
Proof.
  intros Hperm Hnd. pose proof (Permutation_map v_line Hperm) as Hm.
  rewrite <- Hm. exact Hnd.
Qed.

Lemma insert_fixes_length (vs : list Vulnerability) (slots : list string) :
  length (fold_left insert_fix vs slots) = length slots.
Proof.
  revert slots. induction vs as [|v vs IH]; intros slots; [reflexivity|].
  cbn [fold_left]. rewrite IH. unfold insert_fix.
  destruct (fixed_code v); [apply length_insert | reflexivity].
Qed.

(** What the slots hold once every fix is in: the fix of the finding on
    that line, or the original line. *)
Lemma insert_fixes_lookup (vs : list Vulnerability) :
  forall (slots : list string) (j : nat),
    NoDup (map v_line vs) ->
    Forall (applicable slots) vs ->
    j < length slots ->
    fold_left insert_fix vs slots !! j
    = match List.find (fun w => (v_line w =? Z.of_nat j + 1)%Z) vs with
      | Some v => fixed_code v
      | None => slots !! j
      end.
Proof.
  induction vs as [|v vs IH]; intros slots j Hnd Hall Hj; [reflexivity|].
  cbn [map] in Hnd. apply NoDup_cons in Hnd as [Hnotin Hnd].
  inversion Hall as [|? ? [Hline Htruthy] Hall']; subst.
  destruct (fixed_code v) as [fixedLine|] eqn:Hfix; [|discriminate Htruthy].
  cbn [fold_left List.find]. unfold insert_fix at 2. rewrite Hfix.
  rewrite IH; [| exact Hnd | | rewrite length_insert; exact Hj].
  2:{ eapply Forall_impl; [exact Hall'|]. intros w [Hw1 Hw2].
      split; [rewrite length_insert; exact Hw1 | exact Hw2]. }
  destruct (Z.eqb_spec (v_line v) (Z.of_nat j + 1)) as [Heq|Hne].
  - replace (List.find (fun w => (v_line w =? Z.of_nat j + 1)%Z) vs) with (@None Vulnerability).
    + replace (Z.to_nat (v_line v - 1)) with j by lia.
      rewrite list_lookup_insert_eq by exact Hj. symmetry. exact Hfix.
    + symmetry. destruct (List.find _ vs) as [w|] eqn:E; [|reflexivity].
      apply find_some in E as [Hin Hw]. apply Z.eqb_eq in Hw. exfalso.
      apply Hnotin. rewrite Heq, <- Hw. apply list_elem_of_fmap. exists w.
      split; [reflexivity | apply list_elem_of_In; exact Hin].
  - destruct (List.find _ vs); [reflexivity|].
    apply list_lookup_insert_ne. lia.
Qed.

(** The slots filled one by one are the slots of the declarative
    reading, whatever the order of the findings. *)
Lemma insert_fixes_fixed_slots (vulns sorted : list Vulnerability) (lines : list string) :
  NoDup (map v_line vulns) ->
  Forall (applicable lines) vulns ->
  vulns ≡ₚ sorted ->
  fold_left insert_fix sorted lines = fixed_slots vulns lines.
Proof.
  intros Hnd Hall Hperm. apply list_eq. intros j.
  unfold fixed_slots. rewrite list_lookup_imap.
  destruct (lines !! j) as [l|] eqn:Hl.
  - rewrite insert_fixes_lookup.
    + rewrite <- (find_line_perm vulns sorted _ Hnd Hperm). unfold slot_fix.
      destruct (List.find _ vulns) as [v|] eqn:E; cbn [fmap option_fmap option_map].
      * apply find_some in E as [Hin _]. rewrite Forall_forall in Hall.
        destruct (Hall v (proj2 (list_elem_of_In _ _) Hin)) as [_ Htruthy].
        destruct (fixed_code v); [reflexivity | discriminate Htruthy].
      * exact Hl.
    + exact (NoDup_lines_perm vulns sorted Hperm Hnd).
    + rewrite <- Hperm. exact Hall.
    + eapply lookup_lt_Some. exact Hl.
  - cbn. apply lookup_ge_None. rewrite insert_fixes_length.
    apply lookup_ge_None. exact Hl.
Qed.

Lemma fixed_slots_target (vulns : list Vulnerability) (lines : list string)
    (v : Vulnerability) :
  NoDup (map v_line vulns) ->
  Forall (applicable lines) vulns ->
  In v vulns ->
  fixed_slots vulns lines !! Z.to_nat (v_line v - 1) = fixed_code v.
Proof.
  intros Hnd Hall Hin. rewrite Forall_forall in Hall.
  destruct (Hall v (proj2 (list_elem_of_In _ _) Hin)) as [Hline Htruthy].
  unfold fixed_slots. rewrite list_lookup_imap.
  destruct (lookup_lt_is_Some_2 lines (Z.to_nat (v_line v - 1)) ltac:(lia)) as [l Hl].
  rewrite Hl. cbn. unfold slot_fix.
  rewrite (find_line vulns v) by (auto; lia).
  destruct (fixed_code v); [reflexivity | discriminate Htruthy].
Qed.

Lemma fixed_slots_other (vulns : list Vulnerability) (lines : list string) (i : nat) :
  (forall v, In v vulns -> v_line v <> (Z.of_nat i + 1)%Z) ->
  fixed_slots vulns lines !! i = lines !! i.
Proof.
  intros Hnone. unfold fixed_slots. rewrite list_lookup_imap. unfold slot_fix.
  destruct (List.find _ vulns) as [v|] eqn:E.
  - apply find_some in E as [Hin Hv]. apply Z.eqb_eq in Hv.
    exfalso. exact (Hnone v Hin Hv).
  - destruct (lines !! i); reflexivity.
Qed.

End Slots.

(** C2.  When the fixes of a batch target distinct lines of a text, each
    inside the text and each with a fix to apply, they are applied in
    strictly descending order of line number, and the buffer they leave
    is the original with every target line holding its fix: the slot of
    each finding's line holds the fix of that finding, every other slot
    holds its original line, and the buffer is these slots, a fix of
    several lines spread over as many lines. *)
Theorem applyFixes_descending_batch (autoFix : bool) (choice : option string)
    (text : string) (vulnerabilities : list Extension.Vulnerability) :
  autoFix = true \/ choice = Some "Apply All" ->
  NoDup (map Extension.v_line vulnerabilities) ->
  Forall (Extension.applicable (JS.split_nl text)) vulnerabilities ->
  exists doc sortedVulns,
    Extension.applyFixes autoFix choice vulnerabilities (JS.split_nl text)
    = JS.Ok (doc, sortedVulns)
    /\ vulnerabilities ≡ₚ sortedVulns
    /\ StronglySorted
         (fun a b => (Extension.v_line b < Extension.v_line a)%Z) sortedVulns
    /\ doc = flat_map JS.split_nl
               (Extension.fixed_slots vulnerabilities (JS.split_nl text))
    /\ JS.join JS.nl doc
       = JS.join JS.nl (Extension.fixed_slots vulnerabilities (JS.split_nl text))
    /\ length (Extension.fixed_slots vulnerabilities (JS.split_nl text))
       = length (JS.split_nl text)
    /\ (forall v, In v vulnerabilities ->
          Extension.fixed_slots vulnerabilities (JS.split_nl text)
            !! Z.to_nat (Extension.v_line v - 1)
          = Extension.fixed_code v)
    /\ (forall i : nat,
          (forall v, In v vulnerabilities ->
             Extension.v_line v <> (Z.of_nat i + 1)%Z) ->
          Extension.fixed_slots vulnerabilities (JS.split_nl text) !! i
          = JS.split_nl text !! i).
Proof.
  intros Hgo Hnd Hall.
  set (lines := JS.split_nl text) in *.
  set (sorted := JS.Array_sort Extension.by_line_descending vulnerabilities).
  assert (Hperm : vulnerabilities ≡ₚ sorted)
    by (symmetry; apply Array_sort_perm).
  assert (Hstrict : StronglySorted Extension.above sorted).
  { apply sorted_distinct_strict; [apply Array_sort_sorted|].
    exact (NoDup_lines_perm vulnerabilities sorted Hperm Hnd). }
  assert (Hrun : fold_left (Extension.apply_fix lines) sorted (JS.Ok lines)
                 = JS.Ok (flat_map JS.split_nl
                            (Extension.fixed_slots vulnerabilities lines))).
  { pose proof (apply_fixes_descending lines (split_nl_lines_single text) sorted
                  (length lines) []) as Hseq.
    rewrite firstn_all in Hseq. cbn [flat_map] in Hseq.
    rewrite !app_nil_r in Hseq. rewrite Hseq; [| exact Hstrict | | lia].
    - rewrite (insert_fixes_fixed_slots vulnerabilities sorted lines Hnd Hall Hperm).
      reflexivity.
    - rewrite <- Hperm. exact Hall. }
  exists (flat_map JS.split_nl (Extension.fixed_slots vulnerabilities lines)), sorted.
  split; [|split; [exact Hperm | split; [exact Hstrict | split; [reflexivity|]]]].
  - unfold Extension.applyFixes.
    replace (negb autoFix
             && negb (match choice with
                      | Some c => String.eqb c "Apply All"
                      | None => false
                      end)) with false.
    + change (JS.Array_sort _ vulnerabilities) with sorted.
      rewrite Hrun. reflexivity.
    + destruct Hgo as [->| ->]; [reflexivity|].
      cbn. rewrite andb_false_r. reflexivity.
  - split; [apply join_flat_map_split|].
    split; [unfold Extension.fixed_slots; apply length_imap|].
    split.
    + intros v Hv. apply fixed_slots_target; assumption.
    + intros i Hi. apply fixed_slots_other. exact Hi.
Qed.

Lemma applyFixes_descending_batch_witness :
  Extension.outcome (Extension.performScan "python" (JS.split_nl Claims.python_text) [])
  = JS.Ok [Claims.pickle_finding; Claims.shell_finding]
  /\ exists sortedVulns,
       Extension.applyFixes true None [Claims.pickle_finding; Claims.shell_finding]
         (JS.split_nl Claims.python_text)
       = JS.Ok (["// TODO: Fix Pickle Unsafe vulnerability"; "pickle.loads(x)"; "ok";
                 "// TODO: Fix Shell Command Injection vulnerability"; "os.system(y)"],
                sortedVulns).
Proof.
  split; [vm_compute; reflexivity|].
  destruct (applyFixes_descending_batch true None Claims.python_text
              [Claims.pickle_finding; Claims.shell_finding])
    as (doc & sortedVulns & Happly & _ & _ & Hdoc & _).
  - left. reflexivity.
  - compute_done.
  - repeat constructor; vm_compute; congruence.
  - exists sortedVulns. rewrite Happly, Hdoc. vm_compute. reflexivity.
Defined.

(** The same two fixes applied from the top down: the first one moves
    the lines below it, and the second then overwrites the line that was
    second in the original and leaves its own target as it was. *)
Lemma ascending_order_corrupts :
  fold_left (Extension.apply_fix (JS.split_nl Claims.python_text))
    [Claims.pickle_finding; Claims.shell_finding]
    (JS.Ok (JS.split_nl Claims.python_text))
  = JS.Ok ["// TODO: Fix Pickle Unsafe vulnerability"; "pickle.loads(x)";
           "// TODO: Fix Shell Command Injection vulnerability"; "os.system(y)";
           "os.system(y)"].
Proof. vm_compute. reflexivity. Qed.

(* ================================================================== *)
(** * The rewriting of the Eval Usage entry is effective               *)
(* ================================================================== *)

Section EvalRewriting.
Import JS Extension.

Lemma clear_captures_nil (c : captures) : clear_captures [] c = c.
Proof.
  unfold clear_captures. induction c as [|p c IH]; [reflexivity|].
  simpl. f_equal. exact IH.
Qed.

Lemma run_ws_star (k : continuation) (n : nat) (s : string) (c : captures) :
  run ws_star true k n s c
  = match s with
    | String ch s' =>
        if is_space ch then
          match run ws_star true k (S n) s' c with
          | Some x => Some x
          | None => k n s c
          end
        else k n s c
    | EmptyString => k n s c
    end.
Proof.
  destruct s as [|ch s']; [reflexivity|].
  unfold ws_star at 1. cbn [run rep String.length atom_matches groups_in].
  rewrite clear_captures_nil.
  destruct (is_space ch); [|reflexivity].
  replace (n <? S n) with true by (symmetry; apply Nat.ltb_lt; lia).
  reflexivity.
Qed.

Lemma space_not_paren (ch : ascii) :
  is_space ch = true -> char_eqb true "(" ch = false.
Proof.
  destruct ch as [[] [] [] [] [] [] [] []]; vm_compute; congruence.
Qed.

Lemma run_ws_paren (s : string) (n : nat) (c : captures) :
  run ws_star true (run paren true final) n s c
  = match ws_paren s with
    | Some (k, rest) => Some (n + k, rest, c)
    | None => None
    end.
Proof.
  revert n. induction s as [|ch s IH]; intros n.
  - reflexivity.
  - rewrite run_ws_star. cbn [ws_paren].
    destruct (is_space ch) eqn:Hsp.
    + rewrite IH. destruct (ws_paren s) as [[k rest]|].
      * f_equal. f_equal. f_equal. lia.
      * cbn [run paren atom_matches]. rewrite (space_not_paren ch Hsp). reflexivity.
    + cbn [run paren atom_matches]. destruct (char_eqb true "(" ch); [|reflexivity].
      unfold final. f_equal. f_equal. f_equal. lia.
Qed.

Lemma match_here_eval (s : string) :
  match_here re_eval true s
  = match eval_len s with Some n => Some (n, []) | None => None end.
Proof.
  unfold match_here, re_eval.
  change (seq [lit "eval"; ws_star; lit "("])
    with (RSeq (RSeq (RAtom (AChar "e")) (RSeq (RAtom (AChar "v"))
            (RSeq (RAtom (AChar "a")) (RAtom (AChar "l")))))
            (RSeq ws_star paren)).
  destruct s as [|c1 [|c2 [|c3 [|c4 rest]]]]; cbn [run atom_matches eval_len].
  - reflexivity.
  - destruct (char_eqb true "e" c1); reflexivity.
  - destruct (char_eqb true "e" c1), (char_eqb true "v" c2); reflexivity.
  - destruct (char_eqb true "e" c1), (char_eqb true "v" c2), (char_eqb true "a" c3);
      reflexivity.
  - destruct (char_eqb true "e" c1), (char_eqb true "v" c2), (char_eqb true "a" c3),
      (char_eqb true "l" c4); cbn [andb]; try reflexivity.
    change (fun (n : nat) (s : string) (c : captures) => Some (n, s, c)) with final.
    rewrite run_ws_paren. destruct (ws_paren rest) as [[k r]|]; reflexivity.
Qed.

(** String facts *)
Lemma substring_drop (n : nat) (s : string) :
  substring 0 n s +:+ string_drop n s = s.
Proof.
  revert s. induction n as [|n IH]; intros s.
  - destruct s; reflexivity.
  - destruct s as [|c s]; [reflexivity|].
    cbn [substring string_drop]. change (String c (substring 0 n s) +:+ string_drop n s)
      with (String c (substring 0 n s +:+ string_drop n s)). rewrite IH. reflexivity.
Qed.

Lemma substring_length (n : nat) (s : string) :
  n <= String.length s -> String.length (substring 0 n s) = n.
Proof.
  revert s. induction n as [|n IH]; intros s Hn.
  - destruct s; reflexivity.
  - destruct s as [|c s]; cbn [String.length] in Hn; [lia|].
    cbn [substring String.length]. rewrite IH by lia. reflexivity.
Qed.

Lemma string_drop_length (n : nat) (s : string) :
  String.length (string_drop n s) = String.length s - n.
Proof.
  revert s. induction n as [|n IH]; intros s.
  - cbn. lia.
  - destruct s as [|c s]; [reflexivity|]. cbn [string_drop String.length]. apply IH.
Qed.

Lemma string_drop_app_l (k : nat) (a b : string) :
  k <= String.length a -> string_drop k (a +:+ b) = string_drop k a +:+ b.
Proof.
  revert a. induction k as [|k IH]; intros a Hk; [reflexivity|].
  destruct a as [|c a]; cbn [String.length] in Hk; [lia|].
  change (String c a +:+ b) with (String c (a +:+ b)). cbn [string_drop].
  apply IH. lia.
Qed.

Lemma string_drop_app_r (j : nat) (a b : string) :
  string_drop (String.length a + j) (a +:+ b) = string_drop j b.
Proof.
  induction a as [|c a IH]; [reflexivity|].
  change (String c a +:+ b) with (String c (a +:+ b)). exact IH.
Qed.

Lemma string_drop_add (a b : nat) (s : string) :
  string_drop (a + b) s = string_drop b (string_drop a s).
Proof.
  revert s. induction a as [|a IH]; intros s; [reflexivity|].
  destruct s as [|c s]; cbn [Nat.add string_drop]; [|apply IH].
  destruct b; reflexivity.
Qed.

(** Search facts *)
Lemma search_none (r : regex) (i : bool) (s : string) :
  search r i s = None <-> forall k, match_here r i (string_drop k s) = None.
Proof.
  induction s as [|ch s IH]; cbn [search].
  - destruct (match_here r i EmptyString) as [[n c]|] eqn:E.
    + split; [discriminate|]. intros H. specialize (H 0). cbn in H. congruence.
    + split; [|reflexivity]. intros _ [|k]; exact E.
  - destruct (match_here r i (String ch s)) as [[n c]|] eqn:E.
    + split; [discriminate|]. intros H. specialize (H 0). cbn in H. congruence.
    + destruct (search r i s) as [[[k n] c]|] eqn:Es.
      * split; [discriminate|]. intros H. exfalso.
        assert (Hnone : @None (nat * nat * captures) = Some (k, n, c)).
        { symmetry. apply (proj2 IH). intros k'. exact (H (S k')). }
        discriminate Hnone.
      * split; [|reflexivity]. intros _ [|k]; [exact E|].
        cbn [string_drop]. apply (proj1 IH eq_refl).
Qed.

Lemma search_some (r : regex) (i : bool) (s : string) (skip n : nat) (c : captures) :
  search r i s = Some (skip, n, c) ->
  match_here r i (string_drop skip s) = Some (n, c)
  /\ (forall k, k < skip -> match_here r i (string_drop k s) = None)
  /\ skip <= String.length s.
Proof.
  revert skip. induction s as [|ch s IH]; intros skip; cbn [search].
  - destruct (match_here r i EmptyString) as [[n' c']|] eqn:E; [|discriminate].
    intros H. injection H as <- <- <-. repeat split; [exact E | lia | cbn; lia].
  - destruct (match_here r i (String ch s)) as [[n' c']|] eqn:E.
    + intros H. injection H as <- <- <-. repeat split; [exact E | lia | cbn; lia].
    + destruct (search r i s) as [[[k' n'] c']|] eqn:Es; [|discriminate].
      intros H. injection H as <- <- <-.
      destruct (IH k' eq_refl) as (Hm & Hbefore & Hlen).
      repeat split; [exact Hm | | cbn; lia].
      intros [|k] Hk; [exact E|]. cbn [string_drop]. apply Hbefore. lia.
Qed.

(** The match of the eval pattern lies inside what precedes a J *)
Lemma ws_paren_before_J (p z w : string) (k : nat) (rest : string) :
  ws_paren (p +:+ String "J" z) = Some (k, rest) ->
  exists rest', ws_paren (p +:+ w) = Some (k, rest').
Proof.
  revert k rest. induction p as [|ch p IH]; intros k rest.
  - change (EmptyString +:+ String "J" z) with (String "J"%char z).
    cbn. discriminate.
  - change (String ch p +:+ String "J" z) with (String ch (p +:+ String "J" z)).
    change (String ch p +:+ w) with (String ch (p +:+ w)).
    cbn [ws_paren]. destruct (is_space ch).
    + destruct (ws_paren (p +:+ String "J" z)) as [[k' r]|] eqn:E; [|discriminate].
      intros H. injection H as <- <-.
      destruct (IH k' r eq_refl) as [rest' Hr]. rewrite Hr. eexists. reflexivity.
    + destruct (char_eqb true "(" ch); [|discriminate].
      intros H. injection H as <- <-. eexists. reflexivity.
Qed.

Lemma eval_len_before_J (p z w : string) (a : nat) :
  eval_len (p +:+ String "J" z) = Some a -> eval_len (p +:+ w) = Some a.
Proof.
  destruct p as [|c1 [|c2 [|c3 [|c4 p]]]].
  - change (EmptyString +:+ String "J" z) with (String "J"%char z).
    destruct z as [|? [|? [|? ?]]]; cbn; discriminate.
  - change (String c1 EmptyString +:+ String "J" z) with (String c1 (String "J"%char z)).
    destruct z as [|? [|? ?]]; cbn [eval_len]; try discriminate.
    replace (char_eqb true "v" "J") with false by reflexivity.
    rewrite andb_false_r. discriminate.
  - change (String c1 (String c2 EmptyString) +:+ String "J" z)
      with (String c1 (String c2 (String "J"%char z))).
    destruct z as [|? ?]; cbn [eval_len]; try discriminate.
    replace (char_eqb true "a" "J") with false by reflexivity.
    rewrite andb_false_r. discriminate.
  - change (String c1 (String c2 (String c3 EmptyString)) +:+ String "J" z)
      with (String c1 (String c2 (String c3 (String "J"%char z)))).
    cbn [eval_len].
    replace (char_eqb true "l" "J") with false by reflexivity.
    rewrite andb_false_r. discriminate.
  - change (String c1 (String c2 (String c3 (String c4 p))) +:+ String "J" z)
      with (String c1 (String c2 (String c3 (String c4 (p +:+ String "J" z))))).
    change (String c1 (String c2 (String c3 (String c4 p))) +:+ w)
      with (String c1 (String c2 (String c3 (String c4 (p +:+ w))))).
    cbn [eval_len].
    destruct (char_eqb true "e" c1 && char_eqb true "v" c2
              && char_eqb true "a" c3 && char_eqb true "l" c4); [|discriminate].
    destruct (ws_paren (p +:+ String "J" z)) as [[k r]|] eqn:E; [|discriminate].
    intros H. injection H as <-.
    destruct (ws_paren_before_J p z w k r E) as [rest' Hr]. rewrite Hr. reflexivity.
Qed.

Lemma eval_len_head (s : string) (a : nat) :
  eval_len s = Some a ->
  exists c1 c2 r, s = String c1 (String c2 r)
                  /\ char_eqb true "e" c1 = true /\ char_eqb true "v" c2 = true.
Proof.
  destruct s as [|c1 [|c2 [|c3 [|c4 rest]]]]; cbn [eval_len]; try discriminate.
  destruct (char_eqb true "e" c1) eqn:H1, (char_eqb true "v" c2) eqn:H2; cbn [andb];
    try discriminate.
  intros _. exists c1, c2, (String c3 (String c4 rest)). repeat split; assumption.
Qed.

Lemma eval_len_positive (s : string) (a : nat) : eval_len s = Some a -> 0 < a.
Proof.
  destruct s as [|c1 [|c2 [|c3 [|c4 rest]]]]; cbn [eval_len]; try discriminate.
  destruct (_ && _); [|discriminate].
  destruct (ws_paren rest) as [[k r]|]; [|discriminate].
  intros H. injection H as <-. lia.
Qed.

Lemma no_eval_in_json_parse (t : string) (j : nat) :
  j < 11 -> eval_len (string_drop j (json_parse +:+ t)) = None.
Proof.
  intros Hj.
  destruct (eval_len (string_drop j (json_parse +:+ t))) as [a|] eqn:E; [|reflexivity].
  exfalso. apply eval_len_head in E as (c1 & c2 & r & Hs & H1 & H2).
  change (json_parse +:+ t)
    with (String "J" (String "S" (String "O" (String "N" (String "." (String "p"
           (String "a" (String "r" (String "s" (String "e" (String "(" t)))))))))))
    in Hs.
  do 11 (destruct j as [|j];
         [cbn [string_drop] in Hs; injection Hs; intros; subst;
          vm_compute in H1; try discriminate H1;
          vm_compute in H2; discriminate H2 |]).
  lia.
Qed.

Lemma replace_eval_step (fuel : nat) (s : string) :
  replace_all (S fuel) re_eval true json_parse s
  = match search re_eval true s with
    | None => s
    | Some (skip, n, c) =>
        substring 0 skip s +:+ json_parse
        +:+ (if n =? 0 then
               match string_drop (skip + n) s with
               | EmptyString => EmptyString
               | String ch after' =>
                   String ch (replace_all fuel re_eval true json_parse after')
               end
             else replace_all fuel re_eval true json_parse (string_drop (skip + n) s))
    end.
Proof.
  cbn [replace_all]. destruct (search re_eval true s) as [[[skip n] c]|]; reflexivity.
Qed.

Lemma eval_len_of_match (s : string) (n : nat) (c : captures) :
  match_here re_eval true s = Some (n, c) -> eval_len s = Some n.
Proof.
  rewrite match_here_eval. destruct (eval_len s); [|discriminate].
  intros H. injection H as <- _. reflexivity.
Qed.

Lemma eval_len_no_match (s : string) :
  match_here re_eval true s = None -> eval_len s = None.
Proof. rewrite match_here_eval. destruct (eval_len s); [discriminate|reflexivity]. Qed.

(** The rewriting of the Eval Usage entry removes every match. *)
Lemma replace_eval_no_eval (fuel : nat) :
  forall s, String.length s < fuel ->
            no_eval (replace_all fuel re_eval true json_parse s).
Proof.
  induction fuel as [|fuel IH]; intros s Hlen; [lia|].
  rewrite replace_eval_step.
  destruct (search re_eval true s) as [[[skip n] c]|] eqn:Hsearch.
  - apply search_some in Hsearch as (Hm & Hbefore & Hskip).
    apply eval_len_of_match in Hm.
    pose proof (eval_len_positive _ _ Hm) as Hn.
    replace (n =? 0) with false by (symmetry; apply Nat.eqb_neq; lia).
    assert (Hrest : no_eval (replace_all fuel re_eval true json_parse
                               (string_drop (skip + n) s))).
    { apply IH. rewrite string_drop_length.
      assert (String.length (string_drop skip s) <> 0).
      { destruct (string_drop skip s); [discriminate Hm | cbn; lia]. }
      rewrite string_drop_length in H. lia. }
    set (t' := replace_all fuel re_eval true json_parse (string_drop (skip + n) s)) in *.
    intros k.
    destruct (Nat.lt_ge_cases k skip) as [Hk|Hk].
    + rewrite string_drop_app_l by (rewrite substring_length; lia).
      destruct (eval_len (string_drop k (substring 0 skip s) +:+ json_parse +:+ t'))
        as [a|] eqn:E; [|reflexivity].
      exfalso.
      apply (eval_len_before_J _ _ (string_drop skip s)) in E.
      rewrite <- string_drop_app_l in E by (rewrite substring_length; lia).
      rewrite substring_drop in E.
      rewrite (eval_len_no_match _ (Hbefore k Hk)) in E. discriminate E.
    + replace k with (String.length (substring 0 skip s) + (k - skip))
        by (rewrite substring_length; lia).
      rewrite string_drop_app_r.
      destruct (Nat.lt_ge_cases (k - skip) 11) as [Hj|Hj].
      * apply no_eval_in_json_parse. exact Hj.
      * replace (k - skip) with (String.length json_parse + (k - skip - 11))
          by (cbn; lia).
        rewrite string_drop_app_r. apply Hrest.
  - intros k. apply eval_len_no_match. apply (proj1 (search_none _ _ _) Hsearch).
Qed.

Lemma search_none_intro (r : regex) (i : bool) (s : string) :
  (forall k, match_here r i (string_drop k s) = None) -> test_literal r i s = false.
Proof.
  intros H. unfold test_literal. rewrite (proj2 (search_none r i s) H). reflexivity.
Qed.

Lemma eval_rewriting_effective (line : string) :
  test_literal re_eval true (String_replace re_eval true json_parse line) = false.
Proof.
  apply search_none_intro. intros k. rewrite match_here_eval.
  unfold String_replace.
  rewrite (replace_eval_no_eval (S (String.length line)) line (Nat.lt_succ_diag_r _) k).
  reflexivity.
Qed.

End EvalRewriting.

Section Findings.
Import JS Extension.

Lemma scan_pattern_findings (language line : string) (index : nat)
    (vs vs' : list Vulnerability) (h h' : heap) (p : Pattern) (v : Vulnerability) :
  scan_pattern language line index (Ok (vs, h)) p = Ok (vs', h') ->
  In v vs' ->
  In v vs
  \/ exists fixed,
       generateFix line p language h' = Ok (fixed, h')
       /\ v = mkVulnerability (pat_type p) (pat_severity p)
                (Z.of_nat index + 1) (pat_description p) (Some fixed).
Proof.
  intros Hstep Hin.
  apply scan_pattern_returns in Hstep as [_ [[_ ->]|(_ & _ & fixed & Hfix & ->)]];
    [auto|].
  apply in_app_or in Hin as [Hin|[<-|[]]]; [auto|].
  right. exists fixed. split; [apply Hfix | reflexivity].
Qed.

Lemma fold_patterns_findings (language line : string) (index : nat)
    (ps : list Pattern) (vs vs' : list Vulnerability) (h h' : heap)
    (v : Vulnerability) :
  fold_left (scan_pattern language line index) ps (Ok (vs, h)) = Ok (vs', h') ->
  In v vs' ->
  In v vs
  \/ exists p h1 fixed, In p ps
       /\ generateFix line p language h1 = Ok (fixed, h1)
       /\ v = mkVulnerability (pat_type p) (pat_severity p)
                (Z.of_nat index + 1) (pat_description p) (Some fixed).
Proof.
  revert vs h. induction ps as [|p ps IH]; intros vs h Hfold Hin.
  - injection Hfold as <- _. auto.
  - apply fold_patterns_Ok in Hfold as ([vs1 h1] & Hstep & Hrest).
    destruct (IH vs1 h1 Hrest Hin) as [Hin1|(q & h2 & fixed & Hq & Hfix & Hv)].
    + destruct (scan_pattern_findings language line index vs vs1 h h1 p v Hstep Hin1)
        as [Hold|(fixed & Hfix & Hv)]; [auto|].
      right. exists p, h1, fixed. split; [left; reflexivity | auto].
    + right. exists q, h2, fixed. split; [right; exact Hq | auto].
Qed.

Lemma scan_lines_findings (language : string) (ps : list Pattern)
    (lines : list string) (index : nat) (vs vs' : list Vulnerability) (h h' : heap)
    (v : Vulnerability) :
  scan_lines language ps index lines (Ok (vs, h)) = Ok (vs', h') ->
  In v vs' ->
  In v vs \/ produced language ps lines index v.
Proof.
  revert index vs h. induction lines as [|line rest IH]; intros index vs h Hscan Hin.
  - injection Hscan as <- _. auto.
  - apply scan_lines_Ok in Hscan as ([vs1 h1] & Hfold & Hrest).
    destruct (IH (S index) vs1 h1 Hrest Hin) as [Hin1|Hprod].
    + destruct (fold_patterns_findings language line index ps vs vs1 h h1 v Hfold Hin1)
        as [Hold|(p & h2 & fixed & Hp & Hfix & Hv)]; [auto|].
      right. exists 0, line, p, h2, h2, fixed. repeat split; try assumption.
      rewrite Nat.add_0_r. exact Hv.
    + right. destruct Hprod as (k & l & p & h2 & h3 & fixed & Hk & Hp & Hfix & Hv).
      exists (S k), l, p, h2, h3, fixed. repeat split; try assumption.
      rewrite Hv. do 2 f_equal. lia.
Qed.

Lemma performScan_findings (language : string) (lines : list string) (h h' : heap)
    (findings : list Vulnerability) (v : Vulnerability) :
  performScan language lines h = Ok (findings, h') ->
  In v findings ->
  produced language (fst (getVulnerabilityPatterns language h)) lines 0 v.
Proof.
  unfold performScan.
  destruct (getVulnerabilityPatterns language h) as [ps h1]. cbn [fst].
  intros Hscan Hin.
  destruct (scan_lines_findings language ps lines 0 [] findings h1 h' v Hscan Hin)
    as [[]|Hprod]. exact Hprod.
Qed.

(** Every finding points at a line of the text that was scanned. *)
Lemma performScan_line_in_range (language : string) (lines : list string) (h h' : heap)
    (findings : list Vulnerability) (v : Vulnerability) :
  performScan language lines h = Ok (findings, h') ->
  In v findings ->
  (1 <= v_line v <= Z.of_nat (length lines))%Z.
Proof.
  intros Hscan Hin.
  destruct (performScan_findings language lines h h' findings v Hscan Hin)
    as (k & line & p & h1 & h2 & fixed & Hk & _ & _ & ->).
  apply lookup_lt_Some in Hk. cbn [v_line]. lia.
Qed.

(** X24.  The fix of every Eval Usage finding no longer matches the Eval
    Usage pattern. *)
Lemma eval_usage_fix_effective (language : string) (lines : list string) (h : heap)
    (findings : list Vulnerability) (v : Vulnerability) :
  outcome (performScan language lines h) = Ok findings ->
  In v findings ->
  v_type v = "Eval Usage" ->
  exists fixed,
    fixed_code v = Some fixed /\ test_literal re_eval true fixed = false.
Proof.
  intros Hscan Hin Hty. apply outcome_Ok in Hscan as [h' Hscan].
  destruct (performScan_findings language lines h h' findings v Hscan Hin)
    as (k & line & p & h1 & h2 & fixed & _ & _ & Hfix & ->).
  cbn [v_type fixed_code] in *.
  exists fixed. split; [reflexivity|].
  unfold generateFix in Hfix. rewrite Hty in Hfix.
  cbn [String.eqb Ascii.eqb Bool.eqb] in Hfix. injection Hfix as <- _.
  apply eval_rewriting_effective.
Qed.

Lemma eval_usage_fix_effective_witness :
  exists fixed,
    Some "x = JSON.parse(y)" = Some fixed /\ test_literal re_eval true fixed = false.
Proof.
  apply (eval_usage_fix_effective "javascript" ["let a = 1;"; "x = eval(y)"] []
           [mkVulnerability "Eval Usage" high 2
              "Use of eval() function is dangerous" (Some "x = JSON.parse(y)")]
           (mkVulnerability "Eval Usage" high 2
              "Use of eval() function is dangerous" (Some "x = JSON.parse(y)"))).
  - vm_compute. reflexivity.
  - left. reflexivity.
  - reflexivity.
Defined.

End Findings.

(* ================================================================== *)
(** * The bounds of the matcher are never reached                      *)
(* ================================================================== *)

Section MatcherBounds.
Import JS.

Lemma prefix_ci_length (i : bool) (t s s' : string) :
  prefix_ci i t s = Some s' -> String.length s = String.length t + String.length s'.
Proof.
  revert s. induction t as [|a t IH]; intros s; cbn [prefix_ci].
  - intros H. injection H as <-. reflexivity.
  - destruct s as [|b s]; [discriminate|].
    destruct (char_eqb i a b); [|discriminate].
    intros H. cbn [String.length]. rewrite (IH s H). reflexivity.
Qed.

Lemma rep_ext (body : continuation -> continuation) (greedy : bool) :
  extensional body ->
  forall fuel N k1 k2, agree N k1 k2 ->
                       agree N (rep body greedy k1 fuel) (rep body greedy k2 fuel).
Proof.
  intros Hbody. induction fuel as [|fuel IH]; intros N k1 k2 Hk n s c Hn.
  - cbn [rep]. apply Hk. exact Hn.
  - cbn [rep]. rewrite (Hk n s c Hn).
    assert (Hin : body (fun n' s' c' =>
                          if n <? n' then rep body greedy k1 fuel n' s' c' else None) n s c
                  = body (fun n' s' c' =>
                            if n <? n' then rep body greedy k2 fuel n' s' c' else None) n s c).
    { apply (Hbody N); [|exact Hn]. intros n' s' c' Hn'.
      destruct (n <? n'); [|reflexivity]. apply (IH N k1 k2 Hk). exact Hn'. }
    rewrite Hin. reflexivity.
Qed.

Lemma run_ext (r : regex) (i : bool) : extensional (run r i).
Proof.
  induction r as [|a|r1 IH1 r2 IH2|r1 IH1 r2 IH2|g r IH|j r IH|j];
    intros N k1 k2 Hk n s c Hn; cbn [run].
  - apply Hk. exact Hn.
  - destruct s as [|ch s]; [reflexivity|].
    destruct (atom_matches i a ch); [|reflexivity].
    apply Hk. cbn [String.length] in Hn. lia.
  - apply (IH1 N); [|exact Hn]. apply IH2. exact Hk.
  - rewrite (IH1 N k1 k2 Hk n s c Hn), (IH2 N k1 k2 Hk n s c Hn). reflexivity.
  - apply (rep_ext _ g) with (N := N); [|exact Hk|exact Hn].
    intros N' k1' k2' Hk' n' s' c' Hn'. apply (IH N'); assumption.
  - apply (IH N); [|exact Hn]. intros n' s' c' Hn'. apply Hk. exact Hn'.
  - destruct (get_capture j c) as [t|]; [|apply Hk; exact Hn].
    destruct (prefix_ci i t s) as [s'|] eqn:E; [|reflexivity].
    apply Hk. apply prefix_ci_length in E. lia.
Qed.

Lemma rep_fails (body : continuation -> continuation) (greedy : bool) :
  extensional body ->
  (forall n s c, body fails n s c = None) ->
  forall fuel n s c, rep body greedy fails fuel n s c = None.
Proof.
  intros Hext Hfail. induction fuel as [|fuel IH]; intros n s c; [reflexivity|].
  cbn [rep].
  assert (Hin : body (fun n' s' c' =>
                        if n <? n' then rep body greedy fails fuel n' s' c' else None) n s c
                = None).
  { transitivity (body fails n s c); [|apply Hfail].
    apply (Hext (n + String.length s)); [|reflexivity].
    intros n' s' c' _. destruct (n <? n'); [apply IH | reflexivity]. }
  rewrite Hin. destruct greedy; reflexivity.
Qed.

Lemma run_fails (r : regex) (i : bool) (n : nat) (s : string) (c : captures) :
  run r i fails n s c = None.
Proof.
  revert n s c.
  induction r as [|a|r1 IH1 r2 IH2|r1 IH1 r2 IH2|g r IH|j r IH|j];
    intros n s c; cbn [run].
  - reflexivity.
  - destruct s as [|ch s]; [reflexivity|]. destruct (atom_matches i a ch); reflexivity.
  - transitivity (run r1 i fails n s c); [|apply IH1].
    apply (run_ext r1 i (n + String.length s)); [|reflexivity].
    intros n' s' c' _. apply IH2.
  - rewrite IH1, IH2. reflexivity.
  - apply rep_fails.
    + intros N k1 k2 Hk n' s' c' Hn'. apply (run_ext r i N); assumption.
    + intros n' s' c'. apply IH.
  - transitivity (run r i fails n s c); [|apply IH].
    apply (run_ext r i (n + String.length s)); [|reflexivity].
    intros n' s' c' _. reflexivity.
  - destruct (get_capture j c); [|reflexivity]. destruct (prefix_ci i s0 s); reflexivity.
Qed.

(** The bound of the quantifier loop is never what stops it. *)
Lemma rep_fuel (body : continuation -> continuation) (greedy : bool) (k : continuation) :
  extensional body ->
  (forall n s c, body fails n s c = None) ->
  forall f1 f2 n s c,
    String.length s <= f1 -> String.length s <= f2 ->
    rep body greedy k f1 n s c = rep body greedy k f2 n s c.
Proof.
  intros Hext Hfail.
  assert (Hstuck : forall f n s c,
             String.length s = 0 ->
             body (fun n' s' c' =>
                     if n <? n' then rep body greedy k f n' s' c' else None) n s c
             = None).
  { intros f n s c Hs. transitivity (body fails n s c); [|apply Hfail].
    apply (Hext (n + String.length s)); [|reflexivity].
    intros n' s' c' Hn'. destruct (Nat.ltb_spec n n'); [lia | reflexivity]. }
  induction f1 as [|f1 IH]; intros f2 n s c H1 H2.
  - destruct f2 as [|f2]; [reflexivity|]. cbn [rep].
    rewrite Hstuck by lia. destruct greedy; [reflexivity|].
    destruct (k n s c); reflexivity.
  - destruct f2 as [|f2].
    + cbn [rep]. rewrite Hstuck by lia. destruct greedy; [reflexivity|].
      destruct (k n s c); reflexivity.
    + cbn [rep].
      assert (Hin : body (fun n' s' c' =>
                            if n <? n' then rep body greedy k f1 n' s' c' else None) n s c
                    = body (fun n' s' c' =>
                              if n <? n' then rep body greedy k f2 n' s' c' else None) n s c).
      { apply (Hext (n + String.length s)); [|reflexivity].
        intros n' s' c' Hn'. destruct (Nat.ltb_spec n n'); [|reflexivity].
        apply IH; lia. }
      rewrite Hin. reflexivity.
Qed.

Lemma star_fuel (r : regex) (i greedy : bool) (k : continuation) (fuel n : nat)
    (s : string) (c : captures) :
  String.length s <= fuel ->
  rep (star_body r i) greedy k fuel n s c = run (RStar greedy r) i k n s c.
Proof.
  intros Hfuel. cbn [run]. apply rep_fuel; [| |exact Hfuel|lia].
  - intros N k1 k2 Hk n' s' c' Hn'. apply (run_ext r i N); assumption.
  - intros n' s' c'. apply run_fails.
Qed.

Lemma rep_tracked (body : continuation -> continuation) (greedy : bool) :
  tracking body ->
  forall fuel N k, tracked N k -> tracked N (rep body greedy k fuel).
Proof.
  intros Hbody. induction fuel as [|fuel IH]; intros N k Hk n s c n' s' c' Hn;
    cbn [rep]; [apply Hk; exact Hn|].
  assert (Hin : tracked N (fun n1 s1 c1 =>
                             if n <? n1 then rep body greedy k fuel n1 s1 c1 else None)).
  { intros n1 s1 c1 n2 s2 c2 Hn1. destruct (n <? n1); [|discriminate].
    apply (IH N k Hk). exact Hn1. }
  pose proof (Hbody N _ Hin n s c n' s' c' Hn) as Hb.
  destruct greedy.
  - destruct (body _ n s c) as [[[n1 s1] c1]|].
    + intros H. apply Hb. exact H.
    + apply Hk. exact Hn.
  - destruct (k n s c) as [[[n1 s1] c1]|] eqn:E.
    + intros H. injection H as <- <- <-. eapply Hk; [exact Hn | exact E].
    + exact Hb.
Qed.

Lemma run_tracked (r : regex) (i : bool) : tracking (run r i).
Proof.
  induction r as [|a|r1 IH1 r2 IH2|r1 IH1 r2 IH2|g r IH|j r IH|j];
    intros N k Hk n s c n' s' c' Hn; cbn [run].
  - apply Hk. exact Hn.
  - destruct s as [|ch s]; [discriminate|].
    destruct (atom_matches i a ch); [|discriminate].
    apply Hk. cbn [String.length] in Hn. lia.
  - apply (IH1 N); [|exact Hn]. apply IH2. exact Hk.
  - destruct (run r1 i k n s c) as [[[n1 s1] c1]|] eqn:E.
    + intros H. injection H as <- <- <-. eapply (IH1 N k Hk); [exact Hn | exact E].
    + apply (IH2 N k Hk). exact Hn.
  - apply (rep_tracked _ g) with (N := N); [|exact Hk|exact Hn].
    intros N' k' Hk' n1 s1 c1 n2 s2 c2 Hn1. apply (IH N' k' Hk'). exact Hn1.
  - apply (IH N); [|exact Hn].
    intros n1 s1 c1 n2 s2 c2 Hn1. apply Hk. exact Hn1.
  - destruct (get_capture j c) as [t|]; [|apply Hk; exact Hn].
    destruct (prefix_ci i t s) as [s1|] eqn:E; [|discriminate].
    apply Hk. apply prefix_ci_length in E. lia.
Qed.

(** A match is no longer than the text it is found in. *)
Lemma match_here_bound (r : regex) (i : bool) (s : string) (n : nat) (c : captures) :
  match_here r i s = Some (n, c) -> n <= String.length s.
Proof.
  unfold match_here.
  destruct (run r i (fun n s' c => Some (n, s', c)) 0 s []) as [[[n1 s1] c1]|] eqn:E;
    [|discriminate].
  intros H. injection H as <- <-.
  assert (Hfinal : tracked (String.length s) (fun n s' c => Some (n, s', c))).
  { intros n2 s2 c2 n3 s3 c3 Hn H. injection H as <- <- <-. exact Hn. }
  pose proof (run_tracked r i (String.length s) _ Hfinal 0 s [] n1 s1 c1 eq_refl E).
  lia.
Qed.

Lemma search_bound (r : regex) (i : bool) (s : string) (skip n : nat) (c : captures) :
  search r i s = Some (skip, n, c) -> skip + n <= String.length s.
Proof.
  revert skip. induction s as [|ch s IH]; intros skip; cbn [search].
  - destruct (match_here r i EmptyString) as [[n' c']|] eqn:E; [|discriminate].
    intros H. injection H as <- <- <-. apply match_here_bound in E. cbn in *. lia.
  - destruct (match_here r i (String ch s)) as [[n' c']|] eqn:E.
    + intros H. injection H as <- <- <-. apply match_here_bound in E. lia.
    + destruct (search r i s) as [[[k' n'] c']|] eqn:Es; [|discriminate].
      intros H. injection H as <- <- <-. specialize (IH k' eq_refl).
      cbn [String.length]. lia.
Qed.

(** The bound of the replacement loop is never what stops it. *)
Lemma replace_all_fuel (r : regex) (i : bool) (template : string) :
  forall f1 f2 s,
    String.length s < f1 -> String.length s < f2 ->
    replace_all f1 r i template s = replace_all f2 r i template s.
Proof.
  induction f1 as [|f1 IH]; intros f2 s H1 H2; [lia|].
  destruct f2 as [|f2]; [lia|]. cbn [replace_all].
  destruct (search r i s) as [[[skip n] c]|] eqn:E; [|reflexivity].
  apply search_bound in E.
  pose proof (string_drop_length (skip + n) s) as Hlen.
  f_equal. f_equal. destruct (Nat.eqb_spec n 0) as [Hn|Hn].
  - destruct (string_drop (skip + n) s) as [|ch after]; [reflexivity|].
    f_equal. cbn [String.length] in Hlen. apply IH; lia.
  - apply IH; lia.
Qed.

End MatcherBounds.

(* ================================================================== *)
(** * The matcher and the language of a pattern                        *)
(* ================================================================== *)

Section PatternLanguage.
Import JS Extension.

Lemma append_assoc (a b c : string) : (a +:+ b) +:+ c = a +:+ (b +:+ c).
Proof.
  induction a as [|ch a IH]; [reflexivity|].
  change (String ch ((a +:+ b) +:+ c) = String ch (a +:+ (b +:+ c))). f_equal. exact IH.
Qed.

Lemma append_length (a b : string) :
  String.length (a +:+ b) = String.length a + String.length b.
Proof.
  induction a as [|ch a IH]; [reflexivity|].
  change (S (String.length (a +:+ b)) = S (String.length a + String.length b)).
  f_equal. exact IH.
Qed.

Lemma star_body_ok (r : regex) (i : bool) :
  extensional (fun k' n' s' c' => run r i k' n' s' (clear_captures (groups_in r) c'))
  /\ (forall n s c,
        (fun k' n' s' c' => run r i k' n' s' (clear_captures (groups_in r) c'))
          fails n s c = None).
Proof.
  split.
  - intros N k1 k2 Hk n' s' c' Hn'. apply (run_ext r i N); assumption.
  - intros n' s' c'. apply run_fails.
Qed.

(** Completeness: what the pattern accepts at the start of the text, the
    matcher finds, whenever what follows succeeds on the rest. *)
Lemma run_complete (i : bool) (r : regex) (w : string) :
  accepts i r w ->
  forall (k : continuation) (n : nat) (s : string),
    (forall c, k (n + String.length w) s c <> None) ->
    forall c, run r i k n (w +:+ s) c <> None.
Proof.
  induction 1 as [|a ch Ha|r1 r2 w1 w2 _ IH1 _ IH2|r1 r2 w _ IH|r1 r2 w _ IH
                  |g r|g r w1 w2 _ IH1 _ IH2|j r w _ IH];
    intros k n s Hk c.
  - cbn [run]. change (EmptyString +:+ s) with s.
    rewrite <- (Nat.add_0_r n). apply Hk.
  - change (String ch EmptyString +:+ s) with (String ch s). cbn [run]. rewrite Ha.
    replace (S n) with (n + 1) by lia. apply Hk.
  - cbn [run]. rewrite append_assoc. apply IH1. intros c'. apply IH2.
    intros c''. rewrite <- Nat.add_assoc, <- append_length. apply Hk.
  - cbn [run]. specialize (IH k n s Hk c).
    destruct (run r1 i k n (w +:+ s) c); [discriminate | contradiction].
  - cbn [run]. destruct (run r1 i k n (w +:+ s) c); [discriminate|].
    apply IH. exact Hk.
  - change (EmptyString +:+ s) with s. cbn [run].
    specialize (Hk c). cbn [String.length] in Hk. rewrite Nat.add_0_r in Hk.
    destruct (String.length s) as [|fuel]; cbn [rep]; [exact Hk|].
    destruct g.
    + destruct (run r i _ n s _); [discriminate | exact Hk].
    + destruct (k n s c); [discriminate | contradiction].
  - destruct w1 as [|ch w1].
    + change (EmptyString +:+ w2) with w2. apply IH2. exact Hk.
    + cbn [run]. rewrite append_assoc.
      change (String ch w1 +:+ w2 +:+ s) with (String ch (w1 +:+ w2 +:+ s)).
      cbn [String.length rep].
      assert (Hbody : forall c',
                 run r i
                   (fun n' s' c'' =>
                      if n <? n'
                      then rep (fun k' n1 s1 c1 =>
                                  run r i k' n1 s1 (clear_captures (groups_in r) c1))
                             g k (String.length (w1 +:+ w2 +:+ s)) n' s' c''
                      else None)
                   n (String ch (w1 +:+ w2 +:+ s)) c' <> None).
      { intros c'.
        change (String ch (w1 +:+ w2 +:+ s)) with (String ch w1 +:+ (w2 +:+ s)).
        apply IH1. intros c''.
        replace (n <? n + String.length (String ch w1)) with true
          by (symmetry; apply Nat.ltb_lt; cbn [String.length]; lia).
        destruct (star_body_ok r i) as [Hext Hfail].
        rewrite (rep_fuel _ g k Hext Hfail _ (String.length (w2 +:+ s))).
        - specialize (IH2 k (n + String.length (String ch w1)) s).
          cbn [run] in IH2. apply IH2. intros c3.
          rewrite <- Nat.add_assoc, <- append_length. apply Hk.
        - rewrite !append_length. lia.
        - lia. }
      destruct g.
      * specialize (Hbody (clear_captures (groups_in r) c)).
        destruct (run r i _ n _ _); [discriminate | contradiction].
      * destruct (k n (String ch (w1 +:+ w2 +:+ s)) c); [discriminate|].
        apply Hbody.
  - cbn [run]. apply IH. intros c'. apply Hk.
Qed.

(** Soundness: where the matcher of a pattern without backreferences
    succeeds, it has consumed a string the pattern accepts. *)
Lemma run_sound (i : bool) (r : regex) :
  no_backref r = true ->
  forall (k : continuation) (n : nat) (s : string) (c : captures) x,
    run r i k n s c = Some x ->
    exists w s' c',
      s = w +:+ s' /\ accepts i r w /\ k (n + String.length w) s' c' = Some x.
Proof.
  induction r as [|a|r1 IH1 r2 IH2|r1 IH1 r2 IH2|g r IH|j r IH|j];
    cbn [no_backref]; intros Hnb k n s c x Hrun.
  - exists EmptyString, s, c. cbn [run] in Hrun. cbn [String.length].
    rewrite Nat.add_0_r. repeat split; [constructor | exact Hrun].
  - cbn [run] in Hrun. destruct s as [|ch s]; [discriminate|].
    destruct (atom_matches i a ch) eqn:Ha; [|discriminate].
    exists (String ch EmptyString), s, c. cbn [String.length].
    replace (n + 1) with (S n) by lia.
    repeat split; [constructor; exact Ha | exact Hrun].
  - apply andb_prop in Hnb as [Hnb1 Hnb2]. cbn [run] in Hrun.
    destruct (IH1 Hnb1 _ _ _ _ _ Hrun) as (w1 & s1 & c1 & -> & Hacc1 & Hrun2).
    destruct (IH2 Hnb2 _ _ _ _ _ Hrun2) as (w2 & s2 & c2 & -> & Hacc2 & Hk).
    exists (w1 +:+ w2), s2, c2. rewrite append_assoc, append_length, Nat.add_assoc.
    repeat split; [constructor; assumption | exact Hk].
  - apply andb_prop in Hnb as [Hnb1 Hnb2]. cbn [run] in Hrun.
    destruct (run r1 i k n s c) eqn:H1.
    + destruct (IH1 Hnb1 _ _ _ _ _ H1) as (w & s' & c' & -> & Hacc & Hk).
      exists w, s', c'. injection Hrun as <-.
      repeat split; [apply acc_alt_l; exact Hacc | exact Hk].
    + destruct (IH2 Hnb2 _ _ _ _ _ Hrun) as (w & s' & c' & -> & Hacc & Hk).
      exists w, s', c'. repeat split; [apply acc_alt_r; exact Hacc | exact Hk].
  - cbn [run] in Hrun. remember (String.length s) as fuel eqn:Hfuel. clear Hfuel.
    revert n s c Hrun.
    induction fuel as [|fuel IHf]; intros n s c Hrun; cbn [rep] in Hrun.
    + exists EmptyString, s, c. cbn [String.length]. rewrite Nat.add_0_r.
      repeat split; [constructor | exact Hrun].
    + assert (Hbody : forall c0,
                 run r i
                   (fun n' s' c' =>
                      if n <? n'
                      then rep (fun k' n1 s1 c1 =>
                                  run r i k' n1 s1 (clear_captures (groups_in r) c1))
                             g k fuel n' s' c'
                      else None) n s c0 = Some x ->
                 exists w s' c',
                   s = w +:+ s' /\ accepts i (RStar g r) w
                   /\ k (n + String.length w) s' c' = Some x).
      { intros c0 Hb.
        destruct (IH Hnb _ _ _ _ _ Hb) as (w1 & s1 & c1 & -> & Hacc1 & Hcont).
        destruct (n <? n + String.length w1); [|discriminate].
        destruct (IHf _ _ _ Hcont) as (w2 & s2 & c2 & -> & Hacc2 & Hk).
        exists (w1 +:+ w2), s2, c2.
        rewrite append_assoc, append_length, Nat.add_assoc.
        repeat split; [apply acc_star_cons; assumption | exact Hk]. }
      assert (Hnil : k n s c = Some x ->
                     exists w s' c',
                       s = w +:+ s' /\ accepts i (RStar g r) w
                       /\ k (n + String.length w) s' c' = Some x).
      { intros Hk. exists EmptyString, s, c. cbn [String.length].
        rewrite Nat.add_0_r. repeat split; [constructor | exact Hk]. }
      destruct g.
      * destruct (run r i _ n s (clear_captures (groups_in r) c)) eqn:Hb.
        -- injection Hrun as ->. eapply Hbody. exact Hb.
        -- apply Hnil. exact Hrun.
      * destruct (k n s c) eqn:Hk0.
        -- injection Hrun as ->. apply Hnil. reflexivity.
        -- eapply Hbody. exact Hrun.
  - cbn [run] in Hrun.
    destruct (IH Hnb _ _ _ _ _ Hrun) as (w & s' & c' & -> & Hacc & Hk).
    exists w, s', (set_capture j (substring 0 (n + String.length w - n) (w +:+ s')) c').
    repeat split; [constructor; exact Hacc | exact Hk].
  - discriminate.
Qed.

Lemma match_here_complete (i : bool) (r : regex) (w s : string) :
  accepts i r w -> match_here r i (w +:+ s) <> None.
Proof.
  intros Hacc. unfold match_here.
  pose proof (run_complete i r w Hacc (fun n s' c => Some (n, s', c)) 0 s
                ltac:(discriminate) []) as H.
  destruct (run r i _ 0 (w +:+ s) []) as [[[n s'] c]|]; [discriminate | contradiction].
Qed.

Lemma match_here_sound (i : bool) (r : regex) (s : string) (n : nat) (c : captures) :
  no_backref r = true ->
  match_here r i s = Some (n, c) ->
  exists w s', s = w +:+ s' /\ accepts i r w /\ n = String.length w.
Proof.
  intros Hnb. unfold match_here.
  destruct (run r i _ 0 s []) as [[[n0 s0] c0]|] eqn:Hrun; [|discriminate].
  intros H. injection H; intros; subst.
  destruct (run_sound i r Hnb _ _ _ _ _ Hrun) as (w & s' & c' & -> & Hacc & Hk).
  injection Hk; intros; subst. exists w, s0. auto.
Qed.

Lemma accepts_whole (i : bool) (r : regex) (t : string) (c : captures) :
  no_backref r = true ->
  match_here r i t = Some (String.length t, c) ->
  accepts i r t.
Proof.
  intros Hnb Hm.
  destruct (match_here_sound i r t _ c Hnb Hm) as (w & s' & -> & Hacc & Hlen).
  rewrite append_length in Hlen. destruct s'; [|cbn [String.length] in Hlen; lia].
  rewrite append_empty_r. exact Hacc.
Qed.

(** The test of a pattern succeeds on every text that contains a string
    the pattern accepts. *)
Lemma test_literal_complete (i : bool) (r : regex) (pre t post : string) :
  accepts i r t -> test_literal r i (pre +:+ t +:+ post) = true.
Proof.
  intros Hacc. apply test_literal_skip. apply match_here_complete. exact Hacc.
Qed.

(** And, for a pattern without backreferences, on no other text. *)
Lemma test_literal_sound (i : bool) (r : regex) (s : string) :
  no_backref r = true ->
  test_literal r i s = true ->
  exists pre t post, s = pre +:+ t +:+ post /\ accepts i r t.
Proof.
  intros Hnb. unfold test_literal.
  destruct (search r i s) as [[[skip n] c]|] eqn:Hs; [|discriminate].
  intros _. apply search_some in Hs as (Hm & _ & Hskip).
  destruct (match_here_sound i r _ n c Hnb Hm) as (w & s' & Hsplit & Hacc & _).
  exists (substring 0 skip s), w, s'. split; [|exact Hacc].
  rewrite <- Hsplit. symmetry. apply substring_drop.
Qed.

(** No pattern of the catalog has a backreference. *)
Lemma catalog_no_backref (entry : Entry) :
  In entry (base_entries ++ python_entries) -> no_backref (e_regex entry) = true.
Proof.
  cbn [base_entries python_entries app In]. intros Hentry.
  repeat (destruct Hentry as [<-|Hentry]; [reflexivity|]). destruct Hentry.
Qed.

(** The listed trigger substrings are accepted by the pattern of their
    entry. *)
Lemma triggers_accepted (entry : Entry) (t : string) :
  In entry (base_entries ++ python_entries) ->
  In t (Claims.triggers (e_type entry)) ->
  Claims.trigger entry t.
Proof.
  intros Hentry Ht. unfold Claims.trigger.
  cbn [base_entries python_entries app In] in Hentry.
  repeat (destruct Hentry as [<-|Hentry];
          [cbn in Ht;
           repeat (destruct Ht as [<-|Ht];
                   [eapply accepts_whole; [reflexivity | vm_compute; reflexivity]|]);
           destruct Ht |]).
  destruct Hentry.
Qed.

End PatternLanguage.

(** C6 (the code departs from the claim).  The claim: when a line of the
    text contains a trigger substring of an entry of the catalog, the
    scan reports a finding of the type of the entry.  The Weak Crypto
    case of [generateFix] throws, so the first line that the Weak Crypto
    pattern matches ends the scan: for the text [md5(data)], which holds
    the trigger [md5(], nothing is reported; and a line with [eval(]
    that comes before such a line is not reported either. *)
Theorem weak_crypto_line_aborts_the_scan :
  let entry := Extension.mkEntry "Weak Crypto" medium Extension.re_weak_crypto
                 "Weak cryptographic algorithm detected"
                 "Use stronger algorithms like SHA-256 or bcrypt" in
  In entry (Extension.entries_for "javascript")
  /\ Claims.trigger entry "md5("
  /\ In (EmptyString +:+ "md5(" +:+ "data)") (JS.split_nl "md5(data)")
  /\ Extension.scan "md5(data)" "javascript" [] = JS.Throw JS.ReferenceError
  /\ Extension.scan ("x = eval(y)" +:+ JS.nl +:+ "md5(data)") "javascript" []
     = JS.Throw JS.ReferenceError.
Proof.
  cbn zeta. split; [vm_compute; tauto|]. split.
  - eapply accepts_whole; [reflexivity | vm_compute; reflexivity].
  - split; [vm_compute; tauto|]. split; vm_compute; reflexivity.
Qed.

(* ================================================================== *)
(** * The findings of a scan come from the text                      *)
(* ================================================================== *)

Section ScannerSound.
Import JS Extension ExtensionFacts.

Lemma RegExp_test_holds (r : regex) (i : nat) (S : string) :
  exists j, snd (RegExp_test (set_lastIndex (literal r true true) i) S)
            = set_lastIndex (literal r true true) j.
Proof.
  unfold RegExp_test, RegExpBuiltinExec, set_lastIndex. cbn [literal global lastIndex source ignoreCase].
  destruct (String.length S <? i); [exists 0; reflexivity|].
  destruct (search r true (string_drop i S)) as [[[k n] c]|]; eexists; reflexivity.
Qed.

Lemma heap_test_holds (h : heap) (ref ref' : nat) (r : regex) (S : string) :
  holds h ref r -> holds (snd (heap_test ref' S h)) ref r.
Proof.
  intros [i Hi]. destruct (Nat.eq_dec ref ref') as [<-|Hne].
  - unfold heap_test. rewrite Hi.
    destruct (RegExp_test_holds r i S) as [j Hj].
    destruct (RegExp_test _ S) as [b R']. cbn [snd] in *. subst R'.
    exists j. apply list_lookup_insert_eq. eapply lookup_lt_Some. exact Hi.
  - exists i. rewrite heap_test_other by exact Hne. exact Hi.
Qed.

Lemma scan_pattern_holds (h h' : heap) (ref : nat) (r : regex) (language line : string)
    (index : nat) (vs vs' : list Vulnerability) (p : Pattern) :
  scan_pattern language line index (Ok (vs, h)) p = Ok (vs', h') ->
  holds h ref r -> holds h' ref r.
Proof.
  intros Hstep Hh. apply scan_pattern_returns in Hstep as [-> _].
  apply heap_test_holds. exact Hh.
Qed.

(** A successful test finds, in the text, a string the pattern accepts. *)
Lemma heap_test_sound (h : heap) (ref : nat) (r : regex) (S : string) :
  no_backref r = true ->
  holds h ref r ->
  fst (heap_test ref S h) = true ->
  exists pre t post, S = pre +:+ t +:+ post /\ accepts true r t.
Proof.
  intros Hnb [i Hi]. unfold heap_test. rewrite Hi.
  unfold RegExp_test, RegExpBuiltinExec, set_lastIndex.
  cbn [literal global lastIndex source ignoreCase].
  destruct (String.length S <? i); [intros H; discriminate H|].
  destruct (search r true (string_drop i S)) as [[[k n] c]|] eqn:Hs;
    [|intros H; discriminate H].
  intros _. apply search_some in Hs as (Hm & _ & _).
  rewrite <- string_drop_add in Hm.
  destruct (match_here_sound true r _ n c Hnb Hm) as (w & s' & Hsplit & Hacc & _).
  exists (substring 0 (i + k) S), w, s'. split; [|exact Hacc].
  rewrite <- Hsplit. symmetry. apply substring_drop.
Qed.

(** No pattern of the catalog matches in the empty string. *)
Lemma catalog_rejects_empty (entry : Entry) :
  In entry (base_entries ++ python_entries) ->
  search (e_regex entry) true EmptyString = None.
Proof.
  cbn [base_entries python_entries app In]. intros Hentry.
  repeat (destruct Hentry as [<-|Hentry]; [vm_compute; reflexivity|]). destruct Hentry.
Qed.

Lemma entries_for_all (language : string) (entry : Entry) :
  In entry (entries_for language) -> In entry (base_entries ++ python_entries).
Proof.
  unfold entries_for. destruct (String.eqb language "python"); [auto|].
  intros H. apply in_or_app. left. exact H.
Qed.

Lemma append_nonempty_r (a b : string) : b <> EmptyString -> a +:+ b <> EmptyString.
Proof.
  intros Hb. destruct a as [|c a]; [exact Hb|].
  change (String c a +:+ b) with (String c (a +:+ b)). discriminate.
Qed.

Lemma append_nonempty_l (a b : string) : a <> EmptyString -> a +:+ b <> EmptyString.
Proof.
  intros Ha. destruct a as [|c a]; [contradiction|].
  change (String c a +:+ b) with (String c (a +:+ b)). discriminate.
Qed.

(** A replacement with a substitution that is never empty leaves no
    text empty. *)
Lemma String_replace_nonempty (r : regex) (i : bool) (template S : string) :
  (forall matched c, GetSubstitution matched c (count_groups r) template <> EmptyString) ->
  S <> EmptyString ->
  String_replace r i template S <> EmptyString.
Proof.
  intros Hsub HS. unfold String_replace. cbn [replace_all].
  destruct (search r i S) as [[[skip n] c]|]; [|exact HS].
  apply append_nonempty_r. apply append_nonempty_l. apply Hsub.
Qed.

(** The fix of a line that is not empty is not empty. *)
Lemma generateFix_nonempty (line language fixed : string) (p : Pattern) (h h' : heap) :
  generateFix line p language h = Ok (fixed, h') ->
  line <> EmptyString -> fixed <> EmptyString.
Proof.
  intros Hfix Hline.
  assert (Hplain : forall r i template,
             (forall matched c,
                 GetSubstitution matched c (count_groups r) template <> EmptyString) ->
             String_replace r i template line <> EmptyString).
  { intros r i template Hsub. apply String_replace_nonempty; assumption. }
  revert Hfix. unfold generateFix.
  repeat match goal with
         | |- context [if String.eqb ?a ?b then _ else _] => destruct (String.eqb a b)
         end.
  all: try (destruct (heap_test (pat_regex p) "md5" h) as [b h1]; destruct b;
            intros H; discriminate H).
  all: intros H; injection H as <- _.
  all: try (apply Hplain; intros matched c;
            match goal with
            | |- GetSubstitution ?m ?c0 ?n ?tpl <> _ =>
                let t := eval vm_compute in tpl in
                let k := eval vm_compute in n in
                change (GetSubstitution m c0 n tpl) with (GetSubstitution m c0 k t)
            end; cbn;
            first [discriminate | apply append_nonempty_r; discriminate]).
  all: apply append_nonempty_l; discriminate.
Qed.

(** Where a finding of one step comes from. *)
Lemma scan_pattern_origin (language line : string) (index : nat)
    (vs vs' : list Vulnerability) (h h' : heap) (p : Pattern) (v : Vulnerability) :
  scan_pattern language line index (Ok (vs, h)) p = Ok (vs', h') ->
  In v vs' ->
  In v vs
  \/ (fst (heap_test (pat_regex p) line h) = true
      /\ exists fixed,
           generateFix line p language h' = Ok (fixed, h')
           /\ v = mkVulnerability (pat_type p) (pat_severity p)
                    (Z.of_nat index + 1) (pat_description p) (Some fixed)).
Proof.
  intros Hstep Hin.
  apply scan_pattern_returns in Hstep as [_ [[_ ->]|(Hf & _ & fixed & Hfix & ->)]];
    [auto|].
  apply in_app_or in Hin as [Hin|[<-|[]]]; [auto|].
  right. split; [exact Hf|]. exists fixed. split; [apply Hfix | reflexivity].
Qed.

Lemma fold_patterns_grounded (language line : string) (index : nat) (es : list Entry)
    (ps : list Pattern) (vs vs' : list Vulnerability) (h h' : heap) (v : Vulnerability) :
  Forall (fun e => no_backref (e_regex e) = true
                   /\ search (e_regex e) true EmptyString = None) es ->
  Forall (fun p => exists e, In e es /\ stands_for h p e) ps ->
  fold_left (scan_pattern language line index) ps (Ok (vs, h)) = Ok (vs', h') ->
  In v vs' ->
  In v vs \/ grounded es [line] index v.
Proof.
  intros Hes. revert vs h. induction ps as [|p ps IH]; intros vs h Hps Hfold Hin.
  { injection Hfold as <- _. auto. }
  inversion Hps as [|? ? (e & He & Hty & Hsev & Hdesc & Hh) Hps']; subst.
  apply fold_patterns_Ok in Hfold as ([vs1 h1] & Hstep & Hrest).
  assert (Hps1 : Forall (fun p => exists e, In e es /\ stands_for h1 p e) ps).
  { eapply Forall_impl; [exact Hps'|]. intros q (e' & He' & Hty' & Hsev' & Hdesc' & Hh').
    exists e'. split; [exact He'|]. repeat split; try assumption.
    eapply scan_pattern_holds; eassumption. }
  destruct (IH vs1 h1 Hps1 Hrest Hin) as [Hin1|Hg]; [|auto].
  destruct (scan_pattern_origin language line index vs vs1 h h1 p v Hstep Hin1)
    as [Hold|[Htest (fixed & Hfix & Hv)]]; [auto|].
  right. rewrite Forall_forall in Hes.
  destruct (Hes e (proj2 (list_elem_of_In _ _) He)) as [Hnb Hempty].
  destruct (heap_test_sound h (pat_regex p) (e_regex e) line Hnb Hh Htest)
    as (pre & t & post & Hline & Hacc).
  exists 0, line, e, pre, t, post, fixed.
  repeat split; try assumption.
  - rewrite Nat.add_0_r, <- Hty, <- Hsev, <- Hdesc. exact Hv.
  - eapply generateFix_nonempty; [exact Hfix|]. intros ->.
    destruct Hh as [i Hi]. unfold heap_test in Htest. rewrite Hi in Htest.
    unfold RegExp_test, RegExpBuiltinExec, set_lastIndex in Htest.
    cbn [literal global lastIndex source ignoreCase String.length] in Htest.
    destruct (0 <? i); [discriminate Htest|].
    replace (string_drop i EmptyString) with EmptyString in Htest by (destruct i; reflexivity).
    rewrite Hempty in Htest. discriminate Htest.
Qed.

Lemma fold_patterns_holds (h h' : heap) (ref : nat) (r : regex) (language line : string)
    (index : nat) (ps : list Pattern) (vs vs' : list Vulnerability) :
  fold_left (scan_pattern language line index) ps (Ok (vs, h)) = Ok (vs', h') ->
  holds h ref r -> holds h' ref r.
Proof.
  revert vs h. induction ps as [|p ps IH]; intros vs h Hfold Hh.
  - injection Hfold as _ <-. exact Hh.
  - apply fold_patterns_Ok in Hfold as ([vs1 h1] & Hstep & Hrest).
    eapply IH; [exact Hrest|]. eapply scan_pattern_holds; eassumption.
Qed.

Lemma scan_lines_grounded (language : string) (es : list Entry) (ps : list Pattern)
    (lines : list string) (index : nat) (vs vs' : list Vulnerability) (h h' : heap)
    (v : Vulnerability) :
  Forall (fun e => no_backref (e_regex e) = true
                   /\ search (e_regex e) true EmptyString = None) es ->
  Forall (fun p => exists e, In e es /\ stands_for h p e) ps ->
  scan_lines language ps index lines (Ok (vs, h)) = Ok (vs', h') ->
  In v vs' ->
  In v vs \/ grounded es lines index v.
Proof.
  intros Hes. revert index vs h.
  induction lines as [|line rest IH]; intros index vs h Hps Hscan Hin.
  { injection Hscan as <- _. auto. }
  apply scan_lines_Ok in Hscan as ([vs1 h1] & Hfold & Hrest).
  assert (Hps1 : Forall (fun p => exists e, In e es /\ stands_for h1 p e) ps).
  { eapply Forall_impl; [exact Hps|]. intros q (e' & He' & Hty' & Hsev' & Hdesc' & Hh').
    exists e'. split; [exact He'|]. repeat split; try assumption.
    eapply fold_patterns_holds; eassumption. }
  destruct (IH (S index) vs1 h1 Hps1 Hrest Hin) as [Hin1|Hg].
  - destruct (fold_patterns_grounded language line index es ps vs vs1 h h1 v
                Hes Hps Hfold Hin1) as [Hold|Hg]; [auto|].
    right. destruct Hg as (k & l & e & pre & t & post & fixed & Hk & Hrest').
    destruct k as [|k]; [|destruct k; discriminate Hk].
    injection Hk as <-. exists 0, line, e, pre, t, post, fixed. split; [reflexivity|].
    exact Hrest'.
  - right. destruct Hg as (k & l & e & pre & t & post & fixed & Hk & He & Hv & Hrest').
    exists (S k), l, e, pre, t, post, fixed. repeat split; try tauto.
    rewrite Hv. do 2 f_equal. lia.
Qed.

Lemma catalog_stands_for (language : string) (h : heap) :
  Forall (fun p => exists e, In e (entries_for language)
                             /\ stands_for (snd (getVulnerabilityPatterns language h)) p e)
    (fst (getVulnerabilityPatterns language h)).
Proof.
  rewrite getVulnerabilityPatterns_instantiate, instantiate_patterns, instantiate_heap.
  apply Forall_forall. intros p Hp.
  apply list_elem_of_lookup in Hp as [k Hk].
  rewrite list_lookup_imap in Hk.
  destruct (entries_for language !! k) as [e|] eqn:He; [|discriminate Hk].
  cbn in Hk. injection Hk as <-.
  exists e. split; [apply list_elem_of_In; eapply list_elem_of_lookup_2; exact He|].
  repeat split. exists 0. cbn [pat_regex].
  rewrite lookup_app_r by lia. replace (length h + k - length h) with k by lia.
  rewrite list_lookup_fmap, He. reflexivity.
Qed.

Lemma catalog_wellformed (language : string) :
  Forall (fun e => no_backref (e_regex e) = true
                   /\ search (e_regex e) true EmptyString = None)
    (entries_for language).
Proof.
  apply Forall_forall. intros e He. apply list_elem_of_In, entries_for_all in He.
  split; [apply catalog_no_backref | apply catalog_rejects_empty]; exact He.
Qed.

End ScannerSound.

Lemma performScan_grounded (language : string) (lines : list string)
    (h h' : list JS.RegExp) (findings : list Extension.Vulnerability)
    (v : Extension.Vulnerability) :
  Extension.performScan language lines h = JS.Ok (findings, h') ->
  In v findings ->
  ExtensionFacts.grounded (Extension.entries_for language) lines 0 v.
Proof.
  unfold Extension.performScan. intros Hscan Hin.
  pose proof (catalog_stands_for language h) as Hps.
  destruct (Extension.getVulnerabilityPatterns language h) as [ps h1]. cbn [fst snd] in *.
  destruct (scan_lines_grounded language (Extension.entries_for language) ps
              lines 0 [] findings h1 h' v (catalog_wellformed language) Hps Hscan Hin)
    as [[]|Hg].
  exact Hg.
Qed.

(** X1.  Every finding of a scan is grounded: it names a line of the text,
    by its number, and an entry of the catalog of the language, whose
    type, severity and description it carries; the line contains a
    string that the pattern of the entry accepts; and the finding comes
    with a fix that is not empty. *)
Theorem scan_findings_grounded (language text : string) (h : list JS.RegExp)
    (findings : list Extension.Vulnerability) (v : Extension.Vulnerability) :
  Extension.outcome (Extension.scan text language h) = JS.Ok findings ->
  In v findings ->
  exists (k : nat) (line : string) (e : Extension.Entry) (pre t post fixed : string),
    JS.split_nl text !! k = Some line
    /\ In e (Extension.entries_for language)
    /\ v = Extension.mkVulnerability (Extension.e_type e) (Extension.e_severity e)
             (Z.of_nat k + 1) (Extension.e_description e) (Some fixed)
    /\ line = pre +:+ t +:+ post
    /\ Claims.trigger e t
    /\ fixed <> EmptyString.
Proof.
  unfold Extension.scan. intros Hscan Hin.
  apply outcome_Ok in Hscan as [h' Hscan].
  exact (performScan_grounded language (JS.split_nl text) h h' findings v Hscan Hin).
Qed.

Lemma scan_findings_grounded_witness :
  exists (k : nat) (line : string) (e : Extension.Entry) (pre t post fixed : string),
    JS.split_nl ("let a = 1;" +:+ JS.nl +:+ "x = eval(y)") !! k = Some line
    /\ In e (Extension.entries_for "javascript")
    /\ Extension.mkVulnerability "Eval Usage" high 2
         "Use of eval() function is dangerous" (Some "x = JSON.parse(y)")
       = Extension.mkVulnerability (Extension.e_type e) (Extension.e_severity e)
           (Z.of_nat k + 1) (Extension.e_description e) (Some fixed)
    /\ line = pre +:+ t +:+ post
    /\ Claims.trigger e t
    /\ fixed <> EmptyString.
Proof.
  apply (scan_findings_grounded "javascript" ("let a = 1;" +:+ JS.nl +:+ "x = eval(y)") []
           [Extension.mkVulnerability "Eval Usage" high 2
              "Use of eval() function is dangerous" (Some "x = JSON.parse(y)")]).
  - vm_compute. reflexivity.
  - left. reflexivity.
Defined.

(* ================================================================== *)
(** * The tests of one pattern along the lines                       *)
(* ================================================================== *)

Section ScannerTrace.
Import JS Extension ExtensionFacts ExtensionTrace.

Lemma heap_test_step (h : heap) (ref : nat) (r : regex) (i : nat) (S : string) :
  h !! ref = Some (object r i) ->
  fst (heap_test ref S h) = fst (step r i S)
  /\ snd (heap_test ref S h) = <[ref := object r (snd (step r i S))]> h.
Proof.
  intros Hi. unfold heap_test. rewrite Hi.
  unfold step, RegExp_test, RegExpBuiltinExec, object, set_lastIndex.
  cbn [literal global lastIndex source ignoreCase].
  destruct (String.length S <? i); [split; reflexivity|].
  destruct (search r true (string_drop i S)) as [[[k n] c]|]; split; reflexivity.
Qed.

(** The step of the scan for the pattern itself, when it returns. *)
Lemma scan_pattern_self (language line : string) (index : nat)
    (vs vs' : list Vulnerability) (h h' : heap) (p : Pattern) (r : regex) (i : nat) :
  h !! pat_regex p = Some (object r i) ->
  scan_pattern language line index (Ok (vs, h)) p = Ok (vs', h') ->
  let b := fst (step r i line) in
  let j := snd (step r i line) in
  h' !! pat_regex p = Some (object r j)
  /\ (b = true ->
      pat_type p <> "Weak Crypto"
      /\ exists fixed,
           vs' = vs ++ [mkVulnerability (pat_type p) (pat_severity p)
                          (Z.of_nat index + 1) (pat_description p) (Some fixed)])
  /\ (b = false -> vs' = vs).
Proof.
  intros Hi Hstep. cbn zeta.
  assert (Hlt : pat_regex p < length h) by (eapply lookup_lt_Some; exact Hi).
  destruct (heap_test_step h (pat_regex p) r i line Hi) as [Hb Hh].
  apply scan_pattern_returns in Hstep as [-> Hcases].
  rewrite Hh, <- Hb. split; [apply list_lookup_insert_eq; exact Hlt|].
  destruct Hcases as [[Hf ->]|(Hf & Hty & fixed & _ & ->)]; rewrite Hf.
  - split; [intros H; discriminate H | reflexivity].
  - split; [intros _; split; [exact Hty | exists fixed; reflexivity]
           | intros H; discriminate H].
Qed.

Lemma fold_patterns_types (language line : string) (index : nat) (ps : list Pattern)
    (vs vs' : list Vulnerability) (h h' : heap) (v : Vulnerability) :
  fold_left (scan_pattern language line index) ps (Ok (vs, h)) = Ok (vs', h') ->
  In v vs' ->
  In v vs \/ exists q, In q ps /\ v_type v = pat_type q.
Proof.
  intros Hfold Hin.
  destruct (fold_patterns_findings language line index ps vs vs' h h' v Hfold Hin)
    as [Hold|(q & h1 & fixed & Hq & _ & ->)]; [auto|].
  right. exists q. split; [exact Hq | reflexivity].
Qed.

(** One line of the scan, seen from one pattern [p] that alone holds its
    reference and alone has its type. *)
Lemma fold_patterns_self (language line : string) (index : nat)
    (pre post : list Pattern) (vs vs' : list Vulnerability) (h h' : heap) (p : Pattern)
    (r : regex) (i : nat) :
  Forall (fun q => pat_regex p <> pat_regex q) pre ->
  Forall (fun q => pat_regex p <> pat_regex q) post ->
  Forall (fun q => pat_type p <> pat_type q) pre ->
  Forall (fun q => pat_type p <> pat_type q) post ->
  h !! pat_regex p = Some (object r i) ->
  fold_left (scan_pattern language line index) (pre ++ p :: post) (Ok (vs, h))
  = Ok (vs', h') ->
  let b := fst (step r i line) in
  let j := snd (step r i line) in
  h' !! pat_regex p = Some (object r j)
  /\ (forall v, In v vs -> In v vs')
  /\ (b = true ->
      pat_type p <> "Weak Crypto"
      /\ exists fixed,
           In (mkVulnerability (pat_type p) (pat_severity p) (Z.of_nat index + 1)
                 (pat_description p) (Some fixed)) vs')
  /\ (forall v, In v vs' -> v_type v = pat_type p ->
                In v vs \/ (b = true /\ v_line v = (Z.of_nat index + 1)%Z)).
Proof.
  intros Hpre Hpost Tpre Tpost Hi Hfold. cbn zeta.
  apply fold_patterns_app_Ok in Hfold as ([vs1 h1] & Hfpre & Hrest).
  apply fold_patterns_Ok in Hrest as ([vs2 h2] & Hstep & Hfpost).
  pose proof (fold_patterns_other (pat_regex p) language line index pre vs vs1 h h1
                Hpre Hfpre) as Hp.
  assert (Hi1 : h1 !! pat_regex p = Some (object r i)) by congruence.
  destruct (scan_pattern_self language line index vs1 vs2 h1 h2 p r i Hi1 Hstep)
    as (Hobj & Hhit & Hmiss).
  pose proof (fold_patterns_other (pat_regex p) language line index post vs2 vs' h2 h'
                Hpost Hfpost) as Hq.
  split; [congruence|]. split; [|split].
  - intros v Hv.
    eapply fold_patterns_keeps; [exact Hfpost|].
    eapply scan_pattern_keeps; [exact Hstep|].
    eapply fold_patterns_keeps; eassumption.
  - intros Hb. destruct (Hhit Hb) as [Hty [fixed ->]]. split; [exact Hty|].
    exists fixed. eapply fold_patterns_keeps; [exact Hfpost|].
    apply in_or_app. right. left. reflexivity.
  - intros v Hin Hty.
    destruct (fold_patterns_types language line index post vs2 vs' h2 h' v Hfpost Hin)
      as [Hin2|(q & Hq' & Htq)].
    2:{ exfalso. rewrite Forall_forall in Tpost.
        apply (Tpost q (proj2 (list_elem_of_In _ _) Hq')). congruence. }
    assert (Hfrom1 : In v vs1 -> In v vs).
    { intros Hin1.
      destruct (fold_patterns_types language line index pre vs vs1 h h1 v Hfpre Hin1)
        as [Hold|(q & Hq' & Htq)]; [exact Hold|].
      exfalso. rewrite Forall_forall in Tpre.
      apply (Tpre q (proj2 (list_elem_of_In _ _) Hq')). congruence. }
    destruct (fst (step r i line)) eqn:Hb.
    + destruct (Hhit eq_refl) as [_ [fixed ->]].
      apply in_app_or in Hin2 as [Hin1|[<-|[]]]; [auto | right; split; reflexivity].
    + rewrite (Hmiss eq_refl) in Hin2. auto.
Qed.

(** The scan of the lines, seen from that pattern: its findings are the
    lines on which its trace says true. *)
Lemma scan_lines_self (language : string) (pre post : list Pattern) (p : Pattern)
    (r : regex) (lines : list string) :
  Forall (fun q => pat_regex p <> pat_regex q) pre ->
  Forall (fun q => pat_regex p <> pat_regex q) post ->
  Forall (fun q => pat_type p <> pat_type q) pre ->
  Forall (fun q => pat_type p <> pat_type q) post ->
  forall (index : nat) (vs vs' : list Vulnerability) (h h' : heap) (i : nat),
    h !! pat_regex p = Some (object r i) ->
    scan_lines language (pre ++ p :: post) index lines (Ok (vs, h)) = Ok (vs', h') ->
    (forall v, In v vs -> In v vs')
    /\ (forall k, trace r i lines !! k = Some true ->
                  pat_type p <> "Weak Crypto"
                  /\ exists fixed,
                       In (mkVulnerability (pat_type p) (pat_severity p)
                             (Z.of_nat (index + k) + 1) (pat_description p) (Some fixed))
                          vs')
    /\ (forall v, In v vs' -> v_type v = pat_type p ->
                  In v vs
                  \/ exists k, trace r i lines !! k = Some true
                               /\ v_line v = (Z.of_nat (index + k) + 1)%Z).
Proof.
  intros Hpre Hpost Tpre Tpost.
  induction lines as [|line rest IH]; intros index vs vs' h h' i Hi Hscan.
  - injection Hscan as <- _. cbn [trace]. split; [auto|]. split; [|auto].
    intros k Hk. rewrite lookup_nil in Hk. discriminate Hk.
  - apply scan_lines_Ok in Hscan as ([vs1 h1] & Hfold & Hrest).
    destruct (fold_patterns_self language line index pre post vs vs1 h h1 p r i
                Hpre Hpost Tpre Tpost Hi Hfold) as (Hobj & Hkeep & Hhit & Hsound).
    destruct (IH (S index) vs1 vs' h1 h' _ Hobj Hrest) as (Hkeep' & Hhit' & Hsound').
    cbn [trace]. split; [auto|]. split.
    + intros [|k] Hk.
      * cbn in Hk. injection Hk as Hb. destruct (Hhit Hb) as [Hty [fixed Hin]].
        split; [exact Hty|]. exists fixed. apply Hkeep'. rewrite Nat.add_0_r. exact Hin.
      * cbn in Hk. destruct (Hhit' k Hk) as [Hty [fixed Hin]].
        split; [exact Hty|]. exists fixed.
        replace (index + S k) with (S index + k) by lia. exact Hin.
    + intros v Hin Hty. destruct (Hsound' v Hin Hty) as [Hin1|(k & Hk & Hline)].
      * destruct (Hsound v Hin1 Hty) as [Hold|[Hb Hline]]; [auto|].
        right. exists 0. split; [cbn; f_equal; exact Hb|].
        rewrite Nat.add_0_r. exact Hline.
      * right. exists (S k). split; [exact Hk|].
        replace (index + S k) with (S index + k) by lia. exact Hline.
Qed.

Lemma catalog_types_NoDup (language : string) :
  NoDup (map e_type (entries_for language)).
Proof.
  unfold entries_for. destruct (String.eqb language "python"); compute_done.
Qed.

Lemma catalog_retests (e : Entry) :
  In e (base_entries ++ python_entries) ->
  e_type e = "Weak Crypto" -> e_regex e = re_weak_crypto.
Proof.
  cbn [base_entries python_entries app In]. intros He.
  repeat (destruct He as [<-|He]; [cbn; intros H; first [reflexivity | discriminate H]|]).
  destruct He.
Qed.

(** The findings of a scan that returns, for one entry of the catalog,
    are the lines on which the trace of its pattern says true; and the
    trace of the Weak Crypto pattern never says true in such a scan. *)
Lemma performScan_entry (language : string) (lines : list string) (h h' : heap)
    (findings : list Vulnerability) (e : Entry) :
  In e (entries_for language) ->
  performScan language lines h = Ok (findings, h') ->
  (forall k, trace (e_regex e) 0 lines !! k = Some true ->
             e_type e <> "Weak Crypto"
             /\ exists fixed,
                  In (mkVulnerability (e_type e) (e_severity e) (Z.of_nat k + 1)
                        (e_description e) (Some fixed)) findings)
  /\ (forall v, In v findings -> v_type v = e_type e ->
                exists k, trace (e_regex e) 0 lines !! k = Some true
                          /\ v_line v = (Z.of_nat k + 1)%Z).
Proof.
  intros He. unfold performScan.
  pose proof (instantiate_patterns (entries_for language) h) as Hps.
  pose proof (instantiate_heap (entries_for language) h) as Hh.
  pose proof (instantiate_refs (entries_for language) h) as Hrefs.
  rewrite <- getVulnerabilityPatterns_instantiate in Hps, Hh, Hrefs.
  destruct (getVulnerabilityPatterns language h) as [ps h1]. cbn [fst snd] in *.
  intros Hscan.
  pose proof He as He'. apply list_elem_of_In, list_elem_of_lookup in He' as [k0 Hk0].
  set (p := mkPattern (e_type e) (e_severity e) (length h + k0) (e_description e) (e_fix e)).
  assert (Hp : ps !! k0 = Some p).
  { rewrite Hps, list_lookup_imap, Hk0. reflexivity. }
  assert (Hnd : NoDup (map pat_regex ps)) by (rewrite Hrefs; apply NoDup_seq).
  assert (Hnt : NoDup (map pat_type ps)).
  { replace (map pat_type ps) with (map e_type (entries_for language));
      [apply catalog_types_NoDup|].
    rewrite Hps. clear. generalize (length h) as n.
    induction (entries_for language) as [|e es IH]; intros n; [reflexivity|].
    cbn [imap map pat_type]. f_equal. rewrite (IH (S n)). f_equal.
    apply imap_ext. intros k e' _. cbn. f_equal. lia. }
  rewrite <- (take_drop_middle ps k0 p Hp) in Hnd, Hnt, Hscan.
  apply NoDup_map_middle in Hnd as [Hpre Hpost].
  apply NoDup_map_middle in Hnt as [Tpre Tpost].
  assert (Hobj : h1 !! pat_regex p = Some (object (e_regex e) 0)).
  { rewrite Hh. cbn [pat_regex p]. rewrite lookup_app_r by lia.
    replace (length h + k0 - length h) with k0 by lia.
    rewrite list_lookup_fmap, Hk0. reflexivity. }
  destruct (scan_lines_self language (take k0 ps) (drop (S k0) ps) p (e_regex e) lines
              Hpre Hpost Tpre Tpost 0 [] findings h1 h' 0 Hobj Hscan)
    as (_ & Hhit & Hsound).
  split.
  - intros k Hk. exact (Hhit k Hk).
  - intros v Hin Hty. destruct (Hsound v Hin Hty) as [[]|Hk]. exact Hk.
Qed.

Lemma step_fresh (r : regex) (S : string) :
  fst (step r 0 S) = test_literal r true S
  /\ (test_literal r true S = false -> snd (step r 0 S) = 0).
Proof.
  unfold step, test_literal. cbn [string_drop Nat.ltb Nat.leb].
  destruct (search r true S) as [[[k n] c]|].
  - split; [reflexivity | intros H; discriminate H].
  - split; [reflexivity | intros _; reflexivity].
Qed.

(** Up to the first line the pattern matches, the object is new. *)
Lemma trace_first (r : regex) (pre : list string) (rest : list string) :
  Forall (fun l => test_literal r true l = false) pre ->
  forall k, trace r 0 (pre ++ rest) !! (length pre + k) = trace r 0 rest !! k.
Proof.
  induction 1 as [|l pre Hl _ IH]; intros k; [reflexivity|].
  cbn [app length trace Nat.add].
  destruct (step_fresh r l) as (_ & Hj). rewrite (Hj Hl).
  rewrite lookup_cons. apply IH.
Qed.

(** The first of the elements of a list that pass a test. *)
Lemma first_passing {A : Type} (f : A -> bool) (l : list A) :
  Forall (fun x => f x = false) l
  \/ exists pre x post,
       l = pre ++ x :: post /\ Forall (fun y => f y = false) pre /\ f x = true.
Proof.
  induction l as [|a l IH]; [left; constructor|].
  destruct (f a) eqn:Ha.
  - right. exists [], a, l. repeat split; [constructor | exact Ha].
  - destruct IH as [Hall|(pre & x & post & -> & Hpre & Hx)].
    + left. constructor; assumption.
    + right. exists (a :: pre), x, post. repeat split; [constructor; assumption | exact Hx].
Qed.

(** The first line that the pattern of an entry matches is reported by
    a scan that returns. *)
Lemma performScan_first_line (language : string) (h h' : heap)
    (findings : list Vulnerability) (e : Entry) (pre post : list string) (line : string) :
  In e (entries_for language) ->
  performScan language (pre ++ line :: post) h = Ok (findings, h') ->
  Forall (fun l => test_literal (e_regex e) true l = false) pre ->
  test_literal (e_regex e) true line = true ->
  e_type e <> "Weak Crypto"
  /\ exists fixed,
       In (mkVulnerability (e_type e) (e_severity e) (Z.of_nat (length pre) + 1)
             (e_description e) (Some fixed)) findings.
Proof.
  intros He Hscan Hpre Hline.
  destruct (performScan_entry language (pre ++ line :: post) h h' findings e He Hscan)
    as [Hhit _].
  apply Hhit.
  rewrite <- (Nat.add_0_r (length pre)), trace_first by exact Hpre.
  destruct (step_fresh (e_regex e) line) as (Hb & _).
  change (Some (fst (step (e_regex e) 0 line)) = Some true).
  rewrite Hb, Hline. reflexivity.
Qed.

(** A scan that returns has met no line that the Weak Crypto pattern
    matches. *)
Lemma performScan_returns (language : string) (lines : list string) (h h' : heap)
    (findings : list Vulnerability) :
  performScan language lines h = Ok (findings, h') ->
  Forall (fun l => test_literal re_weak_crypto true l = false) lines.
Proof.
  intros Hscan.
  destruct (first_passing (test_literal re_weak_crypto true) lines)
    as [Hall|(pre & line & post & -> & Hpre & Hline)]; [exact Hall|].
  exfalso.
  set (e := mkEntry "Weak Crypto" medium re_weak_crypto
              "Weak cryptographic algorithm detected"
              "Use stronger algorithms like SHA-256 or bcrypt").
  assert (He : In e (entries_for language)).
  { unfold entries_for. destruct (String.eqb language "python"); cbn; tauto. }
  destruct (performScan_first_line language h h' findings e pre post line
              He Hscan Hpre Hline) as [Hty _].
  apply Hty. reflexivity.
Qed.

(** Nothing but the Weak Crypto case ends a scan. *)
Lemma scan_pattern_throws (language line : string) (index : nat)
    (st : result (list Vulnerability * heap)) (p : Pattern) (e : error) :
  scan_pattern language line index st p = Throw e ->
  st = Throw e \/ e = ReferenceError.
Proof.
  destruct st as [[vs h]|e0]; [|intros H; left; exact H].
  destruct (scan_pattern_cases language line index vs h p)
    as [[_ ->]|[(_ & _ & ->)|(_ & _ & fixed & _ & ->)]]; intros H;
    [discriminate H | injection H as <-; auto | discriminate H].
Qed.

Lemma fold_patterns_throws (language line : string) (index : nat) (ps : list Pattern)
    (st : result (list Vulnerability * heap)) (e : error) :
  fold_left (scan_pattern language line index) ps st = Throw e ->
  st = Throw e \/ e = ReferenceError.
Proof.
  revert st. induction ps as [|p ps IH]; intros st Hfold; [auto|].
  cbn [fold_left] in Hfold. destruct (IH _ Hfold) as [Hstep|He]; [|auto].
  apply scan_pattern_throws in Hstep. exact Hstep.
Qed.

Lemma scan_lines_throws (language : string) (ps : list Pattern) (index : nat)
    (lines : list string) (st : result (list Vulnerability * heap)) (e : error) :
  scan_lines language ps index lines st = Throw e ->
  st = Throw e \/ e = ReferenceError.
Proof.
  revert index st. induction lines as [|line rest IH]; intros index st Hscan; [auto|].
  cbn [scan_lines] in Hscan. destruct (IH _ _ Hscan) as [Hfold|He]; [|auto].
  apply fold_patterns_throws in Hfold. exact Hfold.
Qed.

Lemma performScan_throws (language : string) (lines : list string) (h : heap)
    (e : error) :
  performScan language lines h = Throw e -> e = ReferenceError.
Proof.
  unfold performScan. destruct (getVulnerabilityPatterns language h) as [ps h1].
  intros Hscan. apply scan_lines_throws in Hscan as [H|H]; [discriminate H | exact H].
Qed.

(** A scan of lines that the Weak Crypto pattern does not match comes
    to its end. *)
Lemma scan_pattern_progress (language line : string) (index : nat)
    (es : list Entry) (vs : list Vulnerability) (h : heap) (p : Pattern) :
  Forall (fun e => e_type e = "Weak Crypto" -> e_regex e = re_weak_crypto) es ->
  (exists e, In e es /\ stands_for h p e) ->
  test_literal re_weak_crypto true line = false ->
  exists st', scan_pattern language line index (Ok (vs, h)) p = Ok st'.
Proof.
  intros Hes (e & He & Hty & _ & _ & Hh) Hline.
  destruct (scan_pattern_cases language line index vs h p)
    as [[_ ->]|[(Hf & Hwc & _)|(_ & _ & fixed & _ & ->)]]; [eauto | | eauto].
  exfalso. rewrite Forall_forall in Hes.
  rewrite (Hes e (proj2 (list_elem_of_In _ _) He)) in Hh by congruence.
  destruct (heap_test_sound h (pat_regex p) re_weak_crypto line eq_refl Hh Hf)
    as (pre & t & post & -> & Hacc).
  rewrite (test_literal_complete true re_weak_crypto pre t post Hacc) in Hline.
  discriminate Hline.
Qed.

Lemma fold_patterns_progress (language line : string) (index : nat)
    (es : list Entry) (ps : list Pattern) (vs : list Vulnerability) (h : heap) :
  Forall (fun e => e_type e = "Weak Crypto" -> e_regex e = re_weak_crypto) es ->
  Forall (fun p => exists e, In e es /\ stands_for h p e) ps ->
  test_literal re_weak_crypto true line = false ->
  exists vs' h',
    fold_left (scan_pattern language line index) ps (Ok (vs, h)) = Ok (vs', h')
    /\ forall ref r, holds h ref r -> holds h' ref r.
Proof.
  intros Hes. revert vs h. induction ps as [|p ps IH]; intros vs h Hps Hline.
  { exists vs, h. split; [reflexivity | auto]. }
  inversion Hps as [|? ? Hp Hps']; subst.
  destruct (scan_pattern_progress language line index es vs h p Hes Hp Hline)
    as [[vs1 h1] Hstep].
  assert (Hkeep : forall ref r, holds h ref r -> holds h1 ref r).
  { intros ref r. eapply scan_pattern_holds. exact Hstep. }
  assert (Hps1 : Forall (fun p => exists e, In e es /\ stands_for h1 p e) ps).
  { eapply Forall_impl; [exact Hps'|]. intros q (e' & He' & Hty' & Hsev' & Hdesc' & Hh').
    exists e'. split; [exact He'|]. repeat split; try assumption. apply Hkeep. exact Hh'. }
  destruct (IH vs1 h1 Hps1 Hline) as (vs' & h' & Hrest & Hkeep').
  exists vs', h'. split; [cbn [fold_left]; rewrite Hstep; exact Hrest | auto].
Qed.

Lemma scan_lines_progress (language : string) (es : list Entry) (ps : list Pattern)
    (lines : list string) (index : nat) (vs : list Vulnerability) (h : heap) :
  Forall (fun e => e_type e = "Weak Crypto" -> e_regex e = re_weak_crypto) es ->
  Forall (fun p => exists e, In e es /\ stands_for h p e) ps ->
  Forall (fun l => test_literal re_weak_crypto true l = false) lines ->
  exists st', scan_lines language ps index lines (Ok (vs, h)) = Ok st'.
Proof.
  intros Hes. revert index vs h.
  induction lines as [|line rest IH]; intros index vs h Hps Hlines; [cbn; eauto|].
  inversion Hlines as [|? ? Hline Hrest]; subst.
  destruct (fold_patterns_progress language line index es ps vs h Hes Hps Hline)
    as (vs1 & h1 & Hfold & Hkeep).
  assert (Hps1 : Forall (fun p => exists e, In e es /\ stands_for h1 p e) ps).
  { eapply Forall_impl; [exact Hps|]. intros q (e' & He' & Hty' & Hsev' & Hdesc' & Hh').
    exists e'. split; [exact He'|]. repeat split; try assumption. apply Hkeep. exact Hh'. }
  cbn [scan_lines]. rewrite Hfold. apply IH; assumption.
Qed.

Lemma performScan_progress (language : string) (lines : list string) (h : heap) :
  Forall (fun l => test_literal re_weak_crypto true l = false) lines ->
  exists findings, outcome (performScan language lines h) = Ok findings.
Proof.
  intros Hlines. unfold performScan.
  pose proof (catalog_stands_for language h) as Hps.
  destruct (getVulnerabilityPatterns language h) as [ps h1]. cbn [fst snd] in Hps.
  destruct (scan_lines_progress language (entries_for language) ps lines 0 [] h1)
    as [[findings h'] Hscan]; [|exact Hps|exact Hlines|].
  - apply Forall_forall. intros e He. apply catalog_retests.
    apply list_elem_of_In, entries_for_all in He. exact He.
  - exists findings. rewrite Hscan. reflexivity.
Qed.

End ScannerTrace.

(** X2.  In a text none of whose lines the Weak Crypto pattern matches,
    the first line that the pattern of a catalog entry matches is always
    reported: the scan returns, and among its findings is one with the
    number of that line and the type, severity and description of the
    entry, and with some fix. *)
Theorem scan_reports_first_line (language text : string) (h : list JS.RegExp)
    (e : Extension.Entry) (pre post : list string) (line : string) :
  In e (Extension.entries_for language) ->
  JS.split_nl text = pre ++ line :: post ->
  Forall (fun l => JS.test_literal (Extension.e_regex e) true l = false) pre ->
  JS.test_literal (Extension.e_regex e) true line = true ->
  Forall (fun l => JS.test_literal Extension.re_weak_crypto true l = false)
    (JS.split_nl text) ->
  exists findings fixed,
    Extension.outcome (Extension.scan text language h) = JS.Ok findings
    /\ In (Extension.mkVulnerability (Extension.e_type e) (Extension.e_severity e)
             (Z.of_nat (length pre) + 1) (Extension.e_description e) (Some fixed))
          findings.
Proof.
  intros He Hsplit Hpre Hline Hquiet. unfold Extension.scan.
  destruct (performScan_progress language (JS.split_nl text) h Hquiet)
    as [findings Hout].
  exists findings. pose proof Hout as Hscan. apply outcome_Ok in Hscan as [h' Hscan].
  rewrite Hsplit in Hscan.
  destruct (performScan_first_line language h h' findings e pre post line
              He Hscan Hpre Hline) as [_ [fixed Hin]].
  exists fixed. split; [exact Hout | exact Hin].
Qed.

Lemma scan_reports_first_line_witness :
  exists findings fixed,
    Extension.outcome
      (Extension.scan ("let a = 1;" +:+ JS.nl +:+ "x = eval(y)") "javascript" [])
    = JS.Ok findings
    /\ In (Extension.mkVulnerability "Eval Usage" high
             (Z.of_nat (length ["let a = 1;"]) + 1)
             "Use of eval() function is dangerous" (Some fixed))
          findings.
Proof.
  apply (scan_reports_first_line "javascript"
           ("let a = 1;" +:+ JS.nl +:+ "x = eval(y)") []
           (Extension.mkEntry "Eval Usage" high Extension.re_eval
              "Use of eval() function is dangerous"
              "Use safer alternatives like JSON.parse() or specific parsers")
           ["let a = 1;"] [] "x = eval(y)").
  - vm_compute. right. right. left. reflexivity.
  - vm_compute. reflexivity.
  - repeat constructor.
  - vm_compute. reflexivity.
  - repeat constructor.
Defined.

(** X3.  A line can hide the next.  The pattern objects carry the flag g
    and are shared by all the lines of a scan, so after a match the next
    test starts where the match ended.  For every entry but Weak Crypto:
    when the first line the pattern matches has its leftmost match end
    at column i + n, and the next line has no match from that column on,
    the next line is not reported for the entry, whatever it holds to
    the left of that column. *)
Theorem scan_misses_hidden_line (language text : string) (h : list JS.RegExp)
    (findings : list Extension.Vulnerability)
    (e : Extension.Entry) (pre post : list string) (l1 l2 : string)
    (i n : nat) (c : JS.captures) :
  In e (Extension.entries_for language) ->
  Extension.e_type e <> "Weak Crypto" ->
  JS.split_nl text = pre ++ l1 :: l2 :: post ->
  Forall (fun l => JS.test_literal (Extension.e_regex e) true l = false) pre ->
  JS.search (Extension.e_regex e) true l1 = Some (i, n, c) ->
  JS.test_literal (Extension.e_regex e) true (JS.string_drop (i + n) l2) = false ->
  Extension.outcome (Extension.scan text language h) = JS.Ok findings ->
  forall v, In v findings ->
            Extension.v_type v = Extension.e_type e ->
            Extension.v_line v <> (Z.of_nat (length pre) + 2)%Z.
Proof.
  intros He Hwc Hsplit Hpre Hl1 Hl2 Hout v Hin Hty Hline.
  unfold Extension.scan in Hout. apply outcome_Ok in Hout as [h' Hscan].
  rewrite Hsplit in Hscan.
  destruct (performScan_entry language (pre ++ l1 :: l2 :: post) h h' findings e
              He Hscan) as [_ Hsound].
  destruct (Hsound v Hin Hty) as (k & Hk & Hvk).
  assert (k = length pre + 1) by lia. subst k.
  rewrite trace_first in Hk by exact Hpre.
  cbn [ExtensionTrace.trace] in Hk. rewrite lookup_cons in Hk.
  assert (Hstep : ExtensionTrace.step (Extension.e_regex e) 0 l1 = (true, i + n)).
  { unfold ExtensionTrace.step. cbn [Nat.ltb Nat.leb JS.string_drop]. rewrite Hl1.
    reflexivity. }
  rewrite Hstep in Hk. cbn [snd] in Hk.
  change (Some (fst (ExtensionTrace.step (Extension.e_regex e) (i + n) l2))
          = Some true) in Hk.
  unfold ExtensionTrace.step in Hk. unfold JS.test_literal in Hl2.
  destruct (String.length l2 <? i + n); [discriminate Hk|].
  destruct (JS.search (Extension.e_regex e) true (JS.string_drop (i + n) l2))
    as [[[k' n'] c']|]; [discriminate Hl2 | discriminate Hk].
Qed.

Lemma scan_misses_hidden_line_witness :
  JS.test_literal Extension.re_eval true "eval(b)" = true
  /\ forall v,
       In v [Extension.mkVulnerability "Eval Usage" high 1
               "Use of eval() function is dangerous" (Some "x = JSON.parse(a)")] ->
       Extension.v_type v = "Eval Usage" ->
       Extension.v_line v <> (Z.of_nat (length (@nil string)) + 2)%Z.
Proof.
  split; [vm_compute; reflexivity|].
  apply (scan_misses_hidden_line "javascript"
           ("x = eval(a)" +:+ JS.nl +:+ "eval(b)") []
           [Extension.mkVulnerability "Eval Usage" high 1
              "Use of eval() function is dangerous" (Some "x = JSON.parse(a)")]
           (Extension.mkEntry "Eval Usage" high Extension.re_eval
              "Use of eval() function is dangerous"
              "Use safer alternatives like JSON.parse() or specific parsers")
           [] [] "x = eval(a)" "eval(b)" 4 5 []).
  - vm_compute. right. right. left. reflexivity.
  - discriminate.
  - vm_compute. reflexivity.
  - constructor.
  - vm_compute. reflexivity.
  - vm_compute. reflexivity.
  - vm_compute. reflexivity.
Defined.

(** X4.  A line that the Weak Crypto pattern matches ends the scan: the
    scan throws a ReferenceError exactly when some line of the text is
    matched by that pattern, and it throws nothing else.  So in such a
    text nothing at all is reported, and in every other text the scan
    returns. *)
Theorem scan_aborts_iff_weak_crypto (language text : string) (h : list JS.RegExp) :
  (Extension.scan text language h = JS.Throw JS.ReferenceError
   <-> exists line,
         In line (JS.split_nl text)
         /\ JS.test_literal Extension.re_weak_crypto true line = true)
  /\ (forall e, Extension.scan text language h = JS.Throw e -> e = JS.ReferenceError).
Proof.
  unfold Extension.scan. split; [|intros e; apply performScan_throws].
  split.
  - intros Hthrow.
    destruct (first_passing (JS.test_literal Extension.re_weak_crypto true)
                (JS.split_nl text)) as [Hquiet|(pre & line & post & Hsplit & _ & Hline)].
    + destruct (performScan_progress language (JS.split_nl text) h Hquiet)
        as [findings Hout].
      rewrite Hthrow in Hout. discriminate Hout.
    + exists line. split; [|exact Hline].
      rewrite Hsplit. apply in_or_app. right. left. reflexivity.
  - intros (line & Hin & Hline).
    destruct (Extension.performScan language (JS.split_nl text) h)
      as [[findings h']|e] eqn:Hscan.
    + apply performScan_returns in Hscan. rewrite Forall_forall in Hscan.
      rewrite (Hscan line (proj2 (list_elem_of_In _ _) Hin)) in Hline.
      discriminate Hline.
    + f_equal. eapply performScan_throws. exact Hscan.
Qed.

(** X29.  In a text none of whose lines the Weak Crypto pattern matches,
    every trigger is reported: when a line of the text contains a string
    that the pattern of an entry of the catalog accepts, whatever comes
    before and after it on the line, the scan returns and reports at
    least one finding of the type of the entry. *)
Theorem scan_reports_trigger (language text : string) (h : list JS.RegExp)
    (entry : Extension.Entry) (t pre post : string) :
  In entry (Extension.entries_for language) ->
  Claims.trigger entry t ->
  In (pre +:+ t +:+ post) (JS.split_nl text) ->
  Forall (fun l => JS.test_literal Extension.re_weak_crypto true l = false)
    (JS.split_nl text) ->
  exists findings v,
    Extension.outcome (Extension.scan text language h) = JS.Ok findings
    /\ In v findings
    /\ Extension.v_type v = Extension.e_type entry.
Proof.
  intros Hentry Ht Hline Hquiet. unfold Extension.scan.
  destruct (performScan_progress language (JS.split_nl text) h Hquiet)
    as [findings Hout].
  exists findings. pose proof Hout as Hscan. apply outcome_Ok in Hscan as [h' Hscan].
  destruct (first_passing (JS.test_literal (Extension.e_regex entry) true)
              (JS.split_nl text)) as [Hnone|(before & line & after & Hsplit & Hpre & Hhit)].
  - exfalso. rewrite Forall_forall in Hnone.
    specialize (Hnone _ (proj2 (list_elem_of_In _ _) Hline)).
    rewrite (test_literal_complete true _ pre t post Ht) in Hnone. discriminate Hnone.
  - rewrite Hsplit in Hscan.
    destruct (performScan_first_line language h h' findings entry before after line
                Hentry Hscan Hpre Hhit) as [_ [fixed Hin]].
    eexists. split; [exact Hout|]. split; [exact Hin | reflexivity].
Qed.

Lemma scan_reports_trigger_witness :
  exists findings v,
    Extension.outcome
      (Extension.scan ("let a = 1;" +:+ JS.nl +:+ "x = eval(y)") "javascript" [])
    = JS.Ok findings
    /\ In v findings
    /\ Extension.v_type v = "Eval Usage".
Proof.
  apply (scan_reports_trigger "javascript"
           ("let a = 1;" +:+ JS.nl +:+ "x = eval(y)") []
           (Extension.mkEntry "Eval Usage" high Extension.re_eval
              "Use of eval() function is dangerous"
              "Use safer alternatives like JSON.parse() or specific parsers")
           "eval(" "x = " "y)").
  - vm_compute. right. right. left. reflexivity.
  - apply (accepts_whole true Extension.re_eval "eval(" []); vm_compute; reflexivity.
  - vm_compute. right. left. reflexivity.
  - repeat constructor.
Defined.

(** X5.  The two entries that only the Python catalog has get no
    rewriting: the fix of such a finding is a comment line followed by
    the flagged line as it was, and the pattern of the entry still
    matches the fix. *)
Theorem python_fix_keeps_the_pattern (language text : string) (h : list JS.RegExp)
    (findings : list Extension.Vulnerability) (v : Extension.Vulnerability) :
  Extension.outcome (Extension.scan text language h) = JS.Ok findings ->
  In v findings ->
  Extension.v_type v = "Pickle Unsafe" \/ Extension.v_type v = "Shell Command Injection" ->
  exists (k : nat) (line : string) (e : Extension.Entry),
    JS.split_nl text !! k = Some line
    /\ Extension.v_line v = (Z.of_nat k + 1)%Z
    /\ In e Extension.python_entries
    /\ Extension.e_type e = Extension.v_type v
    /\ Extension.fixed_code v
       = Some ("// TODO: Fix " +:+ Extension.v_type v +:+ " vulnerability"
               +:+ JS.nl +:+ line)
    /\ JS.test_literal (Extension.e_regex e) true
         ("// TODO: Fix " +:+ Extension.v_type v +:+ " vulnerability"
          +:+ JS.nl +:+ line) = true.
Proof.
  unfold Extension.scan. intros Hout Hin Hty.
  apply outcome_Ok in Hout as [h' Hscan].
  destruct (performScan_findings language (JS.split_nl text) h h' findings v Hscan Hin)
    as (k & line & p & h1 & h2 & fixed0 & Hk & _ & Hgen & Hv).
  destruct (performScan_grounded language (JS.split_nl text) h h' findings v Hscan Hin)
    as (k' & line' & e & pre & t & post & fixed & Hk' & He & Hv' & Hline & Hacc & _).
  assert (Hkk : k' = k).
  { rewrite Hv in Hv'. injection Hv' as _ _ Hl _ _. cbn in Hl. lia. }
  subst k'. rewrite Hk in Hk'. injection Hk' as <-.
  assert (Htype : Extension.pat_type p = Extension.v_type v) by (rewrite Hv; reflexivity).
  assert (Hetype : Extension.e_type e = Extension.v_type v) by (rewrite Hv'; reflexivity).
  assert (Hfix : Extension.fixed_code v
                 = Some ("// TODO: Fix " +:+ Extension.v_type v +:+ " vulnerability"
                         +:+ JS.nl +:+ line)).
  { rewrite Hv at 1. cbn [Extension.fixed_code]. f_equal.
    unfold Extension.generateFix in Hgen. rewrite Htype in Hgen.
    destruct Hty as [Hty | Hty]; rewrite Hty in Hgen |- *;
      cbn [String.eqb Ascii.eqb Bool.eqb] in Hgen; injection Hgen as <- _;
      reflexivity. }
  assert (Hpy : In e Extension.python_entries).
  { apply entries_for_all in He. apply in_app_or in He as [He|He]; [|exact He].
    exfalso. cbn [Extension.base_entries In] in He.
    repeat (destruct He as [<-|He];
            [cbn in Hetype; destruct Hty as [Hty|Hty]; rewrite Hty in Hetype;
             discriminate Hetype|]).
    destruct He. }
  exists k, line, e. repeat split; try assumption.
  - rewrite Hv. cbn. lia.
  - rewrite Hline.
    replace ("// TODO: Fix " +:+ Extension.v_type v +:+ " vulnerability" +:+ JS.nl
             +:+ pre +:+ t +:+ post)
      with (("// TODO: Fix " +:+ Extension.v_type v +:+ " vulnerability" +:+ JS.nl +:+ pre)
            +:+ t +:+ post)
      by (rewrite !append_assoc; reflexivity).
    apply test_literal_complete. exact Hacc.
Qed.

Lemma python_fix_keeps_the_pattern_witness :
  exists (k : nat) (line : string) (e : Extension.Entry),
    JS.split_nl "pickle.loads(x)" !! k = Some line
    /\ 1%Z = (Z.of_nat k + 1)%Z
    /\ In e Extension.python_entries
    /\ Extension.e_type e = "Pickle Unsafe"
    /\ Some Claims.pickle_fix
       = Some ("// TODO: Fix " +:+ "Pickle Unsafe" +:+ " vulnerability" +:+ JS.nl +:+ line)
    /\ JS.test_literal (Extension.e_regex e) true
         ("// TODO: Fix " +:+ "Pickle Unsafe" +:+ " vulnerability" +:+ JS.nl +:+ line)
       = true.
Proof.
  apply (python_fix_keeps_the_pattern "python" "pickle.loads(x)" []
           [Claims.pickle_finding] Claims.pickle_finding).
  - vm_compute. reflexivity.
  - left. reflexivity.
  - left. reflexivity.
Defined.

(* ================================================================== *)
(** * The two paths of the fix route                                 *)
(* ================================================================== *)

Section FixRouteTheorems.
Import JS FixRoute FixRouteFacts.

Lemma join_split_nl (s : string) : join nl (split_nl s) = s.
Proof.
  pose proof (join_split_app s []) as H. rewrite app_nil_r in H.
  rewrite H. cbn [join_tail]. apply append_empty_r.
Qed.

Lemma join_holes_Some (l : list string) : join_holes nl (map Some l) = join nl l.
Proof.
  unfold join_holes. rewrite map_map. rewrite map_id. reflexivity.
Qed.

Lemma Array_get_in_range {A : Type} (l : list A) (L : Z) :
  (1 <= L <= Z.of_nat (length l))%Z ->
  exists x, Array_get l (L - 1) = Some x /\ l !! Z.to_nat (L - 1) = Some x.
Proof.
  intros HL. unfold Array_get.
  destruct (Z.leb_spec 0 (L - 1)) as [_|Hneg]; [|lia].
  destruct (lookup_lt_is_Some_2 l (Z.to_nat (L - 1)) ltac:(lia)) as [x Hx].
  exists x. auto.
Qed.

Lemma Array_get_None {A : Type} (l : list A) (i : Z) :
  Array_get l i = None <-> ~ (0 <= i < Z.of_nat (length l))%Z.
Proof.
  unfold Array_get. destruct (Z.leb_spec 0 i) as [Hi|Hi].
  - rewrite lookup_ge_None. lia.
  - split; [lia | reflexivity].
Qed.

Lemma Array_set_in_range (l : list string) (L : Z) (v : string) :
  inside l L ->
  Array_set (map Some l) (L - 1) v = map Some (<[Z.to_nat (L - 1) := v]> l).
Proof.
  intros [HL Hmax]. unfold Array_set. rewrite length_map.
  destruct (Z.leb_spec 0 (L - 1)) as [_|Hneg]; [|lia].
  destruct (Z.ltb_spec (L - 1) 4294967295) as [_|Hge]; [|lia].
  destruct (Z.ltb_spec (L - 1) (Z.of_nat (length l))) as [_|Hge]; [|lia].
  cbn [andb]. rewrite list_fmap_insert. reflexivity.
Qed.

(** The [switch] on a line of the text: it returns, and when the guard
    of the case fails it returns the line as it is. *)
Lemma rule_switch_inside (vulnerability : Finding) (target : string) :
  exists fixedLine explanation confidence,
    rule_switch vulnerability (Some target) = Ok (fixedLine, explanation, confidence)
    /\ (guard (f_type vulnerability) target = false ->
        fixedLine = target /\ explanation = EmptyString /\ confidence = 70%Z).
Proof.
  unfold rule_switch, guard. cbn [receiver bind].
  repeat match goal with
         | |- context [if type_in ?t ?a ?b then _ else _] => destruct (type_in t a b)
         end;
    try match goal with
        | |- context [if ?c then (_, _, _) else _] => destruct c
        end;
    do 3 eexists; (split; [reflexivity|]); intros H; try discriminate H; auto.
Qed.

(** X6.  For a line inside the text the rule-based fix does not throw:
    it reports success, with the text in which the target line alone is
    replaced by the fixed line, and with one change record, for that
    line.  When the guard of the case of the type fails, the fixed line
    is the target line: the text comes back unchanged, with confidence
    70 and an empty explanation, and success is still reported. *)
Theorem rule_based_fix_inside (vulnerability : Finding) (code language : string) :
  inside (split_nl code) (f_line vulnerability) ->
  exists target fixedLine explanation confidence,
    split_nl code !! Z.to_nat (f_line vulnerability - 1) = Some target
    /\ generateRuleBasedFix vulnerability code language
       = Ok (RuleResponse true
               (join nl (<[Z.to_nat (f_line vulnerability - 1) := fixedLine]>
                           (split_nl code)))
               explanation confidence
               [mkChange (f_line vulnerability) (Some target) fixedLine explanation])
    /\ (guard (f_type vulnerability) target = false ->
        generateRuleBasedFix vulnerability code language
        = Ok (RuleResponse true code EmptyString 70
                [mkChange (f_line vulnerability) (Some target) target EmptyString])).
Proof.
  intros Hin. pose proof Hin as [HL _].
  destruct (Array_get_in_range (split_nl code) (f_line vulnerability) HL)
    as (target & Hget & Hlook).
  destruct (rule_switch_inside vulnerability target)
    as (fixedLine & explanation & confidence & Hsw & Hguard).
  exists target, fixedLine, explanation, confidence.
  assert (Hrun : generateRuleBasedFix vulnerability code language
                 = Ok (RuleResponse true
                         (join nl (<[Z.to_nat (f_line vulnerability - 1) := fixedLine]>
                                     (split_nl code)))
                         explanation confidence
                         [mkChange (f_line vulnerability) (Some target) fixedLine
                            explanation])).
  { unfold generateRuleBasedFix. rewrite Hget, Hsw. cbn [bind].
    rewrite Array_set_in_range by exact Hin. rewrite join_holes_Some. reflexivity. }
  split; [exact Hlook|]. split; [exact Hrun|].
  intros Hg. destruct (Hguard Hg) as (-> & -> & ->). rewrite Hrun.
  rewrite list_insert_id by exact Hlook. rewrite join_split_nl. reflexivity.
Qed.

Lemma rule_based_fix_inside_witness :
  exists target fixedLine explanation confidence,
    split_nl "eval()" !! Z.to_nat (1 - 1) = Some target
    /\ generateRuleBasedFix Claims.empty_eval_finding "eval()" "javascript"
       = Ok (RuleResponse true
               (join nl (<[Z.to_nat (1 - 1) := fixedLine]> (split_nl "eval()")))
               explanation confidence
               [mkChange 1 (Some target) fixedLine explanation])
    /\ (guard "Code Injection" target = false ->
        generateRuleBasedFix Claims.empty_eval_finding "eval()" "javascript"
        = Ok (RuleResponse true "eval()" EmptyString 70
                [mkChange 1 (Some target) target EmptyString])).
Proof.
  apply (rule_based_fix_inside Claims.empty_eval_finding "eval()" "javascript").
  vm_compute. repeat split; discriminate.
Defined.

Lemma map_replicate {A B : Type} (f : A -> B) (n : nat) (x : A) :
  map f (replicate n x) = replicate n (f x).
Proof. induction n as [|n IH]; [reflexivity|]. cbn. f_equal. exact IH. Qed.

Lemma rule_switch_undefined (vulnerability : Finding) :
  rule_switch vulnerability None
  = if named (f_type vulnerability) then Throw TypeError
    else Ok ("// TODO: Fix security issue - " +:+ f_description vulnerability
               +:+ nl +:+ "undefined",
             "Added security comment for manual review and fix", 50%Z).
Proof.
  unfold rule_switch, named. cbn [receiver bind show_undefined].
  repeat match goal with
         | |- context [if type_in ?t ?a ?b then _ else _] => destruct (type_in t a b)
         end; reflexivity.
Qed.

(** X7.  For a line number outside the text the rule-based fix has no
    test.  In a named case of the switch it throws.  In the default case
    it reports success: for a line below 1 with the text unchanged, for
    a line past the end with the text grown to that many lines, the new
    last line holding the comment and the word undefined. *)
Theorem rule_based_fix_outside (vulnerability : Finding) (code language : string) :
  ~ (1 <= f_line vulnerability <= Z.of_nat (length (split_nl code)))%Z ->
  let L := f_line vulnerability in
  let n := length (split_nl code) in
  let todo := "// TODO: Fix security issue - " +:+ f_description vulnerability
              +:+ nl +:+ "undefined" in
  let reason := "Added security comment for manual review and fix" in
  (named (f_type vulnerability) = true ->
   generateRuleBasedFix vulnerability code language = Throw TypeError)
  /\ (named (f_type vulnerability) = false -> (L < 1)%Z ->
      generateRuleBasedFix vulnerability code language
      = Ok (RuleResponse true code reason 50 [mkChange L None todo reason]))
  /\ (named (f_type vulnerability) = false -> (Z.of_nat n < L <= 4294967295)%Z ->
      generateRuleBasedFix vulnerability code language
      = Ok (RuleResponse true
              (join nl (split_nl code ++ replicate (Z.to_nat L - 1 - n) EmptyString
                          ++ [todo]))
              reason 50 [mkChange L None todo reason])).
Proof.
  intros Hout. cbn zeta.
  assert (Hget : Array_get (split_nl code) (f_line vulnerability - 1) = None)
    by (apply Array_get_None; lia).
  unfold generateRuleBasedFix. rewrite Hget, rule_switch_undefined.
  split; [intros ->; reflexivity|]. split.
  - intros -> Hlow. cbn [bind]. unfold Array_set.
    destruct (Z.leb_spec 0 (f_line vulnerability - 1)) as [Hge|_]; [lia|].
    cbn [andb]. rewrite join_holes_Some, join_split_nl. reflexivity.
  - intros -> [Hhigh Hmax]. cbn [bind]. unfold Array_set. rewrite length_map.
    destruct (Z.leb_spec 0 (f_line vulnerability - 1)) as [_|Hneg]; [|lia].
    destruct (Z.ltb_spec (f_line vulnerability - 1) 4294967295) as [_|Hge]; [|lia].
    destruct (Z.ltb_spec (f_line vulnerability - 1) (Z.of_nat (length (split_nl code))))
      as [Hlt|_]; [lia|].
    cbn [andb]. unfold join_holes. rewrite !map_app, map_map, map_id.
    cbn [map]. rewrite map_replicate.
    replace (Z.to_nat (f_line vulnerability - 1) - length (split_nl code))
      with (Z.to_nat (f_line vulnerability) - 1 - length (split_nl code)) by lia.
    reflexivity.
Qed.

Lemma rule_based_fix_outside_witness :
  generateRuleBasedFix Claims.stale_finding Claims.two_line_code "javascript"
  = Ok (RuleResponse true
          (join nl (split_nl Claims.two_line_code
                      ++ replicate (Z.to_nat 5 - 1 - 2) EmptyString
                      ++ ["// TODO: Fix security issue - "
                          +:+ "Math.random is not cryptographically secure"
                          +:+ nl +:+ "undefined"]))
          "Added security comment for manual review and fix" 50
          [mkChange 5 None
             ("// TODO: Fix security issue - "
              +:+ "Math.random is not cryptographically secure" +:+ nl +:+ "undefined")
             "Added security comment for manual review and fix"]).
Proof.
  destruct (rule_based_fix_outside Claims.stale_finding Claims.two_line_code "javascript")
    as (_ & _ & H).
  - vm_compute. intros [_ H]. apply H. reflexivity.
  - apply H; [reflexivity | vm_compute; split; [reflexivity | discriminate]].
Defined.

Lemma validateFix_verdict (fixedCode : option json) (code : string)
    (isValid : bool) (issues : list string) :
  validateFix fixedCode code = Ok (isValid, issues) ->
  (isValid = true <-> issues = []).
Proof.
  unfold validateFix. destruct fixedCode as [[| | |fixed| |]|]; try discriminate.
  cbv zeta.
  match goal with |- Ok (length ?X =? 0, ?X) = _ -> _ => generalize X end.
  intros l H. injection H as <- <-. rewrite Nat.eqb_eq. apply length_zero_iff_nil.
Qed.

Section AIPath.

Variable JSON_parse : string -> result json.

(** The two ways of [generateAIFix]. *)
Lemma generateAIFix_cases (reply : ZAI.Completion) (vulnerability : Finding)
    (code fileName language : string) :
  generateAIFix JSON_parse reply vulnerability code fileName language
  = match proposal JSON_parse reply with
    | Some (JObj fields, fixed) =>
        match validateFix (Some (JStr fixed)) code with
        | Ok validationResult =>
            Ok (AIResponse (fst validationResult) (Some (JStr fixed))
                  (field "explanation" fields) (field "confidence" fields)
                  (field "changes" fields))
        | Throw _ => generateRuleBasedFix vulnerability code language
        end
    | _ => generateRuleBasedFix vulnerability code language
    end.
Proof.
  unfold generateAIFix, proposal.
  destruct (ZAI.parse_reply JSON_parse reply "{}") as [aiResponse|e];
    cbn [bind try_catch]; [|reflexivity].
  destruct aiResponse as [| | | | |fields]; cbn [get_property bind try_catch validateFix];
    try reflexivity.
  destruct (field "fixedCode" fields) as [[| | |fixed| |]|];
    cbn [validateFix bind try_catch]; try reflexivity.
Qed.

(** X8.  The rule-based fix answers whenever the reply carries no
    proposal: the call was rejected, or the reply is not JSON, or it
    does not parse to an object whose fixedCode is a string. *)
Theorem fix_falls_back_without_proposal (reply : ZAI.Completion)
    (vulnerability : Finding) (code fileName language : string) :
  proposal JSON_parse reply = None ->
  generateAIFix JSON_parse reply vulnerability code fileName language
  = generateRuleBasedFix vulnerability code language.
Proof.
  intros Hnone. rewrite generateAIFix_cases, Hnone. reflexivity.
Qed.

(** X9.  A reply that carries a proposal is answered on the AI path,
    whatever the validation says: the response hands the proposal on,
    with the explanation, confidence and changes of the reply, and its
    success flag is the verdict of the validation.  A proposal that
    fails the validation is not replaced by the rule-based fix. *)
Theorem fix_hands_on_the_proposal (reply : ZAI.Completion)
    (vulnerability : Finding) (code fileName language : string)
    (aiResponse : json) (fixed : string) :
  proposal JSON_parse reply = Some (aiResponse, fixed) ->
  exists isValid issues explanation confidence changes,
    validateFix (Some (JStr fixed)) code = Ok (isValid, issues)
    /\ get_property aiResponse "explanation" = Ok explanation
    /\ get_property aiResponse "confidence" = Ok confidence
    /\ get_property aiResponse "changes" = Ok changes
    /\ generateAIFix JSON_parse reply vulnerability code fileName language
       = Ok (AIResponse isValid (Some (JStr fixed)) explanation confidence changes)
    /\ (isValid = true <-> issues = []).
Proof.
  intros Hsome. rewrite generateAIFix_cases, Hsome.
  assert (Hobj : exists fields, aiResponse = JObj fields).
  { unfold proposal in Hsome.
    destruct (ZAI.parse_reply JSON_parse reply "{}") as [v|e]; [|discriminate Hsome].
    destruct v as [| | | | |fields]; cbn [get_property] in Hsome; try discriminate Hsome.
    destruct (field "fixedCode" fields) as [[| | |f| |]|]; try discriminate Hsome.
    injection Hsome as <- _. eauto. }
  destruct Hobj as [fields ->].
  destruct (validateFix (Some (JStr fixed)) code) as [[isValid issues]|e] eqn:Hv;
    [|discriminate Hv].
  exists isValid, issues, (field "explanation" fields), (field "confidence" fields),
    (field "changes" fields).
  repeat split; try reflexivity.
  - apply (validateFix_verdict _ _ _ _ Hv).
  - apply (validateFix_verdict _ _ _ _ Hv).
Qed.



(** X11.  When the body of the request has been read and the client
    created, and the reply carries a proposal, the route reports success
    exactly when the proposal passes the four checks of the validation:
    it is not blank; the number of its lines differs from that of the
    original by at most half the latter; none of the four patterns of
    the validation matches it; and it holds no markdown fence. *)
Theorem ai_success_iff_valid (reply : ZAI.Completion) (vulnerability : Finding)
    (code fileName language : string) (aiResponse : json) (fixed : string) :
  proposal JSON_parse reply = Some (aiResponse, fixed) ->
  reports_success
    (POST JSON_parse (Ok (Some (mkFixRequest vulnerability code fileName language)))
       (Ok tt) reply) = true
  <-> trim fixed <> EmptyString
      /\ (2 * Z.abs (Z.of_nat (length (split_nl code))
                     - Z.of_nat (length (split_nl fixed)))
          <= Z.of_nat (length (split_nl code)))%Z
      /\ Forall (fun entry => test_literal (snd entry) false fixed = false)
           vulnerabilityPatterns
      /\ includes fixed backticks = false.
Proof.
  intros Hsome. unfold POST.
  cbn [bind r_vulnerability r_code r_fileName r_language].
  rewrite generateAIFix_cases, Hsome.
  assert (Hobj : exists fields, aiResponse = JObj fields).
  { unfold proposal in Hsome.
    destruct (ZAI.parse_reply JSON_parse reply "{}") as [v|e]; [|discriminate Hsome].
    destruct v as [| | | | |fields]; cbn [get_property] in Hsome; try discriminate Hsome.
    destruct (field "fixedCode" fields) as [[| | |f| |]|]; try discriminate Hsome.
    injection Hsome as <- _. eauto. }
  destruct Hobj as [fields ->].
  cbn [validateFix]. cbv zeta. cbn [reports_success success fst].
  rewrite Nat.eqb_eq, length_zero_iff_nil.
  unfold vulnerabilityPatterns. cbn [flat_map snd].
  assert (Htrim : String.eqb fixed EmptyString || String.eqb (trim fixed) EmptyString
                  = String.eqb (trim fixed) EmptyString).
  { destruct fixed; reflexivity. }
  rewrite Htrim. rewrite orb_diag.
  rewrite !Forall_cons, Forall_nil. cbn [snd].
  destruct (String.eqb_spec (trim fixed) EmptyString) as [Ht|Ht].
  { split; [intros H; discriminate H | intros [H _]; contradiction]. }
  destruct (Z.ltb_spec (Z.of_nat (length (split_nl code)))
              (2 * Z.abs (Z.of_nat (length (split_nl code))
                          - Z.of_nat (length (split_nl fixed))))) as [Hs|Hs].
  { split; [intros H; discriminate H | intros (_ & H & _); lia]. }
  destruct (test_literal vp_eval false fixed);
    [split; [intros H; discriminate H | intros (_ & _ & (H & _) & _); discriminate H]|].
  destruct (test_literal vp_innerHTML false fixed);
    [split; [intros H; discriminate H | intros (_ & _ & (_ & H & _) & _); discriminate H]|].
  destruct (test_literal vp_password false fixed);
    [split; [intros H; discriminate H
            | intros (_ & _ & (_ & _ & H & _) & _); discriminate H]|].
  destruct (test_literal vp_sqlInjection false fixed);
    [split; [intros H; discriminate H
            | intros (_ & _ & (_ & _ & _ & H & _) & _); discriminate H]|].
  cbn [app].
  destruct (includes fixed backticks).
  { split; [intros H; discriminate H | intros (_ & _ & _ & H); discriminate H]. }
  split; [|reflexivity]. intros _. repeat split; try assumption.
Qed.

End AIPath.

End FixRouteTheorems.

Section FixRouteExamples.
Import JS FixRoute FixRouteFacts.

Lemma fix_falls_back_without_proposal_witness :
  generateAIFix Samples.parse (ZAI.Completed (Some "not json"))
    Claims.empty_eval_finding "x = eval(y)" "app.js" "javascript"
  = generateRuleBasedFix Claims.empty_eval_finding "x = eval(y)" "javascript".
Proof.
  apply (fix_falls_back_without_proposal Samples.parse (ZAI.Completed (Some "not json"))
           Claims.empty_eval_finding "x = eval(y)" "app.js" "javascript").
  vm_compute. reflexivity.
Defined.

Lemma fix_hands_on_the_proposal_witness :
  exists isValid issues explanation confidence changes,
    validateFix (Some (JStr "x = JSON.parse(y)")) "x = eval(y)" = Ok (isValid, issues)
    /\ get_property
         (JObj [("fixedCode", JStr "x = JSON.parse(y)"); ("confidence", JNum 90)])
         "explanation" = Ok explanation
    /\ get_property
         (JObj [("fixedCode", JStr "x = JSON.parse(y)"); ("confidence", JNum 90)])
         "confidence" = Ok confidence
    /\ get_property
         (JObj [("fixedCode", JStr "x = JSON.parse(y)"); ("confidence", JNum 90)])
         "changes" = Ok changes
    /\ generateAIFix Samples.parse (ZAI.Completed (Some Samples.fix_reply))
         Claims.empty_eval_finding "x = eval(y)" "app.js" "javascript"
       = Ok (AIResponse isValid (Some (JStr "x = JSON.parse(y)"))
               explanation confidence changes)
    /\ (isValid = true <-> issues = []).
Proof.
  apply (fix_hands_on_the_proposal Samples.parse (ZAI.Completed (Some Samples.fix_reply))
           Claims.empty_eval_finding "x = eval(y)" "app.js" "javascript").
  vm_compute. reflexivity.
Defined.

Lemma ai_success_iff_valid_witness :
  reports_success
    (POST Samples.parse
       (Ok (Some (mkFixRequest Claims.empty_eval_finding "x = eval(y)" "app.js"
                    "javascript")))
       (Ok tt) (ZAI.Completed (Some Samples.fix_reply))) = true.
Proof.
  apply (ai_success_iff_valid Samples.parse (ZAI.Completed (Some Samples.fix_reply))
           Claims.empty_eval_finding "x = eval(y)" "app.js" "javascript"
           (JObj [("fixedCode", JStr "x = JSON.parse(y)"); ("confidence", JNum 90)])
           "x = JSON.parse(y)").
  - vm_compute. reflexivity.
  - split; [vm_compute; discriminate|].
    split; [vm_compute; discriminate|].
    split; [|vm_compute; reflexivity].
    repeat constructor.
Defined.

End FixRouteExamples.

(* ================================================================== *)
(** * The AI service: enhancing the issues                           *)
(* ================================================================== *)

Section AIServiceTheorems.
Import JS AIService.

Lemma lineAt_inside (document : TextDocument) (i : Z) :
  (0 <= i < lineCount document)%Z ->
  exists l, doc_lines document !! Z.to_nat i = Some l /\ lineAt document i = Ok l.
Proof.
  unfold lineCount, lineAt, Array_get. intros Hi.
  destruct (Z.leb_spec 0 i) as [_|Hneg]; [|lia].
  destruct (lookup_lt_is_Some_2 (doc_lines document) (Z.to_nat i) ltac:(lia)) as [l Hl].
  exists l. rewrite Hl. auto.
Qed.

Lemma lineAt_outside (document : TextDocument) (i : Z) :
  ~ (0 <= i < lineCount document)%Z -> lineAt document i = Throw IllegalArgument.
Proof.
  unfold lineCount, lineAt, Array_get. intros Hi.
  destruct (Z.leb_spec 0 i) as [Hge|Hneg]; [|reflexivity].
  rewrite (proj2 (lookup_ge_None _ _)) by lia. reflexivity.
Qed.

(** The context loop stays inside the document, whatever the line. *)
Lemma getCodeContext_returns (document : TextDocument) (L : Z) :
  exists context, getCodeContext document L = Ok context.
Proof.
  unfold getCodeContext, lineCount. cbv zeta.
  set (n := Z.of_nat (length (doc_lines document))).
  destruct (Z.le_gt_cases (Z.min n (L + 3)) (Z.max 0 (L - 3))) as [Hempty|Hsome].
  - replace (Z.to_nat (Z.min n (L + 3) - Z.max 0 (L - 3))) with 0 by lia.
    cbn. eauto.
  - remember (Z.to_nat (Z.min n (L + 3) - Z.max 0 (L - 3))) as count eqn:Hcount.
    replace (Z.max 0 (L - 3)) with (Z.of_nat (Z.to_nat (Z.max 0 (L - 3)))) by lia.
    rewrite collect_lines_take_drop by (unfold n in *; lia).
    cbn [bind]. eauto.
Qed.

Lemma confidence_bounds (code : string) (issue : SonarIssue) :
  (65 <= calculateConfidence code issue <= 95)%Z.
Proof.
  unfold calculateConfidence.
  destruct (String.eqb (severity issue) "BLOCKER"
            || String.eqb (severity issue) "CRITICAL");
    destruct (String.eqb (severity issue) "MAJOR");
    destruct (includes (rule issue) "S4784" || includes (rule issue) "S5443");
    destruct (100 <? String.length code); lia.
Qed.

Lemma enhanceWithAI_inside (document : TextDocument) (sonarIssue : SonarIssue) :
  (1 <= line sonarIssue <= lineCount document)%Z ->
  exists lineContent,
    doc_lines document !! Z.to_nat (line sonarIssue - 1) = Some lineContent
    /\ enhanceWithAI document sonarIssue
       = Ok (mkVulnerability (key sonarIssue) (mapSeverity (severity sonarIssue))
               (issue_type sonarIssue) (fileName document) (line sonarIssue)
               (message sonarIssue) (calculateConfidence lineContent sonarIssue)
               (Some (generateSuggestedFix sonarIssue))
               (Some (generateExplanation sonarIssue))).
Proof.
  intros Hin. unfold enhanceWithAI.
  destruct (lineAt_inside document (line sonarIssue - 1) ltac:(lia)) as (l & Hl & ->).
  destruct (getCodeContext_returns document (line sonarIssue)) as [context ->].
  exists l. split; [exact Hl | reflexivity].
Qed.

Lemma enhanceWithAI_outside (document : TextDocument) (sonarIssue : SonarIssue) :
  ~ (1 <= line sonarIssue <= lineCount document)%Z ->
  enhanceWithAI document sonarIssue = Throw IllegalArgument.
Proof.
  intros Hout. unfold enhanceWithAI. rewrite lineAt_outside by lia. reflexivity.
Qed.

Lemma enhance_each_inside (document : TextDocument) (sonarIssues : list SonarIssue) :
  Forall (fun issue => (1 <= line issue <= lineCount document)%Z) sonarIssues ->
  exists vulnerabilities,
    AIAnalysis.enhance_each document sonarIssues = Ok vulnerabilities
    /\ Forall2 (fun issue v => enhanceWithAI document issue = Ok v)
         sonarIssues vulnerabilities.
Proof.
  induction 1 as [|issue rest Hissue _ (vs & Hvs & Hall)].
  - exists []. split; [reflexivity | constructor].
  - destruct (enhanceWithAI document issue) as [v|e] eqn:Hv.
    + exists (v :: vs). cbn [AIAnalysis.enhance_each]. rewrite Hv, Hvs. cbn [bind].
      split; [reflexivity | constructor; assumption].
    + exfalso. destruct (enhanceWithAI_inside document issue Hissue) as (l & _ & Hrun).
      congruence.
Qed.

Lemma enhance_each_outside (document : TextDocument) (sonarIssues : list SonarIssue) :
  Exists (fun issue => ~ (1 <= line issue <= lineCount document)%Z) sonarIssues ->
  AIAnalysis.enhance_each document sonarIssues = Throw IllegalArgument.
Proof.
  induction 1 as [issue rest Hout|issue rest _ IH]; cbn [AIAnalysis.enhance_each].
  - rewrite (enhanceWithAI_outside document issue Hout). reflexivity.
  - destruct (enhanceWithAI document issue) as [v|e] eqn:Hv; cbn [bind].
    + rewrite IH. reflexivity.
    + unfold enhanceWithAI in Hv.
      destruct (lineAt document (line issue - 1)) as [l|e'] eqn:Hl; cbn [bind] in Hv.
      * destruct (getCodeContext_returns document (line issue)) as [ctx Hctx].
        rewrite Hctx in Hv. discriminate Hv.
      * unfold lineAt in Hl. destruct (Array_get _ _); [discriminate Hl|].
        injection Hl as <-. injection Hv as <-. reflexivity.
Qed.

End AIServiceTheorems.

(** X12.  The enhancement of the AI service reads the line of the issue
    before its try block.  For an issue whose line is outside the
    document it throws; for every other issue it returns the finding
    with the computed confidence, which lies between 65 and 95, and with
    a suggested fix and an explanation.  The finding of its catch block,
    with confidence 70 and no suggested fix, is never returned. *)
Theorem enhanceWithAI_cases (document : AIService.TextDocument)
    (sonarIssue : AIService.SonarIssue) :
  (AIService.enhanceWithAI document sonarIssue = JS.Throw JS.IllegalArgument
   <-> ~ (1 <= AIService.line sonarIssue <= AIService.lineCount document)%Z)
  /\ (forall v, AIService.enhanceWithAI document sonarIssue = JS.Ok v ->
        exists lineContent,
          AIService.doc_lines document !! Z.to_nat (AIService.line sonarIssue - 1)
          = Some lineContent
          /\ v = AIService.mkVulnerability (AIService.key sonarIssue)
                   (AIService.mapSeverity (AIService.severity sonarIssue))
                   (AIService.issue_type sonarIssue) (AIService.fileName document)
                   (AIService.line sonarIssue) (AIService.message sonarIssue)
                   (AIService.calculateConfidence lineContent sonarIssue)
                   (Some (AIService.generateSuggestedFix sonarIssue))
                   (Some (AIService.generateExplanation sonarIssue))
          /\ (65 <= AIService.v_confidence v <= 95)%Z).
Proof.
  destruct (Z.le_gt_cases 1 (AIService.line sonarIssue)) as [Hlo|Hlo];
    [destruct (Z.le_gt_cases (AIService.line sonarIssue) (AIService.lineCount document))
       as [Hhi|Hhi]|].
  - destruct (enhanceWithAI_inside document sonarIssue ltac:(lia)) as (l & Hl & Hrun).
    rewrite Hrun. split.
    + split; [intros H; discriminate H | lia].
    + intros v Hv. injection Hv as <-. exists l. split; [exact Hl|].
      split; [reflexivity | apply confidence_bounds].
  - rewrite enhanceWithAI_outside by lia. split.
    + split; [lia | reflexivity].
    + intros v Hv. discriminate Hv.
  - rewrite enhanceWithAI_outside by lia. split.
    + split; [lia | reflexivity].
    + intros v Hv. discriminate Hv.
Qed.

(** X13.  The analysis of the AI service is all or nothing: one issue
    whose line is outside the document makes it throw, and nothing is
    returned for the other issues; otherwise it returns one finding for
    each issue, in order, followed by the findings of the pattern
    analysis. *)
Theorem analyzeVulnerabilities_all_or_nothing (random : nat -> string)
    (document : AIService.TextDocument) (sonarIssues : list AIService.SonarIssue) :
  (Exists (fun issue => ~ (1 <= AIService.line issue <= AIService.lineCount document)%Z)
     sonarIssues ->
   AIAnalysis.analyzeVulnerabilities random document sonarIssues
   = JS.Throw JS.IllegalArgument)
  /\ (Forall (fun issue => (1 <= AIService.line issue <= AIService.lineCount document)%Z)
        sonarIssues ->
      exists vulnerabilities,
        AIAnalysis.analyzeVulnerabilities random document sonarIssues
        = JS.Ok (map inl vulnerabilities
                 ++ map inr (AIAnalysis.performAIAnalysis random document))
        /\ Forall2 (fun issue v => AIService.enhanceWithAI document issue = JS.Ok v)
             sonarIssues vulnerabilities).
Proof.
  unfold AIAnalysis.analyzeVulnerabilities. split.
  - intros Hout. rewrite (enhance_each_outside document sonarIssues Hout). reflexivity.
  - intros Hin. destruct (enhance_each_inside document sonarIssues Hin) as (vs & -> & Hall).
    exists vs. split; [reflexivity | exact Hall].
Qed.

(* ================================================================== *)
(** * The mock issues of the SonarQube service                       *)
(* ================================================================== *)

Section MockIssues.
Import JS AIService Text SonarQubeService.

Lemma split_nl_line_then (x s : string) :
  split_nl x = [x] -> split_nl (x +:+ nl +:+ s) = x :: split_nl s.
Proof.
  induction x as [|c x IH]; intros Hx.
  - reflexivity.
  - change (String c x +:+ nl +:+ s) with (String c (x +:+ nl +:+ s)).
    cbn [split_nl] in *. destruct (Ascii.eqb c LF); [discriminate Hx|].
    destruct (split_nl x) as [|l ls] eqn:Hs; [exfalso; exact (split_nl_nonempty x Hs)|].
    injection Hx as -> ->. rewrite IH by reflexivity. reflexivity.
Qed.

(** The text of a well-formed document splits into the lines of the
    document. *)
Lemma split_getText (document : TextDocument) :
  well_formed document -> split_nl (getText document) = doc_lines document.
Proof.
  unfold well_formed, getText. intros [Hne Hall].
  induction Hall as [|x rest Hx Hrest IH]; [contradiction|].
  destruct rest as [|y rest'].
  - cbn [join]. exact Hx.
  - change (join nl (x :: y :: rest')) with (x +:+ nl +:+ join nl (y :: rest')).
    rewrite split_nl_line_then by exact Hx. f_equal. apply IH. discriminate.
Qed.

(** What the mock issues of a line are. *)
Lemma mock_issues_shape (component l : string) (lineNumber : nat) (issue : SonarIssue) :
  In issue (mock_issues component l lineNumber) ->
  line issue = Z.of_nat lineNumber
  /\ AIService.component issue = component
  /\ (severity issue = "CRITICAL" \/ severity issue = "BLOCKER")
  /\ issue_type issue = "VULNERABILITY"
  /\ exists k, In k ["1"; "2"; "3"; "4"]
               /\ key issue = "mock-" +:+ Number_toString lineNumber +:+ "-" +:+ k.
Proof.
  unfold mock_issues. intros Hin.
  repeat (apply in_app_or in Hin as [Hin|Hin]);
    match type of Hin with
    | In _ (if ?c then _ else _) => destruct c; [destruct Hin as [<-|[]] | destruct Hin]
    end; cbn; repeat split; auto;
    [exists "1" | exists "2" | exists "3" | exists "4"]; cbn; auto 10.
Qed.

Lemma mock_lines_shape (component : string) (lines : list string) (first : nat)
    (issue : SonarIssue) :
  In issue (mock_lines component first lines) ->
  exists k l, lines !! k = Some l
              /\ In issue (mock_issues component l (first + k + 1)).
Proof.
  revert first. induction lines as [|l rest IH]; intros first; cbn [mock_lines];
    [intros []|].
  intros Hin. apply in_app_or in Hin as [Hin|Hin].
  - exists 0, l. split; [reflexivity|]. rewrite Nat.add_0_r. exact Hin.
  - destruct (IH (S first) Hin) as (k & l' & Hk & Hin').
    exists (S k), l'. split; [exact Hk|].
    replace (first + S k + 1) with (S first + k + 1) by lia. exact Hin'.
Qed.

End MockIssues.

(** X14.  Every mock issue points at a line of the document, so the
    enhancement of the AI service never throws on the mock issues of a
    document; each of them comes back as a finding of severity critical
    with a confidence between 80 and 95. *)
Theorem mock_issues_are_enhanced (document : AIService.TextDocument) :
  SonarQubeService.well_formed document ->
  exists vulnerabilities,
    AIAnalysis.enhance_each document (SonarQubeService.getMockIssues document)
    = JS.Ok vulnerabilities
    /\ length vulnerabilities = length (SonarQubeService.getMockIssues document)
    /\ Forall (fun v =>
                 AIService.v_severity v = JS.Own critical
                 /\ (80 <= AIService.v_confidence v <= 95)%Z
                 /\ (1 <= AIService.v_line v <= AIService.lineCount document)%Z
                 /\ AIService.v_file v = AIService.fileName document
                 /\ AIService.v_suggestedFix v <> None)
         vulnerabilities.
Proof.
  intros Hwf.
  assert (Hshape : Forall (fun issue =>
                     (1 <= AIService.line issue <= AIService.lineCount document)%Z
                     /\ (AIService.severity issue = "CRITICAL"
                         \/ AIService.severity issue = "BLOCKER"))
                     (SonarQubeService.getMockIssues document)).
  { apply Forall_forall. intros issue Hin. apply list_elem_of_In in Hin.
    unfold SonarQubeService.getMockIssues in Hin.
    rewrite (split_getText document Hwf) in Hin.
    destruct (mock_lines_shape _ _ _ _ Hin) as (k & l & Hk & Hin').
    destruct (mock_issues_shape _ _ _ _ Hin') as (Hline & _ & Hsev & _).
    apply lookup_lt_Some in Hk. unfold AIService.lineCount.
    split; [lia | exact Hsev]. }
  destruct (enhance_each_inside document (SonarQubeService.getMockIssues document))
    as (vs & Hrun & Hall).
  { eapply Forall_impl; [exact Hshape|]. intros issue [H _]. exact H. }
  exists vs. split; [exact Hrun|]. split.
  { symmetry. eapply Forall2_length. exact Hall. }
  clear Hrun. induction Hall as [|issue v issues vs' Hv _ IH]; [constructor|].
  inversion Hshape as [|? ? [Hline Hsev] Hshape']; subst.
  constructor; [|apply IH; exact Hshape'].
  destruct (enhanceWithAI_inside document issue Hline) as (l & _ & Hrun).
  rewrite Hrun in Hv. injection Hv as <-.
  cbn [AIService.v_severity AIService.v_confidence AIService.v_line AIService.v_file
       AIService.v_suggestedFix].
  repeat split; try lia; try discriminate.
  - destruct Hsev as [-> | ->]; vm_compute; reflexivity.
  - unfold AIService.calculateConfidence.
    destruct Hsev as [-> | ->]; cbn [String.eqb Ascii.eqb Bool.eqb orb];
      destruct (JS.includes (AIService.rule issue) "S4784"
                || JS.includes (AIService.rule issue) "S5443");
      destruct (100 <? String.length l); lia.
  - pose proof (confidence_bounds l issue). lia.
Qed.

Lemma mock_issues_are_enhanced_witness :
  exists vulnerabilities,
    AIAnalysis.enhance_each (AIService.mkDocument ["x = eval(y)"] "app.js" "javascript")
      (SonarQubeService.getMockIssues
         (AIService.mkDocument ["x = eval(y)"] "app.js" "javascript"))
    = JS.Ok vulnerabilities
    /\ length vulnerabilities
       = length (SonarQubeService.getMockIssues
                   (AIService.mkDocument ["x = eval(y)"] "app.js" "javascript"))
    /\ Forall (fun v =>
                 AIService.v_severity v = JS.Own critical
                 /\ (80 <= AIService.v_confidence v <= 95)%Z
                 /\ (1 <= AIService.v_line v
                     <= AIService.lineCount
                          (AIService.mkDocument ["x = eval(y)"] "app.js" "javascript"))%Z
                 /\ AIService.v_file v
                    = AIService.fileName
                        (AIService.mkDocument ["x = eval(y)"] "app.js" "javascript")
                 /\ AIService.v_suggestedFix v <> None)
         vulnerabilities.
Proof.
  apply (mock_issues_are_enhanced
           (AIService.mkDocument ["x = eval(y)"] "app.js" "javascript")).
  split; [discriminate | repeat constructor].
Defined.

Section Identifiers.
Import JS AIService Text SonarQubeService.

Lemma digits_no_hyphen (d : Decimal.uint) : no_hyphen (NilEmpty.string_of_uint d).
Proof. induction d; cbn; [exact I | split; [discriminate | assumption] ..]. Qed.

Lemma Number_toString_no_hyphen (n : nat) : no_hyphen (Number_toString n).
Proof. apply digits_no_hyphen. Qed.

Lemma Number_toString_inj (n m : nat) : Number_toString n = Number_toString m -> n = m.
Proof.
  unfold Number_toString. intros H.
  assert (Hd : Nat.to_uint n = Nat.to_uint m).
  { pose proof (NilEmpty.usu (Nat.to_uint n)) as Hn.
    pose proof (NilEmpty.usu (Nat.to_uint m)) as Hm.
    rewrite H in Hn. congruence. }
  rewrite <- (Unsigned.of_to n), <- (Unsigned.of_to m), Hd. reflexivity.
Qed.

Lemma append_nil_l (s : string) : EmptyString +:+ s = s.
Proof. reflexivity. Qed.

(** Two texts that agree up to their first hyphen and after it. *)
Lemma split_at_hyphen (d d' k k' : string) :
  no_hyphen d -> no_hyphen d' ->
  d +:+ "-" +:+ k = d' +:+ "-" +:+ k' -> d = d' /\ k = k'.
Proof.
  revert d'. induction d as [|c d IH]; intros [|c' d'] Hd Hd' Heq;
    rewrite ?append_cons, ?append_nil_l in Heq.
  - injection Heq as ->. auto.
  - injection Heq as <- _. destruct Hd' as [Hc _]. contradiction.
  - injection Heq as -> _. destruct Hd as [Hc _]. contradiction.
  - injection Heq as -> Heq. destruct Hd as [_ Hd]. destruct Hd' as [_ Hd'].
    destruct (IH d' Hd Hd' Heq) as [-> ->]. auto.
Qed.

Lemma append_inv_head (a x y : string) : a +:+ x = a +:+ y -> x = y.
Proof.
  induction a as [|c a IH]; [auto|].
  change (String c a +:+ x) with (String c (a +:+ x)).
  change (String c a +:+ y) with (String c (a +:+ y)).
  intros H. injection H as H. auto.
Qed.

(** The key of a mock issue tells its line and its slot. *)
Lemma mock_key_inj (n m : nat) (k k' : string) :
  "mock-" +:+ Number_toString n +:+ "-" +:+ k
  = "mock-" +:+ Number_toString m +:+ "-" +:+ k' ->
  n = m /\ k = k'.
Proof.
  intros H. apply append_inv_head in H.
  apply split_at_hyphen in H as [Hn Hk]; try apply Number_toString_no_hyphen.
  split; [apply Number_toString_inj; exact Hn | exact Hk].
Qed.

Lemma mock_issues_keys_NoDup (component l : string) (lineNumber : nat) :
  NoDup (map key (mock_issues component l lineNumber)).
Proof.
  unfold mock_issues.
  repeat match goal with
         | |- context [if ?c then [_] else []] => destruct c
         end; cbn [app map key];
    repeat (apply NoDup_cons; split;
            [intros H;
             repeat (apply elem_of_cons in H as [H|H];
                     [apply mock_key_inj in H as [_ H]; discriminate H|]);
             apply elem_of_nil in H; exact H|]);
    apply NoDup_nil_2.
Qed.

Lemma mock_lines_keys_NoDup (component : string) (lines : list string) (first : nat) :
  NoDup (map key (mock_lines component first lines)).
Proof.
  revert first. induction lines as [|l rest IH]; intros first; cbn [mock_lines map].
  - apply NoDup_nil_2.
  - rewrite map_app. apply NoDup_app. split; [apply mock_issues_keys_NoDup|].
    split; [|apply IH].
    intros x Hx Hx'.
    apply list_elem_of_fmap in Hx as (i1 & -> & Hi1).
    apply list_elem_of_fmap in Hx' as (i2 & Heq & Hi2).
    apply list_elem_of_In in Hi1, Hi2.
    destruct (mock_issues_shape _ _ _ _ Hi1) as (_ & _ & _ & _ & k1 & _ & Hk1).
    destruct (mock_lines_shape _ _ _ _ Hi2) as (j & l' & _ & Hi2').
    destruct (mock_issues_shape _ _ _ _ Hi2') as (_ & _ & _ & _ & k2 & _ & Hk2).
    rewrite Hk1, Hk2 in Heq. apply mock_key_inj in Heq as [Hn _]. lia.
Qed.

End Identifiers.

(** X15.  The keys of the mock issues of a document are pairwise
    distinct: a key is made of the number of the line and the number of
    the test that raised the issue. *)
Theorem mock_issue_keys_distinct (document : AIService.TextDocument) :
  NoDup (map AIService.key (SonarQubeService.getMockIssues document)).
Proof.
  unfold SonarQubeService.getMockIssues. apply mock_lines_keys_NoDup.
Qed.

(* ================================================================== *)
(** * The pattern analysis of the AI service                         *)
(* ================================================================== *)

Section PatternAnalysis.
Import JS AIService AIAnalysis AIAnalysisFacts.

Lemma suggestion_of_pattern (p : LinePattern) (code language : string) :
  In p patterns ->
  exists s, suggestions !! lp_type p = Some s
            /\ generateFixSuggestion code (lp_type p) language = Own s
            /\ (75 <= s_confidence s <= 90)%Z.
Proof.
  unfold patterns. cbn [In]. intros Hp.
  repeat (destruct Hp as [<-|Hp];
          [eexists; split; [vm_compute; reflexivity|];
           split; [vm_compute; reflexivity | cbn; lia]|]).
  destruct Hp.
Qed.

(** One step of the loop over the patterns. *)
Lemma analyze_pattern_step (random : nat -> string) (line : string) (lineNumber : nat)
    (document : TextDocument) (vs : list Detected) (calls : nat) (p : LinePattern) :
  In p patterns ->
  exists d,
    carries document lineNumber p d
    /\ analyze_pattern random line lineNumber document (vs, calls) p
       = if test_literal (lp_pattern p) false line then (vs ++ [d], S calls)
         else (vs, calls).
Proof.
  intros Hp. destruct (suggestion_of_pattern p line (languageId document) Hp)
    as (s & Hs & Hgen & Hconf).
  unfold analyze_pattern. rewrite Hgen.
  eexists. split; [|reflexivity].
  unfold carries. cbn. repeat split. exists s. repeat split; try assumption; lia.
Qed.

Lemma fold_patterns_step (random : nat -> string) (line : string) (lineNumber : nat)
    (document : TextDocument) (ps : list LinePattern) :
  Forall (fun p => In p patterns) ps ->
  forall (vs : list Detected) (calls : nat),
  exists found,
    fst (fold_left (analyze_pattern random line lineNumber document) ps (vs, calls))
    = vs ++ found
    /\ (forall d, In d found ->
                  exists p, In p ps /\ test_literal (lp_pattern p) false line = true
                            /\ carries document lineNumber p d)
    /\ (forall p, In p ps -> test_literal (lp_pattern p) false line = true ->
                  exists d, In d found /\ carries document lineNumber p d).
Proof.
  induction 1 as [|p ps Hp _ IH]; intros vs calls.
  - exists []. cbn. rewrite app_nil_r. repeat split; [intros d [] | intros p []].
  - cbn [fold_left].
    destruct (analyze_pattern_step random line lineNumber document vs calls p Hp)
      as (d & Hd & ->).
    destruct (test_literal (lp_pattern p) false line) eqn:Ht.
    + destruct (IH (vs ++ [d]) (S calls)) as (found & Hf & Hsound & Hcomplete).
      exists (d :: found). rewrite Hf, <- app_assoc. split; [reflexivity|]. split.
      * intros d' [<-|Hin]; [exists p; cbn; auto|].
        destruct (Hsound d' Hin) as (q & Hq & Hrest). exists q. cbn; auto.
      * intros q [<-|Hq] Htq; [exists d; cbn; auto|].
        destruct (Hcomplete q Hq Htq) as (d' & Hin & Hc). exists d'. cbn; auto.
    + destruct (IH vs calls) as (found & Hf & Hsound & Hcomplete).
      exists found. split; [exact Hf|]. split.
      * intros d' Hin. destruct (Hsound d' Hin) as (q & Hq & Hrest). exists q. cbn; auto.
      * intros q [<-|Hq] Htq; [congruence|]. apply Hcomplete; assumption.
Qed.

Lemma analyze_lines_step (random : nat -> string) (document : TextDocument)
    (lines : list string) :
  forall (i : nat) (vs : list Detected) (calls : nat),
  exists found,
    fst (analyze_lines random document i lines (vs, calls)) = vs ++ found
    /\ (forall d, In d found ->
                  exists k line p,
                    lines !! k = Some line /\ In p patterns
                    /\ test_literal (lp_pattern p) false line = true
                    /\ carries document (i + k + 1) p d)
    /\ (forall k line p,
          lines !! k = Some line -> In p patterns ->
          test_literal (lp_pattern p) false line = true ->
          exists d, In d found /\ carries document (i + k + 1) p d).
Proof.
  induction lines as [|line rest IH]; intros i vs calls.
  - exists []. cbn. rewrite app_nil_r. split; [reflexivity|]. split.
    + intros d [].
    + intros k line p Hk. rewrite lookup_nil in Hk. discriminate Hk.
  - cbn [analyze_lines]. unfold analyzeLineWithAI.
    destruct (fold_patterns_step random line (i + 1) document patterns
                ltac:(apply Forall_forall; intros p Hp; apply list_elem_of_In; exact Hp)
                [] calls) as (here & Hhere & Hsound & Hcomplete).
    destruct (fold_left _ patterns ([], calls)) as [aiIssues calls'].
    cbn [fst app] in Hhere. subst aiIssues.
    destruct (IH (S i) (vs ++ here) calls') as (later & Hlater & Hsound' & Hcomplete').
    exists (here ++ later). rewrite Hlater, <- app_assoc. split; [reflexivity|]. split.
    + intros d Hin. apply in_app_or in Hin as [Hin|Hin].
      * destruct (Hsound d Hin) as (p & Hp & Ht & Hc).
        exists 0, line, p. rewrite Nat.add_0_r. auto.
      * destruct (Hsound' d Hin) as (k & l & p & Hk & Hp & Ht & Hc).
        exists (S k), l, p. replace (i + S k + 1) with (S i + k + 1) by lia. auto.
    + intros [|k] l p Hk Hp Ht.
      * cbn in Hk. injection Hk as <-.
        destruct (Hcomplete p Hp Ht) as (d & Hin & Hc).
        exists d. rewrite Nat.add_0_r. split; [apply in_or_app; auto | exact Hc].
      * cbn in Hk. destruct (Hcomplete' k l p Hk Hp Ht) as (d & Hin & Hc).
        exists d. replace (i + S k + 1) with (S i + k + 1) by lia.
        split; [apply in_or_app; auto | exact Hc].
Qed.

Lemma pattern_types_distinct (p q : LinePattern) :
  In p patterns -> In q patterns -> lp_type p = lp_type q -> p = q.
Proof.
  unfold patterns. cbn [In]. intros Hp Hq.
  repeat (destruct Hp as [<-|Hp]);
    try (destruct Hp);
    repeat (destruct Hq as [<-|Hq]); try (destruct Hq);
    cbn; intros H; first [reflexivity | discriminate H].
Qed.

End PatternAnalysis.

(** X16.  The pattern analysis of the AI service looks at every line
    afresh: a line is reported for a pattern exactly when the pattern
    matches the line, whatever the lines before it hold. *)
Theorem pattern_analysis_reports_every_line (random : nat -> string)
    (document : AIService.TextDocument) (k : nat) (line : string)
    (p : AIAnalysis.LinePattern) :
  JS.split_nl (SonarQubeService.getText document) !! k = Some line ->
  In p AIAnalysis.patterns ->
  JS.test_literal (AIAnalysis.lp_pattern p) false line = true
  <-> exists d,
        In d (AIAnalysis.performAIAnalysis random document)
        /\ AIAnalysis.d_line d = (Z.of_nat k + 1)%Z
        /\ AIAnalysis.d_type d = AIAnalysis.lp_type p.
Proof.
  intros Hk Hp. unfold AIAnalysis.performAIAnalysis.
  destruct (analyze_lines_step random document
              (JS.split_nl (SonarQubeService.getText document)) 0 [] 0)
    as (found & -> & Hsound & Hcomplete).
  cbn [app]. split.
  - intros Ht. destruct (Hcomplete k line p Hk Hp Ht) as (d & Hin & Hline & Hty & _).
    exists d. split; [exact Hin|]. split; [rewrite Hline; lia | exact Hty].
  - intros (d & Hin & Hline & Hty).
    destruct (Hsound d Hin) as (k' & line' & p' & Hk' & Hp' & Ht & Hline' & Hty' & _).
    assert (k' = k) by lia. subst k'.
    assert (line' = line) by congruence. subst line'.
    assert (p' = p) by (apply pattern_types_distinct; congruence). subst p'.
    exact Ht.
Qed.

Lemma pattern_analysis_reports_every_line_witness :
  JS.test_literal AIAnalysis.re_Math_random false "b = Math.random()" = true
  <-> exists d,
        In d (AIAnalysis.performAIAnalysis (fun _ => "r")
                (AIService.mkDocument ["a = Math.random()"; "b = Math.random()"]
                   "app.js" "javascript"))
        /\ AIAnalysis.d_line d = (Z.of_nat 1 + 1)%Z
        /\ AIAnalysis.d_type d = "Weak Random Number Generation".
Proof.
  apply (pattern_analysis_reports_every_line (fun _ => "r")
           (AIService.mkDocument ["a = Math.random()"; "b = Math.random()"]
              "app.js" "javascript")
           1 "b = Math.random()"
           (AIAnalysis.mkLinePattern AIAnalysis.re_Math_random
              "Weak Random Number Generation" low
              "Math.random is not cryptographically secure")).
  - vm_compute. reflexivity.
  - vm_compute. right. right. right. left. reflexivity.
Defined.

(** X17.  Every finding of the pattern analysis names a line of the text
    that its pattern matches, and carries the type, severity and
    description of the pattern and the confidence, suggested fix and
    explanation that the table of suggestions has for the type; the
    confidence lies between 75 and 90.  The default suggestion, with
    confidence 60, is never used. *)
Theorem pattern_analysis_findings (random : nat -> string)
    (document : AIService.TextDocument) (d : AIAnalysis.Detected) :
  In d (AIAnalysis.performAIAnalysis random document) ->
  exists k line p,
    JS.split_nl (SonarQubeService.getText document) !! k = Some line
    /\ In p AIAnalysis.patterns
    /\ JS.test_literal (AIAnalysis.lp_pattern p) false line = true
    /\ AIAnalysisFacts.carries document (k + 1) p d.
Proof.
  unfold AIAnalysis.performAIAnalysis.
  destruct (analyze_lines_step random document
              (JS.split_nl (SonarQubeService.getText document)) 0 [] 0)
    as (found & -> & Hsound & _).
  cbn [app]. intros Hin.
  destruct (Hsound d Hin) as (k & line & p & Hk & Hp & Ht & Hc).
  exists k, line, p. auto.
Qed.

Lemma pattern_analysis_findings_witness :
  exists k line p,
    JS.split_nl (SonarQubeService.getText
                   (AIService.mkDocument ["a = Math.random()"] "app.js" "javascript"))
      !! k = Some line
    /\ In p AIAnalysis.patterns
    /\ JS.test_literal (AIAnalysis.lp_pattern p) false line = true
    /\ AIAnalysisFacts.carries
         (AIService.mkDocument ["a = Math.random()"] "app.js" "javascript") (k + 1) p
         (AIAnalysis.mkDetected ("ai-" +:+ "1" +:+ "-" +:+ "r") low
            "Weak Random Number Generation" "app.js" 1
            "Math.random is not cryptographically secure" (Some 75%Z)
            (Some "Use crypto.randomBytes() for cryptographically secure random numbers")
            (Some "Cryptographically secure random numbers are essential for security-sensitive operations")).
Proof.
  apply (pattern_analysis_findings (fun _ => "r")
           (AIService.mkDocument ["a = Math.random()"] "app.js" "javascript")).
  vm_compute. left. reflexivity.
Defined.

(* ================================================================== *)
(** * The fix strategies of the AI service                           *)
(* ================================================================== *)

Section FixStrategies.
Import JS AIService AIAnalysis.

Lemma strategies_lookup (t : string) :
  strategies !! t <> None ->
  t = "Code Injection" \/ t = "Cross-Site Scripting (XSS)"
  \/ t = "Hardcoded Credentials" \/ t = "SQL Injection".
Proof.
  unfold strategies. intros H.
  destruct (String.eqb_spec t "Code Injection") as [->|H1]; [auto|].
  destruct (String.eqb_spec t "Cross-Site Scripting (XSS)") as [->|H2]; [auto|].
  destruct (String.eqb_spec t "Hardcoded Credentials") as [->|H3]; [auto|].
  destruct (String.eqb_spec t "SQL Injection") as [->|H4]; [auto 10|].
  exfalso. apply H.
  repeat (rewrite lookup_insert_ne by congruence).
  apply lookup_singleton_ne. congruence.
Qed.

Lemma strategies_first (t : string) (l : list Strategy) :
  strategies !! t = Some l -> exists s, l !! 0 = Some s.
Proof.
  intros H. assert (Hne : strategies !! t <> None) by congruence.
  unfold strategies in H.
  destruct (strategies_lookup t Hne) as [-> | [-> | [-> | ->]]];
    repeat (rewrite lookup_insert_ne in H by discriminate);
    first [rewrite lookup_insert_eq in H | rewrite lookup_singleton_eq in H];
    injection H as <-; eexists; reflexivity.
Qed.

(** [generateAIFix] throws exactly on the names of Object.prototype. *)
Lemma strategy_fix_cases (t code context language : string) :
  match generateAIFix t code context language with
  | Ok _ => t ∉ Object_prototype \/ strategies !! t <> None
  | Throw e => e = TypeError /\ t ∈ Object_prototype /\ strategies !! t = None
  end.
Proof.
  unfold generateAIFix, getFixStrategies, literal_get.
  destruct (strategies !! t) as [l|] eqn:Hl.
  - destruct (strategies_first t l Hl) as [s ->]. right. discriminate.
  - destruct (bool_decide (t ∈ Object_prototype)) eqn:Hp.
    + apply bool_decide_eq_true in Hp. auto.
    + apply bool_decide_eq_false in Hp. cbn. auto.
Qed.

Lemma generateAIFix_default (t code context language : string) :
  strategies !! t = None -> t ∉ Object_prototype ->
  generateAIFix t code context language
  = Ok (mkAIFix ("// TODO: Apply security fix for: " +:+ code)
          "Apply security best practices" 70
          "Review and implement appropriate security measures").
Proof.
  intros Hnone Hout. unfold generateAIFix, getFixStrategies, literal_get.
  rewrite Hnone. rewrite bool_decide_eq_false_2 by exact Hout. reflexivity.
Qed.

Lemma generateFix_inside (t : string) (L : Z) (document : TextDocument) (l : string) :
  doc_lines document !! Z.to_nat (L - 1) = Some l ->
  (1 <= L)%Z ->
  generateFix t L document
  = match generateAIFix t l EmptyString (languageId document) with
    | Ok f => Ok (Some f)
    | Throw _ => Ok None
    end.
Proof.
  intros Hl HL. unfold generateFix.
  assert (Hin : (0 <= L - 1 < lineCount document)%Z).
  { apply lookup_lt_Some in Hl. unfold lineCount. lia. }
  destruct (lineAt_inside document (L - 1) Hin) as (l' & Hl' & ->).
  assert (l' = l) by congruence. subst l'.
  destruct (getCodeContext_returns document L) as [ctx ->]. cbn [bind].
  unfold generateAIFix.
  destruct (getFixStrategies t (languageId document)) as [ss|name]; [|reflexivity].
  destruct (ss !! 0); reflexivity.
Qed.

End FixStrategies.

(** X18.  The fix generation of the AI service never throws.  It answers
    null in two cases only: the line of the finding is outside the
    document, or the type of the finding is a name that the table of
    strategies inherits from Object.prototype. *)
Theorem generateFix_null_iff (vulnerabilityType : string) (vulnerabilityLine : Z)
    (document : AIService.TextDocument) :
  (exists answer,
      AIAnalysis.generateFix vulnerabilityType vulnerabilityLine document = JS.Ok answer)
  /\ (AIAnalysis.generateFix vulnerabilityType vulnerabilityLine document = JS.Ok None
      <-> ~ (1 <= vulnerabilityLine <= AIService.lineCount document)%Z
          \/ vulnerabilityType ∈ JS.Object_prototype).
Proof.
  destruct (Z.le_gt_cases 1 vulnerabilityLine) as [Hlo|Hlo];
    [destruct (Z.le_gt_cases vulnerabilityLine (AIService.lineCount document))
       as [Hhi|Hhi]|].
  - destruct (lineAt_inside document (vulnerabilityLine - 1) ltac:(lia)) as (l & Hl & _).
    rewrite (generateFix_inside _ _ _ l Hl Hlo).
    pose proof (strategy_fix_cases vulnerabilityType l EmptyString
                  (AIService.languageId document)) as Hc.
    destruct (AIAnalysis.generateAIFix vulnerabilityType l EmptyString
                (AIService.languageId document)) as [f|e].
    + split; [eauto|]. split; [intros H; discriminate H|].
      intros [Hout|Hp]; [lia|]. exfalso.
      destruct Hc as [Hc|Hc]; [contradiction|].
      apply strategies_lookup in Hc. revert Hp. unfold JS.Object_prototype.
      destruct Hc as [-> | [-> | [-> | ->]]]; intros Hp;
        repeat (apply elem_of_cons in Hp as [Hp|Hp]; [discriminate Hp|]);
        apply elem_of_nil in Hp; exact Hp.
    + split; [eauto|]. split; [|reflexivity]. intros _. right. tauto.
  - unfold AIAnalysis.generateFix. rewrite lineAt_outside by lia. cbn.
    split; [eauto|]. split; [intros _; left; lia | reflexivity].
  - unfold AIAnalysis.generateFix. rewrite lineAt_outside by lia. cbn.
    split; [eauto|]. split; [intros _; left; lia | reflexivity].
Qed.

(** X19.  No strategy of the table applies to what the service itself
    detects: for every finding of the pattern analysis of a document,
    the fix generation answers the default strategy, a comment in front
    of the flagged line, with confidence 70. *)
Theorem detected_findings_get_the_default_fix (random : nat -> string)
    (document : AIService.TextDocument) (d : AIAnalysis.Detected) :
  SonarQubeService.well_formed document ->
  In d (AIAnalysis.performAIAnalysis random document) ->
  exists line,
    AIService.doc_lines document !! Z.to_nat (AIAnalysis.d_line d - 1) = Some line
    /\ AIAnalysis.generateFix (AIAnalysis.d_type d) (AIAnalysis.d_line d) document
       = JS.Ok (Some (AIAnalysis.mkAIFix ("// TODO: Apply security fix for: " +:+ line)
                        "Apply security best practices" 70
                        "Review and implement appropriate security measures")).
Proof.
  intros Hwf Hin. unfold AIAnalysis.performAIAnalysis in Hin.
  destruct (analyze_lines_step random document
              (JS.split_nl (SonarQubeService.getText document)) 0 [] 0)
    as (found & Hf & Hsound & _).
  rewrite Hf in Hin. cbn [app] in Hin.
  destruct (Hsound d Hin) as (k & line & p & Hk & Hp & _ & Hline & Hty & _).
  rewrite (split_getText document Hwf) in Hk.
  exists line. rewrite Hline.
  replace (Z.to_nat (Z.of_nat (0 + k + 1) - 1)) with k by lia.
  split; [exact Hk|].
  rewrite (generateFix_inside _ _ _ line) by (try lia;
    replace (Z.to_nat (Z.of_nat (0 + k + 1) - 1)) with k by lia; exact Hk).
  rewrite generateAIFix_default; [reflexivity | |].
  - rewrite Hty. unfold AIAnalysis.patterns in Hp. cbn [In] in Hp.
    repeat (destruct Hp as [<-|Hp]; [vm_compute; reflexivity|]). destruct Hp.
  - rewrite Hty. unfold AIAnalysis.patterns in Hp. cbn [In] in Hp.
    unfold JS.Object_prototype.
    repeat (destruct Hp as [<-|Hp];
            [intros Hq; repeat (apply elem_of_cons in Hq as [Hq|Hq]; [discriminate Hq|]);
             apply elem_of_nil in Hq; exact Hq|]).
    destruct Hp.
Qed.

Lemma detected_findings_get_the_default_fix_witness :
  exists line,
    AIService.doc_lines (AIService.mkDocument ["a = Math.random()"] "app.js" "javascript")
      !! Z.to_nat (1 - 1) = Some line
    /\ AIAnalysis.generateFix "Weak Random Number Generation" 1
         (AIService.mkDocument ["a = Math.random()"] "app.js" "javascript")
       = JS.Ok (Some (AIAnalysis.mkAIFix ("// TODO: Apply security fix for: " +:+ line)
                        "Apply security best practices" 70
                        "Review and implement appropriate security measures")).
Proof.
  apply (detected_findings_get_the_default_fix (fun _ => "r")
           (AIService.mkDocument ["a = Math.random()"] "app.js" "javascript")
           (AIAnalysis.mkDetected ("ai-" +:+ "1" +:+ "-" +:+ "r") low
              "Weak Random Number Generation" "app.js" 1
              "Math.random is not cryptographically secure" (Some 75%Z)
              (Some "Use crypto.randomBytes() for cryptographically secure random numbers")
              (Some "Cryptographically secure random numbers are essential for security-sensitive operations"))).
  - split; [discriminate | repeat constructor].
  - vm_compute. left. reflexivity.
Defined.

(* ================================================================== *)
(** * The additional analysis of the analysis route                  *)
(* ================================================================== *)

Section SecurityAnalysisTheorems.
Import JS Text SecurityAnalysis.

Lemma detected_null (now : nat) (fileName : string) (index : nat) :
  detected now fileName JNull index = Throw TypeError.
Proof. reflexivity. Qed.

Lemma detected_mappable (now : nat) (fileName : string) (vuln : json) (index : nat) :
  mappable vuln ->
  exists d written,
    detected now fileName vuln index = Ok d
    /\ a_id d = "ai-detected-" +:+ Number_toString now +:+ "-" +:+ Number_toString index
    /\ a_file d = fileName
    /\ Ok (a_severity d) = get_property vuln "severity"
    /\ Ok (a_type d) = get_property vuln "type"
    /\ Ok (a_line d) = get_property vuln "line"
    /\ Ok (a_description d) = get_property vuln "description"
    /\ Ok (a_confidence d) = get_property vuln "confidence"
    /\ Ok (a_suggestedFix d) = get_property vuln "suggestedFix"
    /\ show (a_type d) = Ok written
    /\ a_aiAnalysis d = "AI-detected " +:+ written +:+ " vulnerability".
Proof.
  intros (type & written & Hty & Hw). unfold detected.
  destruct vuln; cbn [get_property] in Hty; try discriminate Hty;
    injection Hty as <-; cbn [get_property bind]; rewrite Hw; cbn [bind];
    eexists; exists written; (split; [reflexivity|]); cbn; repeat split;
    first [reflexivity | exact Hw].
Qed.

Lemma detected_unmappable (now : nat) (fileName : string) (vuln : json) (index : nat) :
  ~ mappable vuln -> exists e, detected now fileName vuln index = Throw e.
Proof.
  intros Hno. unfold detected, mappable in *.
  destruct vuln; cbn [get_property bind] in *; try (eexists; reflexivity);
    match goal with
    | |- context [show ?t] =>
        destruct (show t) as [written|e] eqn:Hw; cbn [bind];
          [exfalso; apply Hno; eauto | eexists; reflexivity]
    end.
Qed.

Lemma detected_id (now : nat) (fileName : string) (vuln : json) (index : nat)
    (d : AIDetected) :
  detected now fileName vuln index = Ok d ->
  a_id d = "ai-detected-" +:+ Number_toString now +:+ "-" +:+ Number_toString index.
Proof.
  unfold detected.
  destruct vuln; cbn [get_property bind]; try (intros H; discriminate H);
    match goal with
    | |- context [show ?t] =>
        destruct (show t) as [written|e]; cbn [bind]; intros H;
          [injection H as <-; reflexivity | discriminate H]
    end.
Qed.

Lemma map_detected_unmappable (clock : nat -> nat) (fileName : string) (l : list json) :
  forall index, Exists (fun v => ~ mappable v) l ->
                exists e, map_detected clock fileName index l = Throw e.
Proof.
  induction l as [|v rest IH]; intros index Hex; [inversion Hex|].
  cbn [map_detected].
  destruct (detected (clock index) fileName v index) as [d|e] eqn:Hd; cbn [bind];
    [|eauto].
  inversion Hex as [? ? Hv|? ? Hrest]; subst.
  - destruct (detected_unmappable (clock index) fileName v index Hv) as [e He].
    rewrite He in Hd. discriminate Hd.
  - destruct (IH (S index) Hrest) as [e ->]. cbn [bind]. eauto.
Qed.

Lemma map_detected_mappable (clock : nat -> nat) (fileName : string) (l : list json) :
  Forall mappable l ->
  forall index,
  exists found,
    map_detected clock fileName index l = Ok found
    /\ length found = length l
    /\ forall i v, l !! i = Some v ->
         exists d, found !! i = Some d
                   /\ detected (clock (index + i)) fileName v (index + i) = Ok d.
Proof.
  induction 1 as [|v rest Hv _ IH]; intros index.
  - exists []. repeat split. intros i v Hi. rewrite lookup_nil in Hi. discriminate Hi.
  - cbn [map_detected].
    destruct (detected_mappable (clock index) fileName v index Hv) as (d & w & Hd & _).
    rewrite Hd. cbn [bind].
    destruct (IH (S index)) as (found & -> & Hlen & Hall). cbn [bind].
    exists (d :: found). split; [reflexivity|]. split; [cbn; lia|].
    intros [|i] w' Hi.
    + cbn in Hi. injection Hi as <-. exists d. rewrite Nat.add_0_r. auto.
    + cbn in Hi. destruct (Hall i w' Hi) as (d' & Hd' & Hrun).
      exists d'. replace (index + S i) with (S index + i) by lia. auto.
Qed.

End SecurityAnalysisTheorems.

(** X20.  The additional analysis of the analysis route is all or
    nothing.  It yields no finding when the call is rejected, when the
    reply is not JSON or not an array, and when one element of the
    array cannot be mapped: it is null, or its type cannot be written
    into a template literal.  Otherwise it yields one finding for each
    element of the array, in order, numbered by its index, with the
    fields of the element under their names and the type written into
    the analysis text. *)
Theorem security_analysis_all_or_nothing (JSON_parse : string -> JS.result JS.json)
    (clock : nat -> nat) (reply : ZAI.Completion) (code fileName language : string) :
  let found :=
    SecurityAnalysis.performAISecurityAnalysis JSON_parse clock reply code fileName language
  in
  ((forall l, ZAI.parse_reply JSON_parse reply "[]" = JS.Ok (JS.JArr l) ->
              Exists (fun v => ~ SecurityAnalysis.mappable v) l) ->
   found = [])
  /\ (forall l,
        ZAI.parse_reply JSON_parse reply "[]" = JS.Ok (JS.JArr l) ->
        Forall SecurityAnalysis.mappable l ->
        length found = length l
        /\ forall i v, l !! i = Some v ->
             exists d written,
               found !! i = Some d
               /\ SecurityAnalysis.a_id d
                  = "ai-detected-" +:+ Text.Number_toString (clock i) +:+ "-"
                    +:+ Text.Number_toString i
               /\ SecurityAnalysis.a_file d = fileName
               /\ JS.Ok (SecurityAnalysis.a_severity d) = JS.get_property v "severity"
               /\ JS.Ok (SecurityAnalysis.a_type d) = JS.get_property v "type"
               /\ JS.Ok (SecurityAnalysis.a_line d) = JS.get_property v "line"
               /\ JS.Ok (SecurityAnalysis.a_description d)
                  = JS.get_property v "description"
               /\ JS.Ok (SecurityAnalysis.a_confidence d)
                  = JS.get_property v "confidence"
               /\ JS.Ok (SecurityAnalysis.a_suggestedFix d)
                  = JS.get_property v "suggestedFix"
               /\ Text.show (SecurityAnalysis.a_type d) = JS.Ok written
               /\ SecurityAnalysis.a_aiAnalysis d
                  = "AI-detected " +:+ written +:+ " vulnerability").
Proof.
  cbn zeta. unfold SecurityAnalysis.performAISecurityAnalysis.
  destruct (ZAI.parse_reply JSON_parse reply "[]") as [v|e]; cbn [JS.bind].
  2:{ split; [reflexivity | intros l H; discriminate H]. }
  destruct v as [| | | |l|]; try (split; [reflexivity | intros l H; discriminate H]).
  split.
  - intros Hodd.
    destruct (map_detected_unmappable clock fileName l 0 (Hodd l eq_refl)) as [e ->].
    reflexivity.
  - intros l' Hl Hall. injection Hl as <-.
    destruct (map_detected_mappable clock fileName l Hall 0) as (found & -> & Hlen & Hget).
    split; [exact Hlen|]. intros i v Hi.
    destruct (Hget i v Hi) as (d & Hd & Hrun). cbn [Nat.add] in Hrun.
    assert (Hv : SecurityAnalysis.mappable v).
    { rewrite Forall_forall in Hall. apply Hall. eapply list_elem_of_lookup_2. exact Hi. }
    destruct (detected_mappable (clock i) fileName v i Hv) as (d' & written & Hd' & Hrest).
    assert (d' = d) by congruence. subst d'.
    exists d, written. split; [exact Hd | exact Hrest].
Qed.

(** A type that is an object with a field toString of its own cannot be
    written, and the one element that has it empties the result. *)
Lemma security_analysis_unwritable_type (clock : nat -> nat) :
  Text.ToString (JS.JObj [("toString", JS.JNum 0)]) = JS.Throw JS.TypeError
  /\ SecurityAnalysis.performAISecurityAnalysis Samples.parse clock
       (ZAI.Completed (Some Samples.odd_reply)) "x" "app.js" "javascript"
     = [].
Proof. split; reflexivity. Qed.

(** X21.  The identifiers of the findings of one additional analysis
    are pairwise distinct, whatever the clock says. *)
Theorem security_analysis_ids_distinct (JSON_parse : string -> JS.result JS.json)
    (clock : nat -> nat) (reply : ZAI.Completion) (code fileName language : string) :
  NoDup (map SecurityAnalysis.a_id
           (SecurityAnalysis.performAISecurityAnalysis JSON_parse clock reply
              code fileName language)).
Proof.
  unfold SecurityAnalysis.performAISecurityAnalysis.
  destruct (ZAI.parse_reply JSON_parse reply "[]") as [v|e]; cbn [JS.bind];
    [|apply NoDup_nil_2].
  destruct v as [| | | |l|]; try apply NoDup_nil_2.
  assert (Hgen : forall index found,
             SecurityAnalysis.map_detected clock fileName index l = JS.Ok found ->
             NoDup (map SecurityAnalysis.a_id found)
             /\ forall d, In d found ->
                  exists i, index <= i
                            /\ SecurityAnalysis.a_id d
                               = "ai-detected-" +:+ Text.Number_toString (clock i)
                                 +:+ "-" +:+ Text.Number_toString i).
  { induction l as [|v rest IH]; intros index found Hrun.
    - cbn in Hrun. injection Hrun as <-. split; [apply NoDup_nil_2 | intros d []].
    - cbn [SecurityAnalysis.map_detected] in Hrun.
      destruct (SecurityAnalysis.detected (clock index) fileName v index) as [d|e] eqn:Hd;
        [|discriminate Hrun].
      cbn [JS.bind] in Hrun.
      destruct (SecurityAnalysis.map_detected clock fileName (S index) rest)
        as [ds|e] eqn:Hds; [|discriminate Hrun].
      cbn [JS.bind] in Hrun. injection Hrun as <-.
      destruct (IH (S index) ds Hds) as [Hnd Hids].
      assert (Hid : SecurityAnalysis.a_id d
                    = "ai-detected-" +:+ Text.Number_toString (clock index)
                      +:+ "-" +:+ Text.Number_toString index).
      { eapply detected_id. exact Hd. }
      split.
      + cbn [map]. apply NoDup_cons. split; [|exact Hnd].
        intros Hin. apply list_elem_of_fmap in Hin as (d' & Heq & Hd').
        apply list_elem_of_In in Hd'. destruct (Hids d' Hd') as (i & Hi & Hid').
        rewrite Hid, Hid' in Heq. apply append_inv_head in Heq.
        apply split_at_hyphen in Heq as [_ Heq];
          try apply Number_toString_no_hyphen.
        apply Number_toString_inj in Heq. lia.
      + intros d' [<-|Hd']; [exists index; auto|].
        destruct (Hids d' Hd') as (i & Hi & Hid'). exists i. split; [lia | exact Hid']. }
  destruct (SecurityAnalysis.map_detected clock fileName 0 l) as [found|e] eqn:Hrun;
    [|apply NoDup_nil_2].
  exact (proj1 (Hgen 0 found Hrun)).
Qed.

(* ================================================================== *)
(** * What the enrichment keeps of an issue                          *)
(* ================================================================== *)

Section EnrichmentKeeps.
Import JS AnalyzeRoute AnalyzeRouteFacts.

Variable JSON_parse : string -> result json.

Lemma enhance_keeps (reply : ZAI.Completion) (vuln : Issue)
    (code fileName language : string) :
  exists ev,
    enhanceVulnerabilityWithAI JSON_parse reply vuln code fileName language = Ok ev
    /\ keeps fileName vuln ev
    /\ truthy (Some (ev_confidence ev)) = true.
Proof.
  unfold enhanceVulnerabilityWithAI, keeps.
  destruct (ZAI.parse_reply JSON_parse reply "{}") as [v|e]; cbn [bind try_catch].
  - destruct v as [| | | | |fields]; cbn [get_property bind try_catch];
      try (eexists; split; [reflexivity|]; cbn; tauto).
    destruct (field "confidence" fields) as [c|] eqn:Hc;
      [destruct (truthy (Some c)) eqn:Ht|];
      eexists; (split; [reflexivity|]); cbn; auto 10.
  - eexists; split; [reflexivity|]; cbn; tauto.
Qed.

Lemma enhance_all_keeps (batch : list (Issue * ZAI.Completion))
    (code fileName language : string) :
  exists enhanced,
    enhance_all JSON_parse batch code fileName language = Ok enhanced
    /\ Forall2 (fun request ev =>
                  keeps fileName (fst request) ev
                  /\ truthy (Some (ev_confidence ev)) = true)
         batch enhanced.
Proof.
  induction batch as [|[vuln reply] rest (enhanced & Hrun & Hall)].
  - exists []. split; [reflexivity | constructor].
  - destruct (enhance_keeps reply vuln code fileName language) as (ev & Hev & Hk & Ht).
    exists (ev :: enhanced). cbn [enhance_all]. rewrite Hev, Hrun. cbn [bind].
    split; [reflexivity|]. constructor; [split; assumption | exact Hall].
Qed.

End EnrichmentKeeps.

(** X22.  Whatever the replies of the completion service, the analysis
    route answers with one finding for each issue of the request, in the
    order of the request, and each finding keeps the key, type, line and
    message of its issue, the file name of the request and the mapped
    severity; its confidence is never a falsy value. *)
Theorem analysis_route_keeps_the_findings
    (JSON_parse : string -> JS.result JS.json)
    (batch : list (AnalyzeRoute.Issue * ZAI.Completion))
    (aiDetected : list AnalyzeRoute.EnhancedVulnerability)
    (code fileName language : string) :
  exists enhanced,
    AnalyzeRoute.POST JSON_parse batch aiDetected code fileName language
    = AnalyzeRoute.Success (enhanced ++ aiDetected)
    /\ Forall2 (fun request ev =>
                  AnalyzeRouteFacts.keeps fileName (fst request) ev
                  /\ JS.truthy (Some (AnalyzeRoute.ev_confidence ev)) = true)
         batch enhanced.
Proof.
  destruct (enhance_all_keeps JSON_parse batch code fileName language)
    as (enhanced & Hrun & Hall).
  exists enhanced. unfold AnalyzeRoute.POST. rewrite Hrun. auto.
Qed.

(* ================================================================== *)
(** * Scanning and fixing compose                                    *)
(* ================================================================== *)

Section PipelineTheorems.
Import JS Extension ExtensionFacts Pipeline.

Lemma grounded_applicable (es : list Entry) (lines : list string) (v : Vulnerability) :
  grounded es lines 0 v -> applicable lines v.
Proof.
  intros (k & line & e & pre & t & post & fixed & Hk & _ & -> & _ & _ & Hne).
  apply lookup_lt_Some in Hk. unfold applicable. cbn. split; [lia|].
  destruct fixed; [contradiction | reflexivity].
Qed.

End PipelineTheorems.

(** X23.  Scanning and fixing compose: every finding of a scan that
    returns points inside the text and has a fix to apply, so when no
    two findings share a line and the fixes are applied, the buffer that
    is left is the text with the line of every finding holding the fix
    of that finding and every other line as it was. *)
Theorem scan_then_fix (autoFix : bool) (choice confirm : option string)
    (text language : string) (h : list JS.RegExp)
    (findings : list Extension.Vulnerability) :
  autoFix = true \/ (choice = Some "Fix All" /\ confirm = Some "Apply All") ->
  Extension.outcome (Extension.scan text language h) = JS.Ok findings ->
  NoDup (map Extension.v_line findings) ->
  let slots := Extension.fixed_slots findings (JS.split_nl text) in
  exists doc,
    Pipeline.scanAndFixVulnerabilities autoFix choice confirm text language h = JS.Ok doc
    /\ doc = flat_map JS.split_nl slots
    /\ JS.join JS.nl doc = JS.join JS.nl slots
    /\ length slots = length (JS.split_nl text)
    /\ (forall v, In v findings ->
          slots !! Z.to_nat (Extension.v_line v - 1) = Extension.fixed_code v)
    /\ (forall i : nat,
          (forall v, In v findings -> Extension.v_line v <> (Z.of_nat i + 1)%Z) ->
          slots !! i = JS.split_nl text !! i).
Proof.
  intros Hgo Hout Hnd. cbn zeta. unfold Extension.scan in *.
  apply outcome_Ok in Hout as [h' Hscan].
  set (lines := JS.split_nl text) in *.
  assert (Hall : Forall (Extension.applicable lines) findings).
  { apply Forall_forall. intros v Hv. apply list_elem_of_In in Hv.
    eapply grounded_applicable.
    apply (performScan_grounded language lines h h' findings v Hscan Hv). }
  set (sorted := JS.Array_sort Extension.by_line_descending findings).
  assert (Hperm : findings ≡ₚ sorted) by (symmetry; apply Array_sort_perm).
  assert (Hstrict : StronglySorted Extension.above sorted).
  { apply sorted_distinct_strict; [apply Array_sort_sorted|].
    exact (NoDup_lines_perm findings sorted Hperm Hnd). }
  assert (Hrun : fold_left (Extension.apply_fix lines) sorted (JS.Ok lines)
                 = JS.Ok (flat_map JS.split_nl (Extension.fixed_slots findings lines))).
  { pose proof (apply_fixes_descending lines (split_nl_lines_single text) sorted
                  (length lines) []) as Hseq.
    rewrite firstn_all in Hseq. cbn [flat_map] in Hseq.
    rewrite !app_nil_r in Hseq. rewrite Hseq; [| exact Hstrict | | lia].
    - rewrite (insert_fixes_fixed_slots findings sorted lines Hnd Hall Hperm).
      reflexivity.
    - rewrite <- Hperm. exact Hall. }
  exists (flat_map JS.split_nl (Extension.fixed_slots findings lines)).
  split; [|split; [reflexivity|]].
  - unfold Pipeline.scanAndFixVulnerabilities. fold lines.
    rewrite Hscan. cbn [JS.bind fst].
    destruct (Nat.eqb_spec (length findings) 0) as [Hzero|Hsome].
    + apply length_zero_iff_nil in Hzero. subst findings. f_equal.
      unfold Extension.fixed_slots.
      replace (imap _ lines) with lines.
      * symmetry. apply flat_map_split_single. apply split_nl_lines_single.
      * symmetry. apply list_eq. intros j. rewrite list_lookup_imap.
        destruct (lines !! j); reflexivity.
    + replace (autoFix || _) with true.
      2:{ destruct Hgo as [->|[-> _]]; [reflexivity|]. cbn. symmetry. apply orb_true_r. }
      unfold Extension.applyFixes.
      replace (negb autoFix && _) with false.
      2:{ destruct Hgo as [->|[_ ->]]; [reflexivity|]. cbn. symmetry. apply andb_false_r. }
      fold sorted. rewrite Hrun. reflexivity.
  - split; [apply join_flat_map_split|].
    split; [unfold Extension.fixed_slots; apply length_imap|].
    split.
    + intros v Hv. apply fixed_slots_target; assumption.
    + intros i Hi. apply fixed_slots_other. exact Hi.
Qed.

Lemma scan_then_fix_witness :
  exists doc,
    Pipeline.scanAndFixVulnerabilities true None None
      ("let a = 1;" +:+ JS.nl +:+ "x = eval(y)") "javascript" []
    = JS.Ok doc
    /\ doc = ["let a = 1;"; "x = JSON.parse(y)"].
Proof.
  destruct (scan_then_fix true None None
              ("let a = 1;" +:+ JS.nl +:+ "x = eval(y)") "javascript" []
              [Extension.mkVulnerability "Eval Usage" high 2
                 "Use of eval() function is dangerous" (Some "x = JSON.parse(y)")])
    as (doc & Hrun & Hdoc & _).
  - left. reflexivity.
  - vm_compute. reflexivity.
  - vm_compute. repeat constructor; intros H; inversion H.
  - exists doc. split; [exact Hrun|]. rewrite Hdoc. vm_compute. reflexivity.
Defined.
